(** * Profile reconciliation: the [fetch-profile] edge function

    A shallow embedding of the request handler of
    [supabase/functions/fetch-profile/index.ts]: the handler that reads a
    user's account summary from the remote profile service, fetches one
    character profile per roster entry, upserts guilds and characters and
    removes the characters the account no longer lists.

    The remote service and the record store are collaborators: every call
    the handler makes is recorded, in order, as an [Effect], and every
    answer is read from a [World].  The handler is a function from a world
    and a request to a response and the list of calls it made.  A [throw],
    a read of a property of [undefined], a body that [json()] cannot decode
    and a rejected [fetch] all end in the handler's [catch] block. *)

From stdpp Require Import base strings list gmap pretty.
From Stdlib Require Import ZArith Ascii String.

Open Scope string_scope.
Open Scope Z_scope.
Open Scope list_scope.
Open Scope stdpp_scope.

(** ** Data *)

(** [new Response(body, { status })]. *)
Record Response := mkResponse { status : Z; body : string }.

(** The two query parameters the handler reads; [searchParams.get] yields a
    string or [null]. *)
Record Request := mkRequest {
  user_id_param : option string;
  battlenet_id_param : option string
}.

(** JavaScript truthiness of a [string | null]: [null] and the empty string
    are falsy. *)
Definition truthy (p : option string) : bool :=
  match p with
  | Some s => negb (String.eqb s "")
  | None => false
  end.

(** [userFilter]: [{ id }] or [{ battlenet_id: Number(param) }]; the
    parameter is kept as received. *)
Inductive UserFilter :=
| FilterId (id : string)
| FilterBattlenetId (raw : string).

(** The columns of a [users] row the handler reads. *)
Record User := mkUser {
  u_id : string;
  u_access_token : string;
  u_battletag : string
}.

(** What a store call resolves to: [{ data, error }]. *)
Record SbResult (A : Type) := mkSb { data : option A; error : option string }.
Arguments mkSb {A} _ _.
Arguments data {A} _.
Arguments error {A} _.

(** What the handler gets out of a payload it reads without checking it:
    the values it reads, or a throw.  [res.json()] rejects when the body is
    not JSON, and reading a property of [undefined] or [null] throws when
    the decoded value has not the shape the handler reads.  Which of the
    two a payload is, is part of the answer. *)
Inductive Body (A : Type) :=
| Readable (a : A)
| Unreadable (reason : string).
Arguments Readable {A} _.
Arguments Unreadable {A} _.

(** What [fetch] resolves to: the status and the body. *)
Record FetchRes (A : Type) := mkFetch { res_status : Z; res_json : A }.
Arguments mkFetch {A} _ _.
Arguments res_status {A} _.
Arguments res_json {A} _.

(** [Response.ok]: a status in the range 200 to 299. *)
Definition res_ok {A} (r : FetchRes A) : bool :=
  (200 <=? res_status r) && (res_status r <=? 299).

(** What [await fetch(...)] does: the promise resolves to a response, of
    whatever status, or it is rejected (the request could not be made or
    answered) and the [await] throws. *)
Inductive Fetched (A : Type) :=
| Resolved (res : FetchRes A)
| Rejected (reason : string).
Arguments Resolved {A} _.
Arguments Rejected {A} _.

(** [ac.guild] of an account-summary entry, when the payload carries one:
    [guild.name] and [guild.realm.slug]; the latter cannot be read when the
    guild has no [realm]. *)
Record SummaryGuild := mkSummaryGuild {
  sg_name : string;
  sg_realm_slug : Body string
}.

(** One entry of [wow_accounts[].characters], as the character loop reads
    it: [name], [realm.slug], [playable_class.id], [playable_race.id],
    [level], and the optional [guild] the linking loop looks at. *)
Record CharSummary := mkCharSummary {
  cs_name : string;
  cs_realm_slug : string;
  cs_class_id : Z;
  cs_race_id : Z;
  cs_level : Z;
  cs_guild : option SummaryGuild
}.

(** [wowAccount.characters].  An entry is unreadable when a read of the
    character loop throws on it: the entry is [null], it has no [realm],
    [playable_class] or [playable_race], or its [name] has no
    [toLowerCase]. *)
Record WowAccount := mkWowAccount {
  characters : option (list (Body CharSummary))
}.

(** The body of the account summary.  The body as a whole is unreadable
    when [json()] rejects, when it is [null], when [wow_accounts] cannot be
    iterated or when one of its entries is [null]. *)
Record AccountProfile := mkAccountProfile {
  wow_accounts : option (list WowAccount)
}.

(** [charProfile.guild]: [name] and [realm.slug].  The body of a character
    profile is unreadable when [json()] rejects, when it is [null] or when
    its guild has no [realm]. *)
Record ProfileGuild := mkProfileGuild {
  pg_name : string;
  pg_realm_slug : string
}.

Record CharProfile := mkCharProfile { guild : option ProfileGuild }.

(** An element of [guildRows]: exactly the three properties of the object
    literal pushed in the character loop. *)
Record GuildRow := mkGuildRow {
  g_name : string;
  g_realm_slug : string;
  g_region : string
}.

(** A row returned by the guild upsert's [select("id, name, realm_slug, region")]. *)
Record GuildRec := mkGuildRec {
  gr_id : string;
  gr_name : string;
  gr_realm_slug : string;
  gr_region : string
}.

(** An element of [charRows].  [c_guild_id] is [None] both while the
    property is still missing and once it is set to [null]. *)
Record CharRow := mkCharRow {
  c_name : string;
  c_realm_slug : string;
  c_region : string;
  c_user_id : string;
  c_level : Z;
  c_class_id : Z;
  c_race_id : Z;
  c_guild_id : option string
}.

(** A row of [select("name, realm_slug, region")] on [characters]. *)
Record StoredChar := mkStoredChar {
  sc_name : string;
  sc_realm_slug : string;
  sc_region : string
}.

(** ** The collaborators *)

(** Every call that leaves the handler, in the order it is made. *)
Inductive Effect :=
| EvSelectUser (filter : UserFilter)
| EvFetchAccount (url bearer : string)
| EvFetchCharacter (url bearer : string)
| EvUpsertGuilds (rows : list GuildRow)
| EvUpsertCharacters (rows : list CharRow)
| EvSelectCharacters (user_id : string)
| EvDeleteCharacter (user_id name realm_slug region : string).

(** The calls that change the store. *)
Definition is_write (e : Effect) : bool :=
  match e with
  | EvUpsertGuilds _ | EvUpsertCharacters _ | EvDeleteCharacter _ _ _ _ => true
  | _ => false
  end.

(** The answers of the store and of the remote service.  The result of a
    delete is never read by the handler, so the world has no entry for it. *)
Record World := mkWorld {
  users_single : UserFilter -> SbResult User;
  fetch_account : string -> string -> Fetched (Body AccountProfile);
  fetch_character : string -> string -> Fetched (Body CharProfile);
  guilds_upsert : list GuildRow -> SbResult (list GuildRec);
  characters_upsert : list CharRow -> SbResult unit;
  characters_by_user : string -> SbResult (list StoredChar)
}.

(** ** Control flow: calls, early [return], [throw] *)

Inductive Outcome (A : Type) :=
| Value (a : A)
| Return (r : Response)
| Throw (msg : string).
Arguments Value {A} _.
Arguments Return {A} _.
Arguments Throw {A} _.

(** A computation yields an outcome and the calls it made. *)
Definition Run (A : Type) : Type := Outcome A * list Effect.

Definition ret {A} (a : A) : Run A := (Value a, []).
Definition call {A} (e : Effect) (answer : A) : Run A := (Value answer, [e]).
Definition respond {A} (r : Response) : Run A := (Return r, []).
Definition throw {A} (msg : string) : Run A := (Throw msg, []).

(** [await fetch(...)]: the call is made; a rejected promise throws. *)
Definition await_fetch {A} (e : Effect) (answer : Fetched A) : Run (FetchRes A) :=
  match answer with
  | Resolved res => (Value res, [e])
  | Rejected reason => (Throw reason, [e])
  end.

(** Reading a payload: the values, or the throw. *)
Definition read_body {A} (payload : Body A) : Run A :=
  match payload with
  | Readable a => (Value a, [])
  | Unreadable reason => (Throw reason, [])
  end.

Definition bind {A B} (m : Run A) (k : A -> Run B) : Run B :=
  match m with
  | (Value a, t) => let '(o, t') := k a in (o, t ++ t')
  | (Return r, t) => (Return r, t)
  | (Throw msg, t) => (Throw msg, t)
  end.

Notation "x <- m ;; k" := (bind m (fun x => k))
  (at level 100, m at next level, right associativity).
Notation "m ;;; k" := (bind m (fun _ => k))
  (at level 100, right associativity).

(** [for (const x of xs) { body }] *)
Fixpoint for_each {A} (xs : list A) (body : A -> Run unit) : Run unit :=
  match xs with
  | [] => ret tt
  | x :: rest => body x ;;; for_each rest body
  end.

(** [for (const x of xs) { ... }] with a body that rewrites [x] in place
    and may throw: the elements are rewritten in order. *)
Fixpoint for_each_map {A B} (xs : list A) (body : A -> Run B) : Run (list B) :=
  match xs with
  | [] => ret []
  | x :: rest =>
      y <- body x ;;
      ys <- for_each_map rest body ;;
      ret (y :: ys)
  end.

(** [xs.find(p)] with a predicate that may throw: the first element the
    predicate holds of. *)
Fixpoint find_run {A} (p : A -> Run bool) (xs : list A) : Run (option A) :=
  match xs with
  | [] => ret None
  | x :: rest =>
      found <- p x ;;
      if found then ret (Some x) else find_run p rest
  end.

(** ** Strings

    A string is a sequence of code units below 256. *)

(** The lower-case form of a code unit: the letters [A] to [Z], and the
    letters from 192 to 222 other than the multiplication sign 215, have
    one, 32 above. *)
Definition lower_ascii (a : ascii) : ascii :=
  let n := nat_of_ascii a in
  if ((65 <=? n) && (n <=? 90)
      || (192 <=? n) && (n <=? 222) && negb (n =? 215))%nat
  then ascii_of_nat (n + 32) else a.

(** [String.prototype.toLowerCase]. *)
Fixpoint toLowerCase (s : string) : string :=
  match s with
  | EmptyString => EmptyString
  | String a rest => String (lower_ascii a) (toLowerCase rest)
  end.

(** The template [`${a}|${b}|${c}`] used for every composite key. *)
Definition composite_key (a b c : string) : string :=
  a +:+ "|" +:+ b +:+ "|" +:+ c.

(** ** The handler *)

Section Handler.

(** [BLIZZARD_API_REGION] and [LOCALE], read from the environment when the
    module is loaded. *)
Variable BLIZZARD_API_REGION : string.
Variable LOCALE : string.

Definition account_url : string :=
  "https://" +:+ BLIZZARD_API_REGION
  +:+ ".api.blizzard.com/profile/user/wow?namespace=profile-"
  +:+ BLIZZARD_API_REGION +:+ "&locale=" +:+ LOCALE.

Definition character_url (region realmSlug name : string) : string :=
  "https://" +:+ region +:+ ".api.blizzard.com/profile/wow/character/"
  +:+ realmSlug +:+ "/" +:+ toLowerCase name
  +:+ "?namespace=profile-" +:+ region +:+ "&locale=" +:+ LOCALE.

(** [allCharacters]: the [characters] of every entry of [wow_accounts], in
    order; a missing [wow_accounts] or [characters] contributes nothing. *)
Definition all_characters (p : AccountProfile) : list (Body CharSummary) :=
  List.concat (map (fun a => default [] (characters a))
              (default [] (wow_accounts p))).

(** The entries of [allCharacters] that can be read.  The linking loop and
    the cleanup read the entries again; by then the character loop has read
    every one of them, so these reads yield the same values and do not
    throw. *)
Definition characters_read (allCharacters : list (Body CharSummary))
  : list CharSummary :=
  flat_map (fun entry => match entry with
                         | Readable char => [char]
                         | Unreadable _ => []
                         end) allCharacters.

(** The body of the character loop after the fetch: what is pushed on
    [guildRows], nothing unless the profile fetch is ok and reports a
    guild.  The body of an ok answer is decoded and read. *)
Definition guild_row_of (region : string) (res : FetchRes (Body CharProfile))
  : Run (list GuildRow) :=
  if res_ok res then
    charProfile <- read_body (res_json res) ;;
    match guild charProfile with
    | Some g => ret [mkGuildRow (pg_name g) (pg_realm_slug g) region]
    | None => ret []
    end
  else ret [].

Definition char_row_of (userData : User) (region : string) (char : CharSummary)
  : CharRow :=
  {| c_name := cs_name char;
     c_realm_slug := cs_realm_slug char;
     c_region := region;
     c_user_id := u_id userData;
     c_level := cs_level char;
     c_class_id := cs_class_id char;
     c_race_id := cs_race_id char;
     c_guild_id := None |}.

(** The character loop: the entry is read, its profile is fetched, its
    guild row and its character row are pushed. *)
Fixpoint collect (w : World) (userData : User)
    (chars : list (Body CharSummary))
    (charRows : list CharRow) (guildRows : list GuildRow)
  : Run (list CharRow * list GuildRow) :=
  match chars with
  | [] => ret (charRows, guildRows)
  | entry :: rest =>
      char <- read_body entry ;;
      let region := BLIZZARD_API_REGION in
      let url := character_url region (cs_realm_slug char) (cs_name char) in
      charProfileRes <-
        await_fetch (EvFetchCharacter url (u_access_token userData))
                    (fetch_character w url (u_access_token userData)) ;;
      pushed <- guild_row_of region charProfileRes ;;
      collect w userData rest
              (charRows ++ [char_row_of userData region char])
              (guildRows ++ pushed)
  end.

(** [uniqueGuilds[key] = g] on an object used as a map: a known key keeps
    its place and takes the new value, a new key goes last.  (Every key
    contains a [|], so none is an array index and [Object.values] follows
    insertion order.) *)
Fixpoint obj_set {V} (key : string) (v : V) (o : list (string * V))
  : list (string * V) :=
  match o with
  | [] => [(key, v)]
  | (k, x) :: o' =>
      if String.eqb k key then (k, v) :: o' else (k, x) :: obj_set key v o'
  end.

Definition guild_key (g : GuildRow) : string :=
  composite_key (g_name g) (g_realm_slug g) (g_region g).

Definition uniqueGuilds (guildRows : list GuildRow) : list (string * GuildRow) :=
  fold_left (fun o g => obj_set (guild_key g) g o) guildRows [].

Definition guildsToUpsert (guildRows : list GuildRow) : list GuildRow :=
  map snd (uniqueGuilds guildRows).

(** [guildIdMap], filled from the rows the upsert returned. *)
Definition build_guildIdMap (upserted : option (list GuildRec))
  : gmap string string :=
  match upserted with
  | Some gs =>
      fold_left
        (fun m g =>
           <[composite_key (gr_name g) (gr_realm_slug g) (gr_region g) := gr_id g]> m)
        gs ∅
  | None => ∅
  end.

Definition upsert_guilds (w : World) (guildRows : list GuildRow)
  : Run (gmap string string) :=
  match guildRows with
  | [] => ret ∅
  | _ :: _ =>
      let batch := guildsToUpsert guildRows in
      r <- call (EvUpsertGuilds batch) (guilds_upsert w batch) ;;
      match error r with
      | Some msg => throw ("Guild upsert failed: " +:+ msg)
      | None => ret (build_guildIdMap (data r))
      end
  end.

(** The predicate of the inner [allCharacters.find]: the four comparisons
    of the [&&] chain, from the left; [ac.guild?.realm.slug] is read only
    when the three before it hold. *)
Definition summary_matches (c : CharRow) (g : GuildRow) (ac : CharSummary)
  : Run bool :=
  if String.eqb (cs_name ac) (c_name c)
     && String.eqb (cs_realm_slug ac) (c_realm_slug c)
  then
    match cs_guild ac with
    | Some sg =>
        if String.eqb (sg_name sg) (g_name g) then
          slug <- read_body (sg_realm_slug sg) ;;
          ret (String.eqb slug (g_realm_slug g))
        else ret false
    | None => ret false
    end
  else ret false.

(** [guildRows.find(g => allCharacters.find(ac => ...))]: an element of
    [guildRows]. *)
Definition find_character_guild (allCharacters : list CharSummary)
    (guildRows : list GuildRow) (c : CharRow) : Run (option GuildRow) :=
  find_run
    (fun g =>
       found <- find_run (summary_matches c g) allCharacters ;;
       ret (bool_decide (is_Some found)))
    guildRows.

(** [characterGuild.guild]: the element found is one of the object literals
    [{ name, realm_slug, region }], which has no [guild] property, so the
    read yields [undefined]. *)
Definition row_guild (g : GuildRow) : option SummaryGuild := None.

Definition set_guild_id (c : CharRow) (id : option string) : CharRow :=
  {| c_name := c_name c;
     c_realm_slug := c_realm_slug c;
     c_region := c_region c;
     c_user_id := c_user_id c;
     c_level := c_level c;
     c_class_id := c_class_id c;
     c_race_id := c_race_id c;
     c_guild_id := id |}.

(** The body of the linking loop for one row. *)
Definition link_one (allCharacters : list CharSummary) (guildRows : list GuildRow)
    (guildIdMap : gmap string string) (c : CharRow) : Run CharRow :=
  found <- find_character_guild allCharacters guildRows c ;;
  match found with
  | Some characterGuild =>
      match row_guild characterGuild with
      | None =>
          throw "TypeError: Cannot read properties of undefined (reading 'name')"
      | Some gg =>
          slug <- read_body (sg_realm_slug gg) ;;
          let guildKey := composite_key (sg_name gg) slug (c_region c) in
          match guildIdMap !! guildKey with
          | Some id =>
              if String.eqb id "" then ret (set_guild_id c None)
              else ret (set_guild_id c (Some id))
          | None => ret (set_guild_id c None)
          end
      end
  | None => ret (set_guild_id c None)
  end.

Definition link (allCharacters : list CharSummary) (guildRows : list GuildRow)
    (guildIdMap : gmap string string) (charRows : list CharRow)
  : Run (list CharRow) :=
  for_each_map charRows (link_one allCharacters guildRows guildIdMap).

Definition char_key (c : CharSummary) : string :=
  composite_key (cs_name c) (cs_realm_slug c) BLIZZARD_API_REGION.

Definition stored_key (char : StoredChar) : string :=
  composite_key (sc_name char) (sc_realm_slug char) (sc_region char).

(** [currentCharKeys], a [Set] of strings. *)
Definition currentCharKeys (allCharacters : list CharSummary) : gset string :=
  list_to_set (map char_key allCharacters).

Definition cleanup (w : World) (userData : User) (allCharacters : list CharSummary)
  : Run unit :=
  let keys := currentCharKeys allCharacters in
  r <- call (EvSelectCharacters (u_id userData))
            (characters_by_user w (u_id userData)) ;;
  match data r with
  | Some existingChars =>
      for_each existingChars (fun char =>
        if bool_decide (stored_key char ∈ keys) then ret tt
        else call (EvDeleteCharacter (u_id userData) (sc_name char)
                                     (sc_realm_slug char) (sc_region char)) tt)
  | None => ret tt
  end.

Definition success_body (userData : User) (charRows : list CharRow) : string :=
  "Profile sync completed for user " +:+ u_battletag userData
  +:+ ". Characters updated: " +:+ pretty (List.length charRows).

(** The part of the handler after the user row has been read.  Every path
    ends in a [return] or a [throw], so the computation has no value. *)
Definition sync (w : World) (userData : User) : Run Empty_set :=
  let accessToken := u_access_token userData in
  accountProfileRes <-
    await_fetch (EvFetchAccount account_url accessToken)
                (fetch_account w account_url accessToken) ;;
  if negb (res_ok accountProfileRes) then
    if res_status accountProfileRes =? 401
    then respond (mkResponse 401 "Access token expired or invalid.")
    else respond (mkResponse 500 "Failed to fetch account profile.")
  else
    accountProfile <- read_body (res_json accountProfileRes) ;;
    let allCharacters := all_characters accountProfile in
    rows <- collect w userData allCharacters [] [] ;;
    let '(charRows, guildRows) := rows in
    guildIdMap <- upsert_guilds w guildRows ;;
    linked <- link (characters_read allCharacters) guildRows guildIdMap charRows ;;
    r <- call (EvUpsertCharacters linked) (characters_upsert w linked) ;;
    match error r with
    | Some msg => throw ("Character upsert failed: " +:+ msg)
    | None =>
        cleanup w userData (characters_read allCharacters) ;;;
        respond (mkResponse 200 (success_body userData linked))
    end.

(** The body of the [try] block. *)
Definition try_block (w : World) (req : Request) : Run Empty_set :=
  let userFilter :=
    if truthy (user_id_param req)
    then FilterId (default "" (user_id_param req))
    else FilterBattlenetId (default "" (battlenet_id_param req)) in
  r <- call (EvSelectUser userFilter) (users_single w userFilter) ;;
  match error r, data r with
  | None, Some userData => sync w userData
  | _, _ => respond (mkResponse 404 "User not found in database.")
  end.

(** [try { ... } catch (err) { return 500 }]. *)
Definition catch (m : Run Empty_set) : Response * list Effect :=
  match m with
  | (Return r, t) => (r, t)
  | (Throw _, t) => (mkResponse 500 "Failed to sync profile data.", t)
  | (Value v, _) => match v with end
  end.

Definition handler (w : World) (req : Request) : Response * list Effect :=
  if negb (truthy (user_id_param req)) && negb (truthy (battlenet_id_param req))
  then (mkResponse 400 "Missing user identifier (user_id or battlenet_id)", [])
  else catch (try_block w req).

End Handler.

(** * The run in closed form

    The definitions below name what a run computes phase by phase; the
    lemmas after them show that the handler computes exactly that. *)

Section RunDefinitions.

Variable REGION : string.
Variable LOCALE : string.
Variable w : World.

(** The answer to the profile fetch of one roster entry. *)
Definition detail_res (userData : User) (char : CharSummary)
  : Fetched (Body CharProfile) :=
  fetch_character w
    (character_url LOCALE REGION (cs_realm_slug char) (cs_name char))
    (u_access_token userData).

Definition detail_event (userData : User) (char : CharSummary) : Effect :=
  EvFetchCharacter
    (character_url LOCALE REGION (cs_realm_slug char) (cs_name char))
    (u_access_token userData).

Definition char_rows_of (userData : User) (chars : list CharSummary)
  : list CharRow :=
  map (char_row_of userData REGION) chars.

(** The guild a profile answer reports: the guild of the body of an ok
    answer. *)
Definition reported_guild (res : FetchRes (Body CharProfile))
  : option ProfileGuild :=
  if res_ok res then
    match res_json res with
    | Readable charProfile => guild charProfile
    | Unreadable _ => None
    end
  else None.

(** The guild rows one character contributes. *)
Definition detail_guild_rows (userData : User) (char : CharSummary)
  : list GuildRow :=
  match detail_res userData char with
  | Resolved res =>
      match reported_guild res with
      | Some g => [mkGuildRow (pg_name g) (pg_realm_slug g) REGION]
      | None => []
      end
  | Rejected _ => []
  end.

(** Why the profile of a roster entry ends the run, if it does: the fetch
    is rejected, or it is answered with an ok status and a body that cannot
    be read. *)
Definition detail_failure (userData : User) (char : CharSummary)
  : option string :=
  match detail_res userData char with
  | Rejected reason => Some reason
  | Resolved res =>
      if res_ok res then
        match res_json res with
        | Readable _ => None
        | Unreadable reason => Some reason
        end
      else None
  end.

Definition guild_rows_of (userData : User) (chars : list CharSummary)
  : list GuildRow :=
  flat_map (detail_guild_rows userData) chars.

(** What throws first in the character loop, if anything: an entry that
    cannot be read, or the profile of an entry. *)
Fixpoint loop_failure (userData : User) (chars : list (Body CharSummary))
  : option string :=
  match chars with
  | [] => None
  | Unreadable reason :: _ => Some reason
  | Readable char :: rest =>
      match detail_failure userData char with
      | Some reason => Some reason
      | None => loop_failure userData rest
      end
  end.

(** The characters whose profile is fetched: all of them, or those up to
    the throw. *)
Fixpoint fetched_upto (userData : User) (chars : list (Body CharSummary))
  : list CharSummary :=
  match chars with
  | [] => []
  | Unreadable _ :: _ => []
  | Readable char :: rest =>
      char :: match detail_failure userData char with
              | Some _ => []
              | None => fetched_upto userData rest
              end
  end.

(** The predicate of the inner [find] holds or throws: the name, the realm
    slug and the guild name are equal, and the realm slug of the guild is
    equal or cannot be read. *)
Definition may_match (c : CharRow) (g : GuildRow) (ac : CharSummary) : bool :=
  String.eqb (cs_name ac) (c_name c)
  && String.eqb (cs_realm_slug ac) (c_realm_slug c)
  && match cs_guild ac with
     | Some sg =>
         String.eqb (sg_name sg) (g_name g)
         && match sg_realm_slug sg with
            | Readable slug => String.eqb slug (g_realm_slug g)
            | Unreadable _ => true
            end
     | None => false
     end.

(** The linking loop finds a guild row for a character row, or throws
    while it looks for one. *)
Definition link_finds (allCharacters : list CharSummary)
    (guildRows : list GuildRow) (c : CharRow) : bool :=
  existsb (fun g => existsb (may_match c g) allCharacters) guildRows.

Definition delete_event (userData : User) (char : StoredChar) : Effect :=
  EvDeleteCharacter (u_id userData) (sc_name char) (sc_realm_slug char)
                    (sc_region char).

(** The rows of the cleanup read that the loop deletes. *)
Definition orphans (allCharacters : list CharSummary)
    (existingChars : list StoredChar) : list StoredChar :=
  List.filter
    (fun char =>
       negb (bool_decide (stored_key char ∈ currentCharKeys REGION allCharacters)))
    existingChars.

(** The response of the [catch] block. *)
Definition sync_error : Response :=
  mkResponse 500 "Failed to sync profile data.".

Definition account_fetched (userData : User)
  : Fetched (Body AccountProfile) :=
  fetch_account w (account_url REGION LOCALE) (u_access_token userData).

(** The entries of the account summary, when its body can be read. *)
Definition account_entries (userData : User) : list (Body CharSummary) :=
  match account_fetched userData with
  | Resolved res =>
      match res_json res with
      | Readable accountProfile => all_characters accountProfile
      | Unreadable _ => []
      end
  | Rejected _ => []
  end.

(** The roster of a run: the characters of the account summary, as far as
    its entries can be read. *)
Definition roster (userData : User) : list CharSummary :=
  characters_read (account_entries userData).

(** The account summary was fetched with an ok status. *)
Definition account_ok (userData : User) : bool :=
  match account_fetched userData with
  | Resolved res => res_ok res
  | Rejected _ => false
  end.

(** The account summary was answered with a body that cannot be read, or
    with an entry that cannot be read. *)
Definition roster_unreadable (userData : User) : bool :=
  match account_fetched userData with
  | Resolved res =>
      match res_json res with
      | Readable accountProfile =>
          existsb (fun entry => match entry with
                                | Readable _ => false
                                | Unreadable _ => true
                                end) (all_characters accountProfile)
      | Unreadable _ => true
      end
  | Rejected _ => false
  end.

(** The profile of a roster entry ends the run. *)
Definition detail_fails (userData : User) : bool :=
  existsb (fun char => bool_decide (is_Some (detail_failure userData char)))
          (roster userData).

(** The run is left by a throw between the account fetch and the guild
    upsert: the account summary or a profile cannot be read, or a profile
    fetch is rejected. *)
Definition loop_throws (userData : User) : bool :=
  roster_unreadable userData || detail_fails userData.

(** [guildRows] after the character loop. *)
Definition run_guildRows (userData : User) : list GuildRow :=
  guild_rows_of userData (roster userData).

(** The batch of the character upsert, when the run gets that far. *)
Definition run_charRows (userData : User) : list CharRow :=
  map (fun c => set_guild_id c None) (char_rows_of userData (roster userData)).

Definition guild_events (guildRows : list GuildRow) : list Effect :=
  match guildRows with
  | [] => []
  | _ :: _ => [EvUpsertGuilds (guildsToUpsert guildRows)]
  end.

(** The guild upsert is issued and answered with an error. *)
Definition guild_failed (guildRows : list GuildRow) : bool :=
  match guildRows with
  | [] => false
  | _ :: _ =>
      bool_decide (is_Some (error (guilds_upsert w (guildsToUpsert guildRows))))
  end.

(** The linking loop throws: it finds a guild row for some character row,
    or throws while it looks for one. *)
Definition link_throws (userData : User) : bool :=
  existsb (link_finds (roster userData) (run_guildRows userData))
          (char_rows_of userData (roster userData)).

(** The character upsert is answered with an error. *)
Definition char_failed (userData : User) : bool :=
  bool_decide (is_Some (error (characters_upsert w (run_charRows userData)))).

Definition cleanup_events (userData : User) : list Effect :=
  EvSelectCharacters (u_id userData)
  :: map (delete_event userData)
       (orphans (roster userData)
          (default [] (data (characters_by_user w (u_id userData))))).

(** The calls of [sync], phase after phase, up to the phase that ends it. *)
Definition sync_trace (userData : User) : list Effect :=
  EvFetchAccount (account_url REGION LOCALE) (u_access_token userData)
  :: if negb (account_ok userData) then []
     else
       map (detail_event userData)
           (fetched_upto userData (account_entries userData))
       ++ if loop_throws userData then []
          else
            guild_events (run_guildRows userData)
            ++ if guild_failed (run_guildRows userData) || link_throws userData
               then []
               else
                 EvUpsertCharacters (run_charRows userData)
                 :: if char_failed userData then [] else cleanup_events userData.

Definition sync_response (userData : User) : Response :=
  match account_fetched userData with
  | Rejected _ => sync_error
  | Resolved res =>
      if negb (res_ok res) then
        if res_status res =? 401
        then mkResponse 401 "Access token expired or invalid."
        else mkResponse 500 "Failed to fetch account profile."
      else if loop_throws userData
              || guild_failed (run_guildRows userData) || link_throws userData
              || char_failed userData
      then sync_error
      else mkResponse 200 (success_body userData (run_charRows userData))
  end.

(** The filter of the user lookup. *)
Definition user_filter (req : Request) : UserFilter :=
  if truthy (user_id_param req)
  then FilterId (default "" (user_id_param req))
  else FilterBattlenetId (default "" (battlenet_id_param req)).

(** The user row the handler goes on with, if any. *)
Definition found_user (req : Request) : option User :=
  match error (users_single w (user_filter req)),
        data (users_single w (user_filter req)) with
  | None, Some userData => Some userData
  | _, _ => None
  end.

Definition missing_params (req : Request) : bool :=
  negb (truthy (user_id_param req)) && negb (truthy (battlenet_id_param req)).

End RunDefinitions.

(** ** Composite keys and natural keys *)

(** A string without the separator of the composite keys. *)
Fixpoint no_bar (s : string) : bool :=
  match s with
  | EmptyString => true
  | String a rest => negb (Ascii.eqb a "|") && no_bar rest
  end.

(** A roster whose names and realm slugs are free of [|]. *)
Definition roster_no_bar (chars : list CharSummary) : Prop :=
  forall c, In c chars -> no_bar (cs_name c) = true /\ no_bar (cs_realm_slug c) = true.

(** The natural key of a stored row is the natural key of a roster entry. *)
Definition natural_key_in_roster (REGION : string) (chars : list CharSummary)
    (char : StoredChar) : Prop :=
  exists c, In c chars
            /\ (cs_name c, cs_realm_slug c, REGION)
               = (sc_name char, sc_realm_slug char, sc_region char).

(** ** Sample worlds

    Concrete users, rosters and store answers at which the properties
    below are evaluated. *)

Definition ex_user : User := mkUser "u1" "tok" "Thrall#1234".
Definition ex_request : Request := mkRequest (Some "u1") None.

Definition thrall : CharSummary := mkCharSummary "Thrall" "icecrown" 7 2 60 None.
Definition jaina : CharSummary := mkCharSummary "Jaina" "area52" 8 1 70 None.

Definition account_of (status : Z) (chars : list CharSummary)
  : Fetched (Body AccountProfile) :=
  Resolved (mkFetch status
              (Readable (mkAccountProfile
                           (Some [mkWowAccount (Some (map Readable chars))])))).

(** A store that accepts a guild batch and answers with one id per row. *)
Definition assign_ids (rows : list GuildRow) : SbResult (list GuildRec) :=
  mkSb (Some (map (fun g => mkGuildRec ("id:" +:+ guild_key g) (g_name g)
                                       (g_realm_slug g) (g_region g)) rows))
       None.

Definition make_world (account : Fetched (Body AccountProfile))
    (detail : string -> string -> Fetched (Body CharProfile))
    (guilds : list GuildRow -> SbResult (list GuildRec))
    (chars : list CharRow -> SbResult unit)
    (stored : list StoredChar) : World :=
  {| users_single := fun _ => mkSb (Some ex_user) None;
     fetch_account := fun _ _ => account;
     fetch_character := detail;
     guilds_upsert := guilds;
     characters_upsert := chars;
     characters_by_user := fun _ => mkSb (Some stored) None |}.

Definition in_guild (name realm : string) : Fetched (Body CharProfile) :=
  Resolved (mkFetch 200 (Readable (mkCharProfile (Some (mkProfileGuild name realm))))).
Definition guildless : Fetched (Body CharProfile) :=
  Resolved (mkFetch 200 (Readable (mkCharProfile None))).
Definition not_found : Fetched (Body CharProfile) :=
  Resolved (mkFetch 404 (Unreadable "Unexpected token N in JSON at position 0")).

Definition accept_chars (rows : list CharRow) : SbResult unit :=
  mkSb (Some tt) None.

Definition horde_vanguard : GuildRow := mkGuildRow "Horde Vanguard" "icecrown" "us".

Definition thrall_url : string := character_url "en_US" "us" "icecrown" "Thrall".
Definition jaina_url : string := character_url "en_US" "us" "area52" "Jaina".

(** A name that begins with the capital E with an acute accent, the code
    unit 201; its lower-case form is the code unit 233. *)
Definition elan : CharSummary :=
  mkCharSummary (String (ascii_of_nat 201) "lan") "hyjal" 2 1 80 None.

Definition alpha : GuildRow := mkGuildRow "Alpha" "area52" "us".

Definition orgrim : StoredChar := mkStoredChar "Orgrim" "icecrown" "us".

Definition three_stored : list StoredChar :=
  [mkStoredChar "Thrall" "icecrown" "us"; orgrim;
   mkStoredChar "Jaina" "area52" "us"].

(** ** The calls of a run, by kind *)

(** The calls to the remote service. *)
Definition is_fetch (e : Effect) : bool :=
  match e with
  | EvFetchAccount _ _ | EvFetchCharacter _ _ => true
  | _ => false
  end.

Definition is_character_fetch (e : Effect) : bool :=
  match e with
  | EvFetchCharacter _ _ => true
  | _ => false
  end.

Definition is_guild_upsert (e : Effect) : bool :=
  match e with
  | EvUpsertGuilds _ => true
  | _ => false
  end.

Definition is_character_upsert (e : Effect) : bool :=
  match e with
  | EvUpsertCharacters _ => true
  | _ => false
  end.

Definition is_cleanup_read (e : Effect) : bool :=
  match e with
  | EvSelectCharacters _ => true
  | _ => false
  end.

(** The calls of [sync] up to the end of the character loop, and the calls
    that follow it. *)
Definition fetch_phase (REGION LOCALE : string) (w : World) (userData : User)
  : list Effect :=
  EvFetchAccount (account_url REGION LOCALE) (u_access_token userData)
  :: if negb (account_ok REGION LOCALE w userData) then []
     else map (detail_event REGION LOCALE userData)
              (fetched_upto REGION LOCALE w userData
                            (account_entries REGION LOCALE w userData)).

Definition store_phase (REGION LOCALE : string) (w : World) (userData : User)
  : list Effect :=
  if negb (account_ok REGION LOCALE w userData)
     || loop_throws REGION LOCALE w userData
  then []
  else
    guild_events (run_guildRows REGION LOCALE w userData)
    ++ if guild_failed w (run_guildRows REGION LOCALE w userData)
          || link_throws REGION LOCALE w userData
       then []
       else
         EvUpsertCharacters (run_charRows REGION LOCALE w userData)
         :: if char_failed REGION LOCALE w userData then []
            else cleanup_events REGION LOCALE w userData.

(** The row the character loop builds for a roster entry, once linked. *)
Definition written_row (REGION : string) (userData : User) (char : CharSummary)
  : CharRow :=
  mkCharRow (cs_name char) (cs_realm_slug char) REGION (u_id userData)
            (cs_level char) (cs_class_id char) (cs_race_id char) None.

(** The key of a row the guild upsert returned. *)
Definition rec_key (g : GuildRec) : string :=
  composite_key (gr_name g) (gr_realm_slug g) (gr_region g).

(** * The OAuth flow and the static-data sync

    The two other handlers of the functions directory are embedded the same
    way as the profile handler, each with its own calls and responses. *)

(** ** Control flow over any kind of call and response *)

Section Flow.

Context {E R : Type}.

Inductive Step (A : Type) :=
| Went (a : A)
| Answered (r : R)
| Threw (msg : string).

(** A computation yields a step and the calls it made. *)
Definition Flow (A : Type) : Type := Step A * list E.

Definition pure {A} (a : A) : Flow A := (Went A a, []).
Definition request {A} (e : E) (answer : A) : Flow A := (Went A answer, [e]).
Definition answer {A} (r : R) : Flow A := (Answered A r, []).
Definition raise {A} (msg : string) : Flow A := (Threw A msg, []).

(** [await fetch(...)]: the call is made; a rejected promise throws. *)
Definition await {A} (e : E) (fetched : Fetched A) : Flow (FetchRes A) :=
  match fetched with
  | Resolved res => (Went _ res, [e])
  | Rejected reason => (Threw _ reason, [e])
  end.

(** Decoding and reading the body of an answer: the values, or the
    throw. *)
Definition decoded {A} (payload : Body A) : Flow A :=
  match payload with
  | Readable a => (Went _ a, [])
  | Unreadable reason => (Threw _ reason, [])
  end.

Definition and_then {A B} (m : Flow A) (k : A -> Flow B) : Flow B :=
  match m with
  | (Went _ a, t) => let '(s, t') := k a in (s, t ++ t')
  | (Answered _ r, t) => (Answered _ r, t)
  | (Threw _ msg, t) => (Threw _ msg, t)
  end.

(** [try { ... } catch (err) { return onError }] around a block in which
    every path returns or throws. *)
Definition try_catch (m : Flow Empty_set) (onError : string -> R) : R * list E :=
  match m with
  | (Answered _ r, t) => (r, t)
  | (Threw _ msg, t) => (onError msg, t)
  | (Went _ v, _) => match v with end
  end.

End Flow.

Arguments Step _ _ : clear implicits.
Arguments Flow _ _ _ : clear implicits.
Arguments Went {R A} _.
Arguments Answered {R A} _.
Arguments Threw {R A} _.

Notation "x <~ m ;; k" := (and_then m (fun x => k))
  (at level 100, m at next level, right associativity).

(** ** More of JavaScript's strings

    A string is a sequence of code units below 256. *)

(** [s.split(sep)] for a separator of one character: at least one piece. *)
Fixpoint split_on (sep : ascii) (s : string) : list string :=
  match s with
  | EmptyString => [EmptyString]
  | String c rest =>
      if Ascii.eqb c sep then EmptyString :: split_on sep rest
      else match split_on sep rest with
           | piece :: pieces => String c piece :: pieces
           | [] => [String c EmptyString]
           end
  end.

(** [pieces.join(sep)]. *)
Fixpoint join_with (sep : string) (pieces : list string) : string :=
  match pieces with
  | [] => EmptyString
  | [piece] => piece
  | piece :: rest => piece +:+ sep +:+ join_with sep rest
  end.

(** White space and line terminators among the code units below 256: tab,
    line feed, vertical tab, form feed, carriage return, space and the
    no-break space. *)
Definition is_js_space (c : ascii) : bool :=
  let n := nat_of_ascii c in
  ((9 <=? n) && (n <=? 13) || (n =? 32) || (n =? 160))%nat.

Fixpoint trim_start (s : string) : string :=
  match s with
  | EmptyString => EmptyString
  | String c rest => if is_js_space c then trim_start rest else s
  end.

Fixpoint trim_end (s : string) : string :=
  match s with
  | EmptyString => EmptyString
  | String c rest =>
      match trim_end rest with
      | EmptyString => if is_js_space c then EmptyString else String c EmptyString
      | kept => String c kept
      end
  end.

(** [s.trim()]. *)
Definition trim (s : string) : string := trim_end (trim_start s).

(** [s.charAt(i)]: the empty string out of range. *)
Definition charAt (s : string) (i : nat) : string :=
  match String.get i s with
  | Some c => String c EmptyString
  | None => EmptyString
  end.

Definition hex_digit (n : nat) : ascii :=
  match String.get n "0123456789ABCDEF" with
  | Some c => c
  | None => "0"%char
  end.

(** [%XX] for one byte. *)
Definition percent_byte (n : nat) : string :=
  String "%" (String (hex_digit (n / 16)) (String (hex_digit (n mod 16)) EmptyString)).

(** The characters [encodeURIComponent] leaves as they are: letters,
    digits and [- _ . ! ~ * ' ( )]. *)
Definition uri_unreserved (c : ascii) : bool :=
  let n := nat_of_ascii c in
  ((65 <=? n) && (n <=? 90) || (97 <=? n) && (n <=? 122)
   || (48 <=? n) && (n <=? 57)
   || (n =? 45) || (n =? 95) || (n =? 46) || (n =? 33) || (n =? 126)
   || (n =? 42) || (n =? 39) || (n =? 40) || (n =? 41))%nat.

(** [encodeURIComponent] of one code unit: itself, or the percent-encoded
    bytes of its UTF-8 form (one byte below 128, two bytes from 128 on). *)
Definition encode_unit (c : ascii) : string :=
  let n := nat_of_ascii c in
  if uri_unreserved c then String c EmptyString
  else if (n <? 128)%nat then percent_byte n
  else percent_byte (192 + n / 64) +:+ percent_byte (128 + n mod 64).

Fixpoint encodeURIComponent (s : string) : string :=
  match s with
  | EmptyString => EmptyString
  | String c rest => encode_unit c +:+ encodeURIComponent rest
  end.

Definition base64_digit (n : nat) : ascii :=
  match String.get n
          "ABCDEFGHIJKLMNOPQRSTUVWXYZabcdefghijklmnopqrstuvwxyz0123456789+/" with
  | Some c => c
  | None => "="%char
  end.

(** [btoa]: three code units give four digits; one or two left over are
    padded with [=]. *)
Fixpoint btoa (s : string) : string :=
  match s with
  | EmptyString => EmptyString
  | String a EmptyString =>
      let x := nat_of_ascii a in
      String (base64_digit (x / 4))
        (String (base64_digit (x mod 4 * 16)) "==")
  | String a (String b EmptyString) =>
      let x := nat_of_ascii a in
      let y := nat_of_ascii b in
      String (base64_digit (x / 4))
        (String (base64_digit (x mod 4 * 16 + y / 16))
           (String (base64_digit (y mod 16 * 4)) "="))
  | String a (String b (String c rest)) =>
      let x := nat_of_ascii a in
      let y := nat_of_ascii b in
      let z := nat_of_ascii c in
      String (base64_digit (x / 4))
        (String (base64_digit (x mod 4 * 16 + y / 16))
           (String (base64_digit (y mod 16 * 4 + z / 64))
              (String (base64_digit (z mod 64)) (btoa rest))))
  end.

(** ** The OAuth flow: [handleOAuthFlow] *)

Module OAuth.

(** [new Response(body, { status, headers })]; the status is 200 when none
    is given. *)
Record Response := mkResponse {
  status : Z;
  body : string;
  headers : list (string * string)
}.

(** The query parameters and the header the handler reads. *)
Record Request := mkRequest {
  code_param : option string;
  state_param : option string;
  error_param : option string;
  cookie_header : option string
}.

Record Env := mkEnv {
  clientId : string;
  clientSecret : string;
  redirectUri : string;
  supabaseUrl : string;
  serviceRoleKey : string
}.

(** The fields read from the token response.  The body of an ok answer is
    unreadable when [json()] rejects or the decoded value is [null]. *)
Record TokenData := mkTokenData {
  access_token : string;
  refresh_token : option string;
  expires_in : Z
}.

(** The fields read from the user-info response; its body is unreadable in
    the same cases. *)
Record UserInfo := mkUserInfo {
  battletag : string;
  id : Z
}.

(** The row of the [users] upsert.  [token_expires_at] is the instant, in
    milliseconds since the epoch, that [toISOString] renders. *)
Record UserRow := mkUserRow {
  row_battlenet_id : Z;
  row_battletag : string;
  row_access_token : string;
  row_refresh_token : option string;
  row_token_expires_at : Z
}.

(** The calls of the flow: the token exchange with its [Authorization]
    header and the entries of its form body, the user-info request with its
    [Authorization] header, and the upsert of the user row. *)
Inductive Call :=
| TokenExchange (authorization : string) (form : list (string * string))
| FetchUserInfo (authorization : string)
| UpsertUser (row : UserRow).

(** The answers of the collaborators.  [random_index i] is the value of
    [Math.floor(Math.random() * chars.length)] at the draw number [i];
    [now] is [Date.now()]. *)
Record World := mkWorld {
  random_index : nat -> nat;
  token_endpoint : string -> list (string * string) -> Fetched (Body TokenData);
  userinfo_endpoint : string -> Fetched (Body UserInfo);
  users_upsert : UserRow -> SbResult unit;
  now : Z
}.

Definition BLIZZARD_AUTH_URL : string := "https://oauth.battle.net/authorize".
Definition OAUTH_SCOPES : string := "openid wow.profile".

Definition state_chars : string :=
  "ABCDEFGHIJKLMNOPQRSTUVWXYZabcdefghijklmnopqrstuvwxyz0123456789".

(** The loop of [generateState], from the draw number [i] on. *)
Fixpoint generate_from (w : World) (i count : nat) (result : string) : string :=
  match count with
  | O => result
  | S count' =>
      generate_from w (S i) count' (result +:+ charAt state_chars (random_index w i))
  end.

Definition generateState (w : World) (length : nat) : string :=
  generate_from w 0 length EmptyString.

(** JavaScript truthiness of a [string | null]. *)
Definition given (p : option string) : bool :=
  match p with
  | Some s => negb (String.eqb s "")
  | None => false
  end.

(** One entry of the [Cookie] header: the name before the first [=] and
    everything after it. *)
Definition cookie_entry (c : string) : string * string :=
  match split_on "=" (trim c) with
  | name :: rest => (name, join_with "=" rest)
  | [] => (EmptyString, EmptyString)
  end.

(** [Object.fromEntries]: a later entry replaces an earlier one of the
    same name. *)
Definition fromEntries (entries : list (string * string)) : gmap string string :=
  fold_left (fun o entry => <[fst entry := snd entry]> o) entries ∅.

Definition parse_cookies (header : option string) : gmap string string :=
  fromEntries
    match header with
    | Some h => map cookie_entry (split_on ";" h)
    | None => []
    end.

Definition set_cookie (stateVal : string) : string :=
  "oauth_state=" +:+ stateVal +:+ "; HttpOnly; Path=/; Max-Age=300".

Definition authUrl (env : Env) (stateVal : string) : string :=
  BLIZZARD_AUTH_URL +:+ "?client_id=" +:+ encodeURIComponent (clientId env)
  +:+ "&response_type=code&redirect_uri=" +:+ encodeURIComponent (redirectUri env)
  +:+ "&scope=" +:+ encodeURIComponent OAUTH_SCOPES
  +:+ "&state=" +:+ stateVal.

Definition basic_authorization (env : Env) : string :=
  "Basic " +:+ btoa (clientId env +:+ ":" +:+ clientSecret env).

Definition token_form (env : Env) (code : string) : list (string * string) :=
  [("grant_type", "authorization_code"); ("code", code);
   ("redirect_uri", redirectUri env)].

(** The largest time value of a [Date]; [toISOString] throws beyond it. *)
Definition max_time_value : Z := 8640000000000000.

Definition responseHtml : string :=
  "<html><body><script>
      // Notify parent window or application of success
      window.close();
      </script>
      <p>Login successful! You can close this window.</p></body></html>".

Definition plain (status : Z) (body : string) : Response :=
  mkResponse status body [].

(** The body of the [try] block. *)
Definition flow (req : Request) (env : Env) (w : World)
  : Flow Call Response Empty_set :=
  if given (error_param req) then
    answer (plain 400 ("Authentication error: " +:+ default "" (error_param req)))
  else if negb (given (code_param req)) then
    let stateVal := generateState w 16 in
    answer (mkResponse 302 "Redirecting to Blizzard for authentication..."
              [("Set-Cookie", set_cookie stateVal);
               ("Location", authUrl env stateVal)])
  else
    let code := default "" (code_param req) in
    let cookies := parse_cookies (cookie_header req) in
    let storedState := cookies !! "oauth_state" in
    if negb (given (state_param req)) || negb (given storedState)
       || negb (bool_decide (state_param req = storedState))
    then answer (plain 400 "Invalid state parameter. Authentication aborted.")
    else
      tokenResponse <~
        await (TokenExchange (basic_authorization env) (token_form env code))
              (token_endpoint w (basic_authorization env) (token_form env code)) ;;
      if negb (res_ok tokenResponse) then
        answer (plain 500 "Failed to exchange authorization code for token.")
      else
        tokenData <~ decoded (res_json tokenResponse) ;;
        let bearer := "Bearer " +:+ access_token tokenData in
        userInfoResp <~ await (FetchUserInfo bearer) (userinfo_endpoint w bearer) ;;
        if negb (res_ok userInfoResp) then
          answer (plain 500 "Failed to retrieve user information.")
        else
          userInfo <~ decoded (res_json userInfoResp) ;;
          let expires := now w + expires_in tokenData * 1000 in
          if negb (Z.abs expires <=? max_time_value) then
            raise "RangeError: Invalid time value"
          else
            let row :=
              {| row_battlenet_id := id userInfo;
                 row_battletag := battletag userInfo;
                 row_access_token := access_token tokenData;
                 row_refresh_token :=
                   if given (refresh_token tokenData)
                   then refresh_token tokenData else None;
                 row_token_expires_at := expires |} in
            r <~ request (UpsertUser row) (users_upsert w row) ;;
            match error r with
            | Some _ => answer (plain 500 "Database error while saving user data.")
            | None =>
                answer (mkResponse 200 responseHtml [("Content-Type", "text/html")])
            end.

Definition handleOAuthFlow (req : Request) (env : Env) (w : World)
  : Response * list Call :=
  try_catch (flow req env w)
            (fun _ => plain 500 "Internal Server Error during OAuth process.").

End OAuth.

(** ** Names for the steps of the OAuth flow *)

(** The [oauth_state] cookie of a request. *)
Definition stored_state (req : OAuth.Request) : option string :=
  OAuth.parse_cookies (OAuth.cookie_header req) !! "oauth_state".

(** The state check lets the request through. *)
Definition passes_state_check (req : OAuth.Request) : bool :=
  OAuth.given (OAuth.state_param req) && OAuth.given (stored_state req)
  && bool_decide (OAuth.state_param req = stored_state req).

(** The token exchange of a request that carries a code. *)
Definition token_call (req : OAuth.Request) (env : OAuth.Env) : OAuth.Call :=
  OAuth.TokenExchange (OAuth.basic_authorization env)
    (OAuth.token_form env (default "" (OAuth.code_param req))).

Definition token_fetched (req : OAuth.Request) (env : OAuth.Env) (w : OAuth.World)
  : Fetched (Body OAuth.TokenData) :=
  OAuth.token_endpoint w (OAuth.basic_authorization env)
    (OAuth.token_form env (default "" (OAuth.code_param req))).

Definition bearer_of (tokenData : OAuth.TokenData) : string :=
  "Bearer " +:+ OAuth.access_token tokenData.

(** The row stored for a token response and a user-info response. *)
Definition user_row (w : OAuth.World) (tokenData : OAuth.TokenData)
    (userInfo : OAuth.UserInfo) : OAuth.UserRow :=
  {| OAuth.row_battlenet_id := OAuth.id userInfo;
     OAuth.row_battletag := OAuth.battletag userInfo;
     OAuth.row_access_token := OAuth.access_token tokenData;
     OAuth.row_refresh_token :=
       match OAuth.refresh_token tokenData with
       | Some t => if String.eqb t "" then None else Some t
       | None => None
       end;
     OAuth.row_token_expires_at := OAuth.now w + OAuth.expires_in tokenData * 1000 |}.

(** The expiry instant of a token response is a time value of a [Date]. *)
Definition expiry_in_range (w : OAuth.World) (tokenData : OAuth.TokenData) : bool :=
  Z.abs (OAuth.now w + OAuth.expires_in tokenData * 1000) <=? OAuth.max_time_value.

(** A string of letters and digits. *)
Definition is_alnum (c : ascii) : bool :=
  let n := nat_of_ascii c in
  ((65 <=? n) && (n <=? 90) || (97 <=? n) && (n <=? 122)
   || (48 <=? n) && (n <=? 57))%nat.

Fixpoint all_chars (p : ascii -> bool) (s : string) : bool :=
  match s with
  | EmptyString => true
  | String c rest => p c && all_chars p rest
  end.

(** The sample environment and worlds of the OAuth flow. *)
Definition ex_env : OAuth.Env :=
  OAuth.mkEnv "mock-client-id" "mock-client-secret" "http://localhost/oauth-flow"
              "http://localhost:54321" "dummy-service-key".

Definition ex_token : OAuth.TokenData :=
  OAuth.mkTokenData "mock-access-token" (Some "mock-refresh-token") 3600.

Definition ex_userinfo : OAuth.UserInfo := OAuth.mkUserInfo "TestUser#1234" 12345.

Definition oauth_world (token : Fetched (Body OAuth.TokenData))
    (userinfo : Fetched (Body OAuth.UserInfo)) (upsert : SbResult unit)
  : OAuth.World :=
  {| OAuth.random_index := fun i => (i * 7 mod 62)%nat;
     OAuth.token_endpoint := fun _ _ => token;
     OAuth.userinfo_endpoint := fun _ => userinfo;
     OAuth.users_upsert := fun _ => upsert;
     OAuth.now := 1745860000000 |}.

Definition ok_world : OAuth.World :=
  oauth_world (Resolved (mkFetch 200 (Readable ex_token)))
              (Resolved (mkFetch 200 (Readable ex_userinfo))) (mkSb None None).

(** The user-info request is answered with an ok status and a page that
    is not JSON. *)
Definition not_json_world : OAuth.World :=
  oauth_world (Resolved (mkFetch 200 (Readable ex_token)))
              (Resolved (mkFetch 200
                 (Unreadable "Unexpected token < in JSON at position 0")))
              (mkSb None None).

Definition callback_request : OAuth.Request :=
  OAuth.mkRequest (Some "mock-auth-code") (Some "mock-state-value") None
                  (Some "oauth_state=mock-state-value").

Fixpoint has_char (c : ascii) (s : string) : bool :=
  match s with
  | EmptyString => false
  | String c' rest => Ascii.eqb c' c || has_char c rest
  end.

(** ** [JSON.stringify] of the small objects the handlers answer with *)

Definition quote_char : ascii := ascii_of_nat 34.
Definition backslash_char : ascii := ascii_of_nat 92.

Definition escaped (c : ascii) : string :=
  String backslash_char (String c EmptyString).

(** One code unit inside a JSON string: the quote, the backslash and the
    control characters are escaped. *)
Definition json_escape_unit (c : ascii) : string :=
  let n := nat_of_ascii c in
  if (n =? 34)%nat then escaped quote_char
  else if (n =? 92)%nat then escaped backslash_char
  else if (n =? 8)%nat then escaped "b"
  else if (n =? 9)%nat then escaped "t"
  else if (n =? 10)%nat then escaped "n"
  else if (n =? 12)%nat then escaped "f"
  else if (n =? 13)%nat then escaped "r"
  else if (n <? 32)%nat then
    escaped "u" +:+ "00"
    +:+ String (lower_ascii (hex_digit (n / 16)))
          (String (lower_ascii (hex_digit (n mod 16))) EmptyString)
  else String c EmptyString.

Fixpoint json_escape (s : string) : string :=
  match s with
  | EmptyString => EmptyString
  | String c rest => json_escape_unit c +:+ json_escape rest
  end.

Definition json_string (s : string) : string :=
  String quote_char (json_escape s +:+ String quote_char EmptyString).

(** An object whose values are already rendered: the properties in their
    order, without white space. *)
Definition json_object (fields : list (string * string)) : string :=
  "{" +:+ join_with "," (map (fun f => json_string (fst f) +:+ ":" +:+ snd f) fields)
  +:+ "}".

(** ** The values of a decoded payload

    The static-data sync reads the payloads without checking their shape,
    so its model is written over any type of JavaScript values with the
    operations the handler uses. *)
Class JsValues (Value : Type) := {
  js_undefined : Value;
  js_null : Value;
  (** [undefined] or [null]: reading a property of it throws. *)
  js_nullish : Value -> bool;
  (** The condition of [||] and [? :]. *)
  js_truthy : Value -> bool;
  (** [v[p]] for a [v] that is not nullish. *)
  js_get : Value -> string -> Value;
  (** The elements of an array; nothing else has a [map] that can be
      called. *)
  js_items : Value -> option (list Value);
  (** [`${v}`]. *)
  js_text : Value -> string
}.

(** [res.json()]: the decoded body, or a rejection when the body is not
    JSON. *)
Inductive Parsed (Value : Type) :=
| Json (v : Value)
| NotJson (message : string).
Arguments Json {Value} _.
Arguments NotJson {Value} _.

Section JsReads.

Context {Value : Type} `{JsValues Value} {E R : Type}.

(** A computation that makes no call and does not answer: it yields a
    value or throws. *)
Definition computes {A} (m : Flow E R A) : Prop :=
  snd m = [] /\ forall r, fst m <> Answered r.

(** [v.p]. *)
Definition read (v : Value) (p : string) : Flow E R Value :=
  if js_nullish v then
    raise ("Cannot read properties of " +:+ js_text v
           +:+ " (reading '" +:+ p +:+ "')")
  else pure (js_get v p).

(** [v?.[p]]. *)
Definition read_optional (v : Value) (p : string) : Value :=
  if js_nullish v then js_undefined else js_get v p.

(** [a || b]. *)
Definition or_else (a b : Value) : Value := if js_truthy a then a else b.

(** [await res.json()]. *)
Definition json_of (res : FetchRes (Parsed Value)) : Flow E R Value :=
  match res_json res with
  | Json v => pure v
  | NotJson message => raise message
  end.

(** [array.map(f)], the callback applied from the first element on. *)
Fixpoint map_in_order {A B} (f : A -> Flow E R B) (l : list A) : Flow E R (list B) :=
  match l with
  | [] => pure []
  | a :: rest =>
      b <~ f a ;;
      bs <~ map_in_order f rest ;;
      pure (b :: bs)
  end.

(** [(data[prop] || []).map(f)], where [name] is the variable that holds
    the array. *)
Definition map_entries {B} (name : string) (data : Value) (prop : string)
    (f : Value -> Flow E R B) : Flow E R (list B) :=
  array <~ read data prop ;;
  if js_truthy array then
    match js_items array with
    | Some entries => map_in_order f entries
    | None => raise (name +:+ ".map is not a function")
    end
  else pure [].

End JsReads.

Module StaticData.

Record Response := mkResponse {
  status : Z;
  body : string;
  headers : list (string * string)
}.

Record SyncEnv := mkEnv {
  clientId : string;
  clientSecret : string;
  supabaseUrl : string;
  serviceRoleKey : string;
  apiRegion : string;
  locale : string
}.

(** The rows of the three upserts. *)
Record ClassRow (Value : Type) := mkClassRow { crow_id : Value; crow_name : Value }.
Record RaceRow (Value : Type) := mkRaceRow {
  rrow_id : Value;
  rrow_name : Value;
  rrow_faction : Value
}.
Record RealmRow (Value : Type) := mkRealmRow {
  lrow_id : Value;
  lrow_name : Value;
  lrow_slug : Value;
  lrow_region : string
}.
Arguments mkClassRow {Value} _ _.
Arguments crow_id {Value} _.
Arguments crow_name {Value} _.
Arguments mkRaceRow {Value} _ _ _.
Arguments rrow_id {Value} _.
Arguments rrow_name {Value} _.
Arguments rrow_faction {Value} _.
Arguments mkRealmRow {Value} _ _ _ _.
Arguments lrow_id {Value} _.
Arguments lrow_name {Value} _.
Arguments lrow_slug {Value} _.
Arguments lrow_region {Value} _.

Inductive Call (Value : Type) :=
| TokenRequest (authorization : string) (form : list (string * string))
| FetchIndex (url : string)
| UpsertClasses (rows : list (ClassRow Value))
| UpsertRaces (rows : list (RaceRow Value))
| UpsertRealms (rows : list (RealmRow Value)).
Arguments TokenRequest {Value} _ _.
Arguments FetchIndex {Value} _.
Arguments UpsertClasses {Value} _.
Arguments UpsertRaces {Value} _.
Arguments UpsertRealms {Value} _.

(** The answers of the remote service, by URL, and of the store. *)
Record World (Value : Type) := mkWorld {
  token_endpoint : string -> list (string * string) -> Fetched (Parsed Value);
  index_endpoint : string -> Fetched (Parsed Value);
  classes_upsert : list (ClassRow Value) -> SbResult unit;
  races_upsert : list (RaceRow Value) -> SbResult unit;
  realms_upsert : list (RealmRow Value) -> SbResult unit
}.
Arguments mkWorld {Value} _ _ _ _ _.
Arguments token_endpoint {Value} _ _ _.
Arguments index_endpoint {Value} _ _.
Arguments classes_upsert {Value} _ _.
Arguments races_upsert {Value} _ _.
Arguments realms_upsert {Value} _ _.

Section Handler.

Context {Value : Type} `{JsValues Value}.

Variable env : SyncEnv.
Variable w : World Value.

Definition Sync (A : Type) : Type := Flow (Call Value) Response A.

Definition API_BASE_URL : string := "https://" +:+ apiRegion env +:+ ".api.blizzard.com".
Definition NAMESPACE_STATIC : string := "static-" +:+ apiRegion env.
Definition NAMESPACE_DYNAMIC : string := "dynamic-" +:+ apiRegion env.
Definition LOCALE : string := locale env.

Definition index_url (path namespace appAccessToken : string) : string :=
  API_BASE_URL +:+ path +:+ "?namespace=" +:+ namespace
  +:+ "&locale=" +:+ LOCALE +:+ "&access_token=" +:+ appAccessToken.

Definition classesUrl : string -> string :=
  index_url "/data/wow/playable-class/index" NAMESPACE_STATIC.
Definition racesUrl : string -> string :=
  index_url "/data/wow/playable-race/index" NAMESPACE_STATIC.
Definition realmsUrl : string -> string :=
  index_url "/data/wow/realm/index" NAMESPACE_DYNAMIC.

Definition authorization : string :=
  "Basic " +:+ btoa (clientId env +:+ ":" +:+ clientSecret env).

Definition token_form : list (string * string) :=
  [("grant_type", "client_credentials")].

(** [x.name?.[LOCALE] || x.name || null]. *)
Definition localized_name (x : Value) : Sync Value :=
  name <~ read x "name" ;;
  pure (or_else (or_else (read_optional name LOCALE) name) js_null).

Definition class_row (cls : Value) : Sync (ClassRow Value) :=
  id <~ read cls "id" ;;
  name <~ localized_name cls ;;
  pure (mkClassRow id name).

Definition race_row (race : Value) : Sync (RaceRow Value) :=
  id <~ read race "id" ;;
  name <~ localized_name race ;;
  faction <~ read race "faction" ;;
  if js_truthy faction then
    faction_name <~ read faction "name" ;;
    pure (mkRaceRow id name (or_else (read_optional faction_name LOCALE) faction_name))
  else pure (mkRaceRow id name js_null).

Definition realm_row (realm : Value) : Sync (RealmRow Value) :=
  id <~ read realm "id" ;;
  name <~ localized_name realm ;;
  slug <~ read realm "slug" ;;
  pure (mkRealmRow id name slug (apiRegion env)).

Definition plain (status : Z) (body : string) : Response :=
  mkResponse status body [].

Definition json_response (status : Z) (body : string) : Response :=
  mkResponse status body [("Content-Type", "application/json")].

(** Steps 2 to 4 are the same code for the three indexes: fetch, answer
    502 when the status is not ok, decode, and map the entries under
    [what] to rows. *)
Definition fetch_rows {Row} (what url : string) (row : Value -> Sync Row) : Sync (list Row) :=
  res <~ await (FetchIndex url) (index_endpoint w url) ;;
  if negb (res_ok res) then
    answer (plain 502 ("Failed to fetch " +:+ what +:+ " data: "
                       +:+ pretty (res_status res)))
  else
    data <~ json_of res ;;
    map_entries (what +:+ "Array") data what row.

(** Step 1: the client-credentials token.  Reading the body of a refused
    answer as text, for the log, is taken to succeed. *)
Definition fetch_token : Sync string :=
  tokenRes <~ await (TokenRequest authorization token_form)
                    (token_endpoint w authorization token_form) ;;
  if negb (res_ok tokenRes) then
    answer (plain 500 ("Failed to obtain client token: "
                       +:+ pretty (res_status tokenRes)))
  else
    tokenData <~ json_of tokenRes ;;
    appAccessToken <~ read tokenData "access_token" ;;
    pure (js_text appAccessToken).

(** Step 5: the three upserts; the first error is thrown. *)
Definition upsert_all (classRows : list (ClassRow Value))
    (raceRows : list (RaceRow Value)) (realmRows : list (RealmRow Value)) : Sync unit :=
  classResult <~ request (UpsertClasses classRows) (classes_upsert w classRows) ;;
  match error classResult with
  | Some message => raise ("DB upsert error (classes): " +:+ message)
  | None =>
      raceResult <~ request (UpsertRaces raceRows) (races_upsert w raceRows) ;;
      match error raceResult with
      | Some message => raise ("DB upsert error (races): " +:+ message)
      | None =>
          realmResult <~ request (UpsertRealms realmRows) (realms_upsert w realmRows) ;;
          match error realmResult with
          | Some message => raise ("DB upsert error (realms): " +:+ message)
          | None => pure tt
          end
      end
  end.

Definition resultMsg (classes races realms : nat) : string :=
  "Static data sync complete. Classes: " +:+ pretty classes
  +:+ ", Races: " +:+ pretty races +:+ ", Realms: " +:+ pretty realms
  +:+ " updated.".

Definition success_body (classes races realms : nat) : string :=
  json_object [("message", json_string (resultMsg classes races realms));
               ("classes", pretty classes); ("races", pretty races);
               ("realms", pretty realms)].

Definition error_body (message : string) : string :=
  json_object [("error", json_string "Internal error during static data sync.");
               ("details", json_string message)].

(** The body of the [try] block. *)
Definition sync : Sync Empty_set :=
  appAccessToken <~ fetch_token ;;
  classRows <~ fetch_rows "classes" (classesUrl appAccessToken) class_row ;;
  raceRows <~ fetch_rows "races" (racesUrl appAccessToken) race_row ;;
  realmRows <~ fetch_rows "realms" (realmsUrl appAccessToken) realm_row ;;
  _ <~ upsert_all classRows raceRows realmRows ;;
  answer (json_response 200
            (success_body (List.length classRows) (List.length raceRows)
                          (List.length realmRows))).

Definition handleSyncStaticData : Response * list (Call Value) :=
  try_catch sync (fun message => json_response 500 (error_body message)).

End Handler.

Arguments Sync _ _ : clear implicits.

End StaticData.

(** *** Decoded JSON as an instance, for the sample runs *)

#[warnings="-register-all"] Inductive JsonValue :=
| JAbsent
| JNull
| JBool (b : bool)
| JNumber (n : Z)
| JString (s : string)
| JArray (items : list JsonValue)
| JObject (properties : list (string * JsonValue)).

(** The own properties of an object; the sample runs read no other. *)
Definition own_property (v : JsonValue) (p : string) : JsonValue :=
  match v with
  | JObject properties =>
      match List.find (fun entry => String.eqb (fst entry) p) properties with
      | Some entry => snd entry
      | None => JAbsent
      end
  | _ => JAbsent
  end.

(** [`${v}`]; an array renders its elements, [null] and [undefined] as
    nothing, with commas between them. *)
Fixpoint json_text (v : JsonValue) : string :=
  match v with
  | JAbsent => "undefined"
  | JNull => "null"
  | JBool b => if b then "true" else "false"
  | JNumber n => pretty n
  | JString s => s
  | JArray items =>
      join_with ","
        (map (fun item =>
                match item with
                | JAbsent | JNull => EmptyString
                | _ => json_text item
                end) items)
  | JObject _ => "[object Object]"
  end.

#[global] Instance json_values : JsValues JsonValue := {|
  js_undefined := JAbsent;
  js_null := JNull;
  js_nullish v := match v with JAbsent | JNull => true | _ => false end;
  js_truthy v :=
    match v with
    | JAbsent | JNull => false
    | JBool b => b
    | JNumber n => negb (n =? 0)
    | JString s => negb (String.eqb s "")
    | JArray _ | JObject _ => true
    end;
  js_get := own_property;
  js_items v := match v with JArray items => Some items | _ => None end;
  js_text := json_text
|}.

Definition static_env : StaticData.SyncEnv :=
  StaticData.mkEnv "client" "secret" "https://project.supabase.co" "service-key"
                   "eu" "en_GB".

Definition named (id : Z) (name : JsonValue) : list (string * JsonValue) :=
  [("id", JNumber id); ("name", name)].

Definition classes_payload : JsonValue :=
  JObject [("classes", JArray [JObject (named 1 (JObject [("en_GB", JString "Warrior")]));
                               JObject (named 2 (JString "Paladin"))])].

Definition races_payload : JsonValue :=
  JObject [("races",
            JArray [JObject (named 2 (JString "Orc")
                             ++ [("faction", JObject [("name", JString "Horde")])])])].

Definition realms_payload : JsonValue :=
  JObject [("realms",
            JArray [JObject (named 509 (JString "Garona") ++ [("slug", JString "garona")]);
                    JObject (named 510 (JString "Vol'jin") ++ [("slug", JString "voljin")]);
                    JObject (named 511 JAbsent ++ [("slug", JString "arak-arahm")])])].

Definition has_infix (needle s : string) : bool :=
  match String.index 0 needle s with Some _ => true | None => false end.

Definition static_index (url : string) : Fetched (Parsed JsonValue) :=
  if has_infix "playable-class" url then Resolved (mkFetch 200 (Json classes_payload))
  else if has_infix "playable-race" url then Resolved (mkFetch 200 (Json races_payload))
  else Resolved (mkFetch 200 (Json realms_payload)).

Definition static_world : StaticData.World JsonValue := {|
  StaticData.token_endpoint := fun _ _ =>
    Resolved (mkFetch 200 (Json (JObject [("access_token", JString "app-token")])));
  StaticData.index_endpoint := static_index;
  StaticData.classes_upsert := fun _ => mkSb (Some tt) None;
  StaticData.races_upsert := fun _ => mkSb (Some tt) None;
  StaticData.realms_upsert := fun _ => mkSb (Some tt) None
|}.

(** *** The run of the static-data sync, in terms of the answers *)

Section StaticRun.

Context {Value : Type} `{JsValues Value}.

Variable env : StaticData.SyncEnv.
Variable w : StaticData.World Value.

Definition is_store (call : StaticData.Call Value) : bool :=
  match call with
  | StaticData.UpsertClasses _ | StaticData.UpsertRaces _
  | StaticData.UpsertRealms _ => true
  | _ => false
  end.

Definition static_token_call : StaticData.Call Value :=
  StaticData.TokenRequest (StaticData.authorization env) StaticData.token_form.

(** A fetch that was answered with an ok status. *)
Definition fetched_ok (fetched : Fetched (Parsed Value)) : bool :=
  match fetched with
  | Resolved res => res_ok res
  | Rejected _ => false
  end.

(** The token the index URLs carry, when step 1 yields one. *)
Definition app_token : option string :=
  match StaticData.token_endpoint w (StaticData.authorization env)
                                  StaticData.token_form with
  | Resolved res =>
      if res_ok res then
        match res_json res with
        | Json tokenData =>
            if js_nullish tokenData then None
            else Some (js_text (js_get tokenData "access_token"))
        | NotJson _ => None
        end
      else None
  | Rejected _ => None
  end.

(** The three index requests of a run with the token [token]. *)
Definition index_calls (token : string) : list (StaticData.Call Value) :=
  [StaticData.FetchIndex (StaticData.classesUrl env token);
   StaticData.FetchIndex (StaticData.racesUrl env token);
   StaticData.FetchIndex (StaticData.realmsUrl env token)].

(** What the store answers to an upsert, and the table it goes to. *)
Definition upsert_error (call : StaticData.Call Value) : option string :=
  match call with
  | StaticData.UpsertClasses rows => error (StaticData.classes_upsert w rows)
  | StaticData.UpsertRaces rows => error (StaticData.races_upsert w rows)
  | StaticData.UpsertRealms rows => error (StaticData.realms_upsert w rows)
  | _ => None
  end.

Definition table_of (call : StaticData.Call Value) : string :=
  match call with
  | StaticData.UpsertClasses _ => "classes"
  | StaticData.UpsertRaces _ => "races"
  | StaticData.UpsertRealms _ => "realms"
  | _ => ""
  end.

(** The [name] column of the rows of an upsert. *)
Definition stored_names (call : StaticData.Call Value) : list Value :=
  match call with
  | StaticData.UpsertClasses rows => map StaticData.crow_name rows
  | StaticData.UpsertRaces rows => map StaticData.rrow_name rows
  | StaticData.UpsertRealms rows => map StaticData.lrow_name rows
  | _ => []
  end.

(** A stored name is a truthy value or [null]. *)
Definition name_or_null (n : Value) : Prop := js_truthy n = true \/ n = js_null.

End StaticRun.

(** The sample store refusing the races. *)
Definition refusing_races : StaticData.World JsonValue := {|
  StaticData.token_endpoint := StaticData.token_endpoint static_world;
  StaticData.index_endpoint := static_index;
  StaticData.classes_upsert := fun _ => mkSb (Some tt) None;
  StaticData.races_upsert := fun _ => mkSb None (Some "permission denied");
  StaticData.realms_upsert := fun _ => mkSb (Some tt) None
|}.

(** * Properties *)

(** ** The handler computes the closed form *)

Section RunFacts.

Variable REGION : string.
Variable LOCALE : string.
Variable w : World.

Lemma loop_failure_spec userData chars :
  bool_decide (is_Some (loop_failure REGION LOCALE w userData chars))
  = existsb (fun entry => match entry with
                          | Readable _ => false
                          | Unreadable _ => true
                          end) chars
    || existsb (fun char => bool_decide
                  (is_Some (detail_failure REGION LOCALE w userData char)))
               (characters_read chars).
Proof.
  induction chars as [|[char|reason] rest IH]; simpl; [done| |done].
  destruct (detail_failure REGION LOCALE w userData char) as [reason|] eqn:E.
  - assert (bool_decide (is_Some (Some reason)) = true) as ->
      by (apply bool_decide_eq_true_2; eauto).
    simpl. by rewrite orb_true_r.
  - rewrite IH.
    assert (bool_decide (is_Some (@None string)) = false) as ->
      by (apply bool_decide_eq_false_2; by intros [? ?]).
    done.
Qed.

Lemma fetched_upto_all userData chars :
  loop_failure REGION LOCALE w userData chars = None ->
  fetched_upto REGION LOCALE w userData chars = characters_read chars.
Proof.
  induction chars as [|[char|reason] rest IH]; simpl; [done| |done].
  destruct (detail_failure REGION LOCALE w userData char); [done|].
  intros H. by rewrite IH.
Qed.

(** What the loop pushes for one entry, after the fetch. *)
Lemma guild_row_of_cases userData char res :
  detail_res REGION LOCALE w userData char = Resolved res ->
  guild_row_of REGION res
  = match detail_failure REGION LOCALE w userData char with
    | Some reason => throw reason
    | None => ret (detail_guild_rows REGION LOCALE w userData char)
    end.
Proof.
  unfold guild_row_of, detail_failure, detail_guild_rows, reported_guild.
  intros ->. destruct (res_ok res); [|done].
  destruct (res_json res) as [charProfile|reason]; simpl; [|done].
  by destruct (guild charProfile).
Qed.

Lemma loop_passes userData :
  loop_throws REGION LOCALE w userData = false ->
  loop_failure REGION LOCALE w userData (account_entries REGION LOCALE w userData)
  = None
  /\ fetched_upto REGION LOCALE w userData (account_entries REGION LOCALE w userData)
     = roster REGION LOCALE w userData.
Proof.
  intros Hpass.
  assert (loop_failure REGION LOCALE w userData
            (account_entries REGION LOCALE w userData) = None) as Hnone.
  { pose proof (loop_failure_spec userData
                  (account_entries REGION LOCALE w userData)) as Hspec.
    revert Hpass Hspec.
    unfold loop_throws, roster_unreadable, detail_fails, roster, account_entries.
    destruct (account_fetched REGION LOCALE w userData) as [res|]; [|done].
    destruct (res_json res) as [accountProfile|]; [|done].
    intros ->. destruct (loop_failure _ _ _ _ _) as [reason|]; [|done].
    intros Hspec. apply bool_decide_eq_false_1 in Hspec. destruct Hspec. eauto. }
  split; [done|]. by apply fetched_upto_all.
Qed.

Lemma collect_acc userData chars : forall charRows guildRows,
  collect REGION LOCALE w userData chars charRows guildRows
  = (match loop_failure REGION LOCALE w userData chars with
     | Some reason => Throw reason
     | None => Value (charRows ++ char_rows_of REGION userData (characters_read chars),
                      guildRows ++ guild_rows_of REGION LOCALE w userData
                                     (characters_read chars))
     end,
     map (detail_event REGION LOCALE userData)
         (fetched_upto REGION LOCALE w userData chars)).
Proof.
  induction chars as [|[char|reason] rest IH]; intros charRows guildRows; simpl.
  - unfold ret. by rewrite !app_nil_r.
  - pose proof (guild_row_of_cases userData char) as Hpush.
    unfold detail_failure in *. unfold detail_res in *.
    destruct (fetch_character w _ _) as [res|reason]; simpl; [|done].
    rewrite (Hpush res eq_refl). clear Hpush.
    destruct (if res_ok res then _ else _) as [reason|] eqn:E; simpl; [done|].
    rewrite IH. unfold detail_event. simpl.
    destruct (loop_failure REGION LOCALE w userData rest); [done|].
    by rewrite <- !app_assoc.
  - done.
Qed.

Lemma collect_closed userData chars :
  collect REGION LOCALE w userData chars [] []
  = (match loop_failure REGION LOCALE w userData chars with
     | Some reason => Throw reason
     | None => Value (char_rows_of REGION userData (characters_read chars),
                      guild_rows_of REGION LOCALE w userData (characters_read chars))
     end,
     map (detail_event REGION LOCALE userData)
         (fetched_upto REGION LOCALE w userData chars)).
Proof. by rewrite collect_acc. Qed.

Lemma bind_ret {A B} (a : A) (k : A -> Run B) : bind (ret a) k = k a.
Proof. unfold bind, ret. by destruct (k a). Qed.

Lemma summary_matches_cases c g ac :
  if may_match c g ac
  then summary_matches c g ac = ret true
       \/ exists msg, summary_matches c g ac = throw msg
  else summary_matches c g ac = ret false.
Proof.
  unfold summary_matches, may_match.
  destruct (String.eqb (cs_name ac) (c_name c)
            && String.eqb (cs_realm_slug ac) (c_realm_slug c)); simpl; [|done].
  destruct (cs_guild ac) as [sg|]; simpl; [|done].
  destruct (String.eqb (sg_name sg) (g_name g)); simpl; [|done].
  destruct (sg_realm_slug sg) as [slug|reason]; simpl; [|right; by eexists].
  destruct (String.eqb slug (g_realm_slug g)); [by left|done].
Qed.

(** The inner [find] makes no call: it finds an entry or throws when the
    predicate holds or throws for some entry, and finds nothing otherwise. *)
Lemma find_summary_cases c g allCharacters :
  if existsb (may_match c g) allCharacters
  then (exists ac, find_run (summary_matches c g) allCharacters = ret (Some ac))
       \/ (exists msg, find_run (summary_matches c g) allCharacters = throw msg)
  else find_run (summary_matches c g) allCharacters = ret None.
Proof.
  induction allCharacters as [|ac rest IH]; [done|].
  cbn [find_run existsb].
  pose proof (summary_matches_cases c g ac) as Hhead.
  destruct (may_match c g ac); cbn [orb].
  - destruct Hhead as [->|[msg ->]].
    + rewrite bind_ret. left. by eexists.
    + right. by eexists.
  - rewrite Hhead, bind_ret. exact IH.
Qed.

Lemma find_character_guild_cases allCharacters guildRows c :
  if link_finds allCharacters guildRows c
  then (exists g, find_character_guild allCharacters guildRows c = ret (Some g))
       \/ (exists msg, find_character_guild allCharacters guildRows c = throw msg)
  else find_character_guild allCharacters guildRows c = ret None.
Proof.
  unfold link_finds, find_character_guild.
  induction guildRows as [|g rest IH]; [done|].
  cbn [find_run existsb].
  pose proof (find_summary_cases c g allCharacters) as Hinner.
  destruct (existsb (may_match c g) allCharacters); cbn [orb].
  - destruct Hinner as [[ac ->]|[msg ->]].
    + rewrite !bind_ret. left. by eexists.
    + right. by eexists.
  - rewrite Hinner, !bind_ret. exact IH.
Qed.

(** The linking loop makes no call; it either throws or sets every
    [guild_id] to [null]. *)
Lemma link_one_cases allCharacters guildRows m c :
  if link_finds allCharacters guildRows c
  then exists msg, link_one allCharacters guildRows m c = throw msg
  else link_one allCharacters guildRows m c = ret (set_guild_id c None).
Proof.
  unfold link_one.
  pose proof (find_character_guild_cases allCharacters guildRows c) as H.
  destruct (link_finds allCharacters guildRows c).
  - destruct H as [[g ->]|[msg ->]]; [rewrite bind_ret|]; by eexists.
  - by rewrite H, bind_ret.
Qed.

Lemma link_closed allCharacters guildRows m charRows :
  if existsb (link_finds allCharacters guildRows) charRows
  then exists msg, link allCharacters guildRows m charRows = throw msg
  else link allCharacters guildRows m charRows
       = ret (map (fun c => set_guild_id c None) charRows).
Proof.
  unfold link. induction charRows as [|c rest IH]; [done|].
  cbn [for_each_map existsb map].
  pose proof (link_one_cases allCharacters guildRows m c) as H.
  destruct (link_finds allCharacters guildRows c); cbn [orb].
  - destruct H as [msg ->]. by eexists.
  - rewrite H, bind_ret. destruct (existsb _ rest).
    + destruct IH as [msg ->]. by eexists.
    + by rewrite IH, !bind_ret.
Qed.

Lemma for_each_calls {A} (skip : A -> bool) (ev : A -> Effect) xs :
  for_each xs (fun x => if skip x then ret tt else call (ev x) tt)
  = (Value tt, map ev (List.filter (fun x => negb (skip x)) xs)).
Proof.
  induction xs as [|x rest IH]; simpl; [done|].
  rewrite IH. by destruct (skip x).
Qed.

Lemma cleanup_closed userData allCharacters :
  cleanup REGION w userData allCharacters
  = (Value tt,
     EvSelectCharacters (u_id userData)
     :: map (delete_event userData)
          (orphans REGION allCharacters
             (default [] (data (characters_by_user w (u_id userData)))))).
Proof.
  unfold cleanup, call, bind.
  destruct (data (characters_by_user w (u_id userData))) as [rows|]; simpl.
  - by rewrite (for_each_calls
                  (fun char => bool_decide
                     (stored_key char ∈ currentCharKeys REGION allCharacters))
                  (delete_event userData)).
  - done.
Qed.

Lemma upsert_guilds_cases guildRows :
  (guild_failed w guildRows = true /\
   exists msg, upsert_guilds w guildRows = (Throw msg, guild_events guildRows))
  \/ (guild_failed w guildRows = false /\
      exists m, upsert_guilds w guildRows = (Value m, guild_events guildRows)).
Proof.
  destruct guildRows as [|g rest]; [right; split; [done | by eexists]|].
  unfold upsert_guilds, guild_failed, guild_events, call, bind.
  destruct (error (guilds_upsert w (guildsToUpsert (g :: rest)))) as [msg|].
  - left. split; [done | by eexists].
  - right. split; [done | by eexists].
Qed.

Lemma sync_closed userData :
  catch (sync REGION LOCALE w userData)
  = (sync_response REGION LOCALE w userData, sync_trace REGION LOCALE w userData).
Proof.
  unfold sync, sync_response, sync_trace, link_throws, char_failed,
    cleanup_events, run_charRows, run_guildRows, loop_throws, detail_fails,
    roster_unreadable, roster, account_entries, account_ok, account_fetched.
  destruct (fetch_account w _ _) as [acc|reason]; [|done].
  unfold await_fetch at 1. unfold bind at 1.
  destruct (res_ok acc) eqn:Hok; simpl negb; cbv iota.
  2:{ by destruct (res_status acc =? 401). }
  destruct (res_json acc) as [accountProfile|reason]; [|done].
  unfold read_body, bind at 1. cbv beta iota.
  set (entries := all_characters accountProfile).
  rewrite collect_closed. unfold bind at 1.
  rewrite <- (loop_failure_spec userData entries).
  destruct (loop_failure REGION LOCALE w userData entries) as [reason|] eqn:Hloop.
  { rewrite bool_decide_eq_true_2 by eauto. simpl. by rewrite app_nil_r. }
  rewrite bool_decide_eq_false_2 by (by intros [? ?]).
  rewrite (fetched_upto_all _ _ Hloop).
  set (chars := characters_read entries).
  set (guildRows := guild_rows_of REGION LOCALE w userData chars).
  destruct (upsert_guilds_cases guildRows)
    as [[Hg [msg ->]] | [Hg [m ->]]]; rewrite Hg.
  { simpl. by rewrite app_nil_r. }
  unfold bind at 1.
  pose proof (link_closed chars guildRows m (char_rows_of REGION userData chars))
    as Hlink.
  destruct (existsb _ _) eqn:Hl.
  { destruct Hlink as [msg ->]. simpl. by rewrite !app_nil_r. }
  rewrite Hlink.
  unfold ret, call, bind at 1. cbv beta iota.
  set (linked := map _ (char_rows_of REGION userData chars)).
  unfold bind at 1.
  destruct (error (characters_upsert w linked)) as [msg|]; simpl.
  { done. }
  rewrite cleanup_closed. simpl. by rewrite app_nil_r.
Qed.

Lemma handler_closed req :
  handler REGION LOCALE w req
  = if missing_params req
    then (mkResponse 400 "Missing user identifier (user_id or battlenet_id)", [])
    else match found_user w req with
         | Some userData =>
             (sync_response REGION LOCALE w userData,
              EvSelectUser (user_filter req)
              :: sync_trace REGION LOCALE w userData)
         | None =>
             (mkResponse 404 "User not found in database.",
              [EvSelectUser (user_filter req)])
         end.
Proof.
  unfold handler, missing_params.
  destruct (negb _ && negb _); [done|].
  unfold try_block, found_user. fold (user_filter req).
  unfold call, bind at 1.
  destruct (error (users_single w (user_filter req))) as [msg|]; [done|].
  destruct (data (users_single w (user_filter req))) as [userData|]; [|done].
  pose proof (sync_closed userData) as H.
  destruct (sync REGION LOCALE w userData) as [[v|r|msg] t]; [destruct v| |];
    simpl in *; by inversion H.
Qed.

(** ** Reading the list of calls *)

Lemma handler_trace_inv req e :
  In e (snd (handler REGION LOCALE w req)) ->
  missing_params req = false
  /\ (e = EvSelectUser (user_filter req)
      \/ exists userData,
           found_user w req = Some userData
           /\ In e (sync_trace REGION LOCALE w userData)).
Proof.
  rewrite handler_closed.
  destruct (missing_params req); [intros []|].
  destruct (found_user w req) as [userData|]; simpl; intros [<-|H]; eauto.
  destruct H.
Qed.

Lemma handler_found req userData :
  missing_params req = false ->
  found_user w req = Some userData ->
  handler REGION LOCALE w req
  = (sync_response REGION LOCALE w userData,
     EvSelectUser (user_filter req) :: sync_trace REGION LOCALE w userData).
Proof. intros Hm Hu. by rewrite handler_closed, Hm, Hu. Qed.

Lemma not_in_detail_events userData chars e :
  In e (map (detail_event REGION LOCALE userData) chars) ->
  exists url bearer, e = EvFetchCharacter url bearer.
Proof.
  rewrite in_map_iff. intros (char & <- & _). unfold detail_event. eauto.
Qed.

Lemma in_guild_events guildRows e :
  In e (guild_events guildRows) ->
  guildRows <> [] /\ e = EvUpsertGuilds (guildsToUpsert guildRows).
Proof.
  destruct guildRows as [|g rest]; simpl; [intros []|].
  intros [<-|[]]. by split.
Qed.

Lemma in_cleanup_events userData e :
  In e (cleanup_events REGION LOCALE w userData) ->
  e = EvSelectCharacters (u_id userData)
  \/ exists char,
       In char (orphans REGION (roster REGION LOCALE w userData)
                  (default [] (data (characters_by_user w (u_id userData)))))
       /\ e = delete_event userData char.
Proof.
  unfold cleanup_events. simpl. rewrite in_map_iff.
  intros [<-|(char & <- & Hin)]; eauto.
Qed.

(** Where a call can sit in the calls of [sync], phase by phase. *)
Lemma sync_trace_inv userData e :
  In e (sync_trace REGION LOCALE w userData) ->
  e = EvFetchAccount (account_url REGION LOCALE) (u_access_token userData)
  \/ (account_ok REGION LOCALE w userData = true
      /\ (In e (map (detail_event REGION LOCALE userData)
                    (fetched_upto REGION LOCALE w userData
                                  (account_entries REGION LOCALE w userData)))
          \/ (loop_throws REGION LOCALE w userData = false
              /\ (In e (guild_events (run_guildRows REGION LOCALE w userData))
                  \/ (guild_failed w (run_guildRows REGION LOCALE w userData) = false
                      /\ link_throws REGION LOCALE w userData = false
                      /\ (e = EvUpsertCharacters (run_charRows REGION LOCALE w userData)
                          \/ (char_failed REGION LOCALE w userData = false
                              /\ In e (cleanup_events REGION LOCALE w userData)))))))).
Proof.
  unfold sync_trace. simpl. intros [<-|H]; [by left|right].
  destruct (account_ok REGION LOCALE w userData); simpl in H; [|destruct H].
  split; [done|].
  rewrite in_app_iff in H. destruct H as [H|H]; [by left | right].
  destruct (loop_throws REGION LOCALE w userData); simpl in H; [destruct H|].
  split; [done|].
  rewrite in_app_iff in H. destruct H as [H|H]; [by left | right].
  destruct (guild_failed w (run_guildRows REGION LOCALE w userData));
    simpl in H; [destruct H|].
  destruct (link_throws REGION LOCALE w userData); simpl in H; [destruct H|].
  do 2 (split; [done|]).
  destruct H as [<-|H]; [by left|right].
  destruct (char_failed REGION LOCALE w userData); [destruct H | by split].
Qed.

End RunFacts.

(** ** The guild batch *)

Lemma obj_set_in {V} key (v : V) o k x :
  In (k, x) (obj_set key v o) -> (k = key /\ x = v) \/ In (k, x) o.
Proof.
  induction o as [|[k0 x0] o IH]; simpl.
  - intros [[= <- <-]|[]]. by left.
  - destruct (String.eqb k0 key) eqn:E; simpl.
    + apply String.eqb_eq in E as ->.
      intros [[= <- <-]|H]; [by left | right; by right].
    + intros [[= <- <-]|H]; [right; by left|].
      destruct (IH H) as [?|?]; [by left | right; by right].
Qed.

Lemma obj_set_keys {V} key (v : V) o k :
  In k (map fst (obj_set key v o)) <-> k = key \/ In k (map fst o).
Proof.
  induction o as [|[k0 x0] o IH]; simpl.
  - split; [intros [<-|[]]; by left | intros [->|[]]; by left].
  - destruct (String.eqb k0 key) eqn:E; simpl.
    + apply String.eqb_eq in E as ->. intuition congruence.
    + rewrite IH. intuition congruence.
Qed.

Lemma obj_set_nodup {V} key (v : V) o :
  List.NoDup (map fst o) -> List.NoDup (map fst (obj_set key v o)).
Proof.
  induction o as [|[k0 x0] o IH]; simpl; intros Hnd.
  - repeat constructor. intros [].
  - inversion_clear Hnd as [|? ? Hnotin Hrest].
    destruct (String.eqb k0 key) eqn:E; simpl.
    + by constructor.
    + apply String.eqb_neq in E. constructor; [|by apply IH].
      rewrite obj_set_keys. intuition congruence.
Qed.

(** Folding [obj_set] over the rows, from any object built the same way. *)
Lemma unique_fold_inv guildRows : forall o,
  List.NoDup (map fst o) ->
  (forall k g, In (k, g) o -> guild_key g = k) ->
  let o' := fold_left (fun o g => obj_set (guild_key g) g o) guildRows o in
  List.NoDup (map fst o')
  /\ (forall k g, In (k, g) o' ->
        guild_key g = k /\ (In g guildRows \/ In (k, g) o))
  /\ (forall k, In k (map fst o) \/ In k (map guild_key guildRows) ->
        In k (map fst o')).
Proof.
  induction guildRows as [|g rest IH]; intros o Hnd Hkey; simpl.
  - split_and!; [done | intros k g H; split; [by apply Hkey | by right] |].
    by intros k [?|[]].
  - specialize (IH (obj_set (guild_key g) g o) (obj_set_nodup _ _ _ Hnd)).
    destruct IH as (Hn & Hv & Hk).
    { intros k x H. destruct (obj_set_in _ _ _ _ _ H) as [[-> ->]|H']; [done|].
      by apply Hkey. }
    split_and!; [done | |].
    + intros k x H. destruct (Hv k x H) as [Hx [Hin|Hin]].
      * split; [done | left; by right].
      * split; [done|].
        destruct (obj_set_in _ _ _ _ _ Hin) as [[-> ->]|H']; [left; by left | by right].
    + intros k H. apply Hk. rewrite obj_set_keys. simpl in H. intuition congruence.
Qed.

(** [guildsToUpsert]: one row per key, every row taken from [guildRows],
    every key of [guildRows] present. *)
Lemma guildsToUpsert_spec guildRows :
  List.NoDup (map guild_key (guildsToUpsert guildRows))
  /\ (forall g, In g (guildsToUpsert guildRows) -> In g guildRows)
  /\ (forall g, In g guildRows ->
        exists g', In g' (guildsToUpsert guildRows) /\ guild_key g' = guild_key g).
Proof.
  destruct (unique_fold_inv guildRows []) as (Hn & Hv & Hk);
    [constructor | intros ? ? [] |].
  fold (uniqueGuilds guildRows) in Hn, Hv, Hk.
  assert (Hkeys : map guild_key (guildsToUpsert guildRows)
                  = map fst (uniqueGuilds guildRows)).
  { unfold guildsToUpsert. rewrite map_map. apply map_ext_in.
    intros [k g] Hin. simpl. by apply Hv. }
  split_and!.
  - by rewrite Hkeys.
  - unfold guildsToUpsert. intros g Hg.
    apply in_map_iff in Hg as ([k g'] & <- & Hin).
    destruct (Hv _ _ Hin) as [_ [?|[]]]. done.
  - intros g Hg.
    assert (In (guild_key g) (map fst (uniqueGuilds guildRows))) as Hin.
    { apply Hk. right. by apply in_map. }
    apply in_map_iff in Hin as ([k g'] & Hfst & Hin). simpl in Hfst. subst k.
    exists g'. split; [|by apply (Hv _ _ Hin)].
    unfold guildsToUpsert. apply in_map_iff. by exists (guild_key g, g').
Qed.

(** Splits a hypothesis [In e (sync_trace ...)] into the phases the call
    can belong to, and discards the phases whose calls have another shape. *)
Ltac trace_cases H :=
  let Hok := fresh "Hok" in
  let Hr := fresh "Hfetched" in
  let Hg := fresh "Hguild" in
  let Hl := fresh "Hlink" in
  let Hc := fresh "Hchar" in
  apply sync_trace_inv in H
    as [H | (Hok & [H | (Hr & [H | (Hg & Hl & [H | (Hc & H)])])])];
  [ try discriminate H
  | apply not_in_detail_events in H as (? & ? & H); try discriminate H
  | apply in_guild_events in H as (? & H); try discriminate H
  | try discriminate H
  | apply in_cleanup_events in H as [H | (? & ? & H)];
    [ try discriminate H | unfold delete_event in H; try discriminate H ] ].

(** ** Request validation *)

(** C9: a request that carries neither [user_id] nor [battlenet_id] is
    answered with status 400, and the handler has made no call by then: the
    list of calls is empty, so the record store was neither read nor written
    and the remote service was not contacted. *)
Theorem missing_identifier_is_rejected REGION LOCALE w req :
  user_id_param req = None ->
  battlenet_id_param req = None ->
  handler REGION LOCALE w req
  = (mkResponse 400 "Missing user identifier (user_id or battlenet_id)", []).
Proof.
  intros Hu Hb. unfold handler. by rewrite Hu, Hb.
Qed.

Lemma missing_identifier_is_rejected_witness :
  handler "us" "en_US"
    (make_world (account_of 200 [thrall]) (fun _ _ => guildless)
                assign_ids accept_chars [])
    (mkRequest None None)
  = (mkResponse 400 "Missing user identifier (user_id or battlenet_id)", []).
Proof. apply missing_identifier_is_rejected; reflexivity. Defined.

(** ** Failure of the roster fetch *)

(** C5: in a run whose account-summary fetch is answered with status 401,
    the response is the 401 "token expired or invalid" response and that
    fetch is the last call of the run: the calls are the user lookup and the
    fetch, so no guild upsert, character upsert or delete has been issued. *)
Theorem unauthorized_roster_fetch_writes_nothing REGION LOCALE w req url bearer res :
  In (EvFetchAccount url bearer) (snd (handler REGION LOCALE w req)) ->
  fetch_account w url bearer = Resolved res ->
  res_status res = 401 ->
  fst (handler REGION LOCALE w req)
  = mkResponse 401 "Access token expired or invalid."
  /\ snd (handler REGION LOCALE w req)
     = [EvSelectUser (user_filter req); EvFetchAccount url bearer]
  /\ Forall (fun e => is_write e = false) (snd (handler REGION LOCALE w req)).
Proof.
  intros Hin Hres H401.
  apply handler_trace_inv in Hin as [Hm [Hin | (userData & Hu & Hin)]];
    [discriminate Hin|].
  trace_cases Hin. injection Hin as -> ->.
  rewrite (handler_found _ _ _ _ _ Hm Hu).
  unfold sync_response, sync_trace, account_ok, account_fetched, res_ok.
  rewrite Hres, H401. simpl.
  split_and!; [done | done | by repeat constructor].
Qed.

Lemma unauthorized_roster_fetch_writes_nothing_witness :
  let w := make_world (account_of 401 []) (fun _ _ => guildless)
                      assign_ids accept_chars
                      [mkStoredChar "Thrall" "icecrown" "us"] in
  fst (handler "us" "en_US" w ex_request)
  = mkResponse 401 "Access token expired or invalid."
  /\ snd (handler "us" "en_US" w ex_request)
     = [EvSelectUser (FilterId "u1");
        EvFetchAccount (account_url "us" "en_US") "tok"]
  /\ Forall (fun e => is_write e = false) (snd (handler "us" "en_US" w ex_request)).
Proof.
  apply (unauthorized_roster_fetch_writes_nothing "us" "en_US" _ ex_request
           (account_url "us" "en_US") "tok"
           (mkFetch 401
              (Readable (mkAccountProfile (Some [mkWowAccount (Some [])]))))).
  - vm_compute. tauto.
  - reflexivity.
  - reflexivity.
Defined.

(** ** Failure of the guild batch *)

(** C2: in a run whose guild upsert is answered with an error, the response
    is the 500 "failed to sync" response the [catch] block produces, and no
    character upsert is among the calls of the run, so no character is
    written after the failed batch. *)
Theorem failed_guild_upsert_stops_the_run REGION LOCALE w req rows :
  In (EvUpsertGuilds rows) (snd (handler REGION LOCALE w req)) ->
  is_Some (error (guilds_upsert w rows)) ->
  fst (handler REGION LOCALE w req) = sync_error
  /\ Forall (fun e => forall batch, e <> EvUpsertCharacters batch)
            (snd (handler REGION LOCALE w req)).
Proof.
  intros Hin Herr.
  apply handler_trace_inv in Hin as [Hm [Hin | (userData & Hu & Hin)]];
    [discriminate Hin|].
  trace_cases Hin. injection Hin as ->.
  assert (guild_failed w (run_guildRows REGION LOCALE w userData) = true) as Hf.
  { unfold guild_failed.
    destruct (run_guildRows REGION LOCALE w userData); [done|].
    by apply bool_decide_eq_true_2. }
  rewrite (handler_found _ _ _ _ _ Hm Hu).
  unfold sync_response, sync_trace. unfold account_ok in Hok.
  unfold account_ok. destruct (account_fetched REGION LOCALE w userData); [|done].
  rewrite Hok, Hfetched, Hf. simpl.
  split; [done|].
  constructor; [done|]. constructor; [done|].
  rewrite app_nil_r. apply Forall_app. split.
  - apply Forall_forall. intros e He%list_elem_of_In batch.
    apply not_in_detail_events in He as (? & ? & ->). done.
  - apply Forall_forall. intros e He%list_elem_of_In batch.
    apply in_guild_events in He as (_ & ->). done.
Qed.

Lemma failed_guild_upsert_stops_the_run_witness :
  let w := make_world (account_of 200 [thrall])
                      (fun _ _ => in_guild "Horde Vanguard" "icecrown")
                      (fun _ => mkSb None (Some "connection lost"))
                      accept_chars [] in
  fst (handler "us" "en_US" w ex_request) = sync_error
  /\ Forall (fun e => forall batch, e <> EvUpsertCharacters batch)
            (snd (handler "us" "en_US" w ex_request)).
Proof.
  apply (failed_guild_upsert_stops_the_run "us" "en_US" _ ex_request
           [mkGuildRow "Horde Vanguard" "icecrown" "us"]).
  - vm_compute. tauto.
  - by eexists.
Defined.

(** ** The region of the rows *)

Lemma guild_rows_region REGION LOCALE w userData chars g :
  In g (guild_rows_of REGION LOCALE w userData chars) -> g_region g = REGION.
Proof.
  unfold guild_rows_of. rewrite in_flat_map. intros (char & _ & Hg).
  unfold detail_guild_rows in Hg.
  destruct (detail_res _ _ _ _ _) as [res|reason]; [|destruct Hg].
  destruct (reported_guild res); [|destruct Hg].
  by destruct Hg as [<-|[]].
Qed.

Lemma run_charRows_in REGION LOCALE w userData c :
  In c (run_charRows REGION LOCALE w userData) <->
  exists char, In char (roster REGION LOCALE w userData)
               /\ c = set_guild_id (char_row_of userData REGION char) None.
Proof.
  unfold run_charRows, char_rows_of. rewrite map_map, in_map_iff.
  split; intros (char & H1 & H2); exists char; by split.
Qed.

Lemma currentCharKeys_in REGION chars k :
  k ∈ currentCharKeys REGION chars <->
  exists char, In char chars
               /\ k = composite_key (cs_name char) (cs_realm_slug char) REGION.
Proof.
  unfold currentCharKeys. rewrite elem_of_list_to_set, list_elem_of_In, in_map_iff.
  split; intros (char & H1 & H2); exists char; by split.
Qed.

(** ** Linking characters to guilds *)

(** Whatever the world answers, a character upsert carries [null] as the
    guild of every row: the linking loop either throws or finds nothing. *)
Lemma character_batch_has_no_guild REGION LOCALE w req rows c :
  In (EvUpsertCharacters rows) (snd (handler REGION LOCALE w req)) ->
  In c rows -> c_guild_id c = None.
Proof.
  intros Hin Hc.
  apply handler_trace_inv in Hin as [Hm [Hin | (userData & Hu & Hin)]];
    [discriminate Hin|].
  trace_cases Hin. injection Hin as ->.
  apply run_charRows_in in Hc as (char & _ & ->). done.
Qed.

(** C1, at a roster of one character whose own profile reports the guild
    Horde Vanguard: the guild is upserted and the store answers with its id,
    yet the character is upserted with a [null] guild, because the linking
    loop looks for a [guild] on the account-summary entry, which has none.
    When the account summary does carry that guild, the loop finds a guild
    row, reads [guild.name] of that row and throws: the run ends with the
    500 response and without a character upsert. *)
Theorem linking_does_not_use_the_detail_fetch :
  let detail := fun _ _ => in_guild "Horde Vanguard" "icecrown" in
  let w := make_world (account_of 200 [thrall]) detail assign_ids accept_chars [] in
  let thrall' :=
    mkCharSummary "Thrall" "icecrown" 7 2 60
                  (Some (mkSummaryGuild "Horde Vanguard" (Readable "icecrown"))) in
  let w' := make_world (account_of 200 [thrall']) detail assign_ids accept_chars [] in
  data (guilds_upsert w [horde_vanguard])
  = Some [mkGuildRec "id:Horde Vanguard|icecrown|us" "Horde Vanguard" "icecrown" "us"]
  /\ handler "us" "en_US" w ex_request
     = (mkResponse 200 "Profile sync completed for user Thrall#1234. Characters updated: 1",
        [EvSelectUser (FilterId "u1");
         EvFetchAccount (account_url "us" "en_US") "tok";
         EvFetchCharacter thrall_url "tok";
         EvUpsertGuilds [horde_vanguard];
         EvUpsertCharacters [mkCharRow "Thrall" "icecrown" "us" "u1" 60 7 2 None];
         EvSelectCharacters "u1"])
  /\ handler "us" "en_US" w' ex_request
     = (sync_error,
        [EvSelectUser (FilterId "u1");
         EvFetchAccount (account_url "us" "en_US") "tok";
         EvFetchCharacter thrall_url "tok";
         EvUpsertGuilds [horde_vanguard]]).
Proof. vm_compute. done. Qed.

(** C4, at a roster of two characters whose profiles both report the guild
    Alpha of area52: one guild row is upserted for the two reports, and both
    characters are upserted with a [null] guild instead of the id the store
    returned for Alpha. *)
Theorem shared_guild_is_upserted_once_but_not_linked :
  let w := make_world (account_of 200 [thrall; jaina])
                      (fun _ _ => in_guild "Alpha" "area52")
                      assign_ids accept_chars [] in
  guildsToUpsert [alpha; alpha] = [alpha]
  /\ data (guilds_upsert w [alpha])
     = Some [mkGuildRec "id:Alpha|area52|us" "Alpha" "area52" "us"]
  /\ handler "us" "en_US" w ex_request
     = (mkResponse 200 "Profile sync completed for user Thrall#1234. Characters updated: 2",
        [EvSelectUser (FilterId "u1");
         EvFetchAccount (account_url "us" "en_US") "tok";
         EvFetchCharacter thrall_url "tok";
         EvFetchCharacter jaina_url "tok";
         EvUpsertGuilds [alpha];
         EvUpsertCharacters
           [mkCharRow "Thrall" "icecrown" "us" "u1" 60 7 2 None;
            mkCharRow "Jaina" "area52" "us" "u1" 70 8 1 None];
         EvSelectCharacters "u1"]).
Proof. vm_compute. done. Qed.

(** ** Characters without a guild *)

Lemma handler_success REGION LOCALE w req userData :
  missing_params req = false ->
  found_user w req = Some userData ->
  account_ok REGION LOCALE w userData = true ->
  loop_throws REGION LOCALE w userData = false ->
  guild_failed w (run_guildRows REGION LOCALE w userData) = false ->
  link_throws REGION LOCALE w userData = false ->
  char_failed REGION LOCALE w userData = false ->
  handler REGION LOCALE w req
  = (mkResponse 200 (success_body userData (run_charRows REGION LOCALE w userData)),
     EvSelectUser (user_filter req)
     :: EvFetchAccount (account_url REGION LOCALE) (u_access_token userData)
     :: map (detail_event REGION LOCALE userData) (roster REGION LOCALE w userData)
     ++ guild_events (run_guildRows REGION LOCALE w userData)
     ++ EvUpsertCharacters (run_charRows REGION LOCALE w userData)
     :: cleanup_events REGION LOCALE w userData).
Proof.
  intros Hm Hu Hok Hr Hg Hl Hc. rewrite (handler_found _ _ _ _ _ Hm Hu).
  unfold sync_response, sync_trace. rewrite Hok, Hr, Hg, Hl, Hc.
  rewrite (proj2 (loop_passes _ _ _ _ Hr)).
  unfold account_ok in Hok.
  destruct (account_fetched REGION LOCALE w userData); [|done].
  by rewrite Hok.
Qed.

(** A profile answer that reports no guild: a non-ok status, or an ok
    status with a body that can be read and has no guild. *)
Lemma no_guild_reported REGION LOCALE w userData char res :
  detail_res REGION LOCALE w userData char = Resolved res ->
  (res_ok res = false
   \/ exists charProfile,
        res_json res = Readable charProfile /\ guild charProfile = None) ->
  detail_guild_rows REGION LOCALE w userData char = []
  /\ detail_failure REGION LOCALE w userData char = None.
Proof.
  unfold detail_guild_rows, detail_failure, reported_guild. intros ->.
  intros [-> | (charProfile & -> & Hnone)]; [done|].
  rewrite Hnone. by destruct (res_ok res).
Qed.

(** C6, as the handler does it: for a roster character whose profile fetch
    is answered with a non-ok status, or with an ok status and a profile
    that has no guild, the run goes on.  The character adds nothing to the
    guild rows, which are those of the roster without it, and its profile
    does not end the run; a character upsert issued by the run contains the
    character's row with a [null] guild; and the run ends with the 200
    response, after the profile fetch of every roster entry and the
    character upsert, unless the run is left by a throw before the guild
    upsert (the body or an entry of the account summary cannot be read, a
    profile fetch is rejected, or a profile answered with an ok status has
    a body that cannot be read), the guild upsert fails, the linking loop
    throws or the character upsert fails. *)
Theorem failed_detail_fetch_keeps_the_character
    REGION LOCALE w req userData char res :
  missing_params req = false ->
  found_user w req = Some userData ->
  account_ok REGION LOCALE w userData = true ->
  In char (roster REGION LOCALE w userData) ->
  detail_res REGION LOCALE w userData char = Resolved res ->
  (res_ok res = false
   \/ exists charProfile,
        res_json res = Readable charProfile /\ guild charProfile = None) ->
  ((forall before after,
      roster REGION LOCALE w userData = before ++ char :: after ->
      run_guildRows REGION LOCALE w userData
      = guild_rows_of REGION LOCALE w userData (before ++ after))
   /\ detail_failure REGION LOCALE w userData char = None)
  /\ (forall rows,
        In (EvUpsertCharacters rows) (snd (handler REGION LOCALE w req)) ->
        In (set_guild_id (char_row_of userData REGION char) None) rows)
  /\ (status (fst (handler REGION LOCALE w req)) = 200
      <-> roster_unreadable REGION LOCALE w userData = false
          /\ (forall other, In other (roster REGION LOCALE w userData) ->
                detail_failure REGION LOCALE w userData other = None)
          /\ guild_failed w (run_guildRows REGION LOCALE w userData) = false
          /\ link_throws REGION LOCALE w userData = false
          /\ char_failed REGION LOCALE w userData = false)
  /\ (status (fst (handler REGION LOCALE w req)) = 200 ->
      In (EvUpsertCharacters (run_charRows REGION LOCALE w userData))
         (snd (handler REGION LOCALE w req))
      /\ forall other, In other (roster REGION LOCALE w userData) ->
           In (detail_event REGION LOCALE userData other)
              (snd (handler REGION LOCALE w req))).
Proof.
  intros Hm Hu Hok Hin Hres Hnone.
  destruct (no_guild_reported _ _ _ _ _ _ Hres Hnone) as [Hrows Hgoes].
  assert (status (fst (handler REGION LOCALE w req)) = 200
          <-> loop_throws REGION LOCALE w userData = false
              /\ guild_failed w (run_guildRows REGION LOCALE w userData) = false
              /\ link_throws REGION LOCALE w userData = false
              /\ char_failed REGION LOCALE w userData = false) as Hiff.
  { rewrite (handler_found _ _ _ _ _ Hm Hu). unfold sync_response. simpl.
    unfold account_ok in Hok.
    destruct (account_fetched REGION LOCALE w userData) as [acc|]; [|done].
    rewrite Hok. simpl.
    destruct (loop_throws REGION LOCALE w userData); simpl; [by split; [|intros [? _]]|].
    destruct (guild_failed w _); simpl; [by split; [|intros (_ & ? & _)]|].
    destruct (link_throws REGION LOCALE w userData); simpl;
      [by split; [|intros (_ & _ & ? & _)]|].
    destruct (char_failed REGION LOCALE w userData); simpl;
      [by split; [|intros (_ & _ & _ & ?)]|].
    done. }
  assert (loop_throws REGION LOCALE w userData = false
          <-> roster_unreadable REGION LOCALE w userData = false
              /\ forall other, In other (roster REGION LOCALE w userData) ->
                   detail_failure REGION LOCALE w userData other = None) as Hloop.
  { unfold loop_throws, detail_fails. rewrite orb_false_iff.
    split; intros [Hread Hall]; (split; [done|]).
    - intros other Hother.
      destruct (detail_failure REGION LOCALE w userData other) as [reason|] eqn:E;
        [|done].
      assert (existsb (fun char => bool_decide
                         (is_Some (detail_failure REGION LOCALE w userData char)))
                      (roster REGION LOCALE w userData) = true) as Hex.
      { apply existsb_exists. exists other. split; [done|].
        rewrite E. apply bool_decide_eq_true_2. eauto. }
      by rewrite Hex in Hall.
    - destruct (existsb _ _) eqn:Hex; [|done].
      apply existsb_exists in Hex as (other & Hother & Hsome).
      apply bool_decide_eq_true_1 in Hsome as [reason Hsome].
      by rewrite (Hall other Hother) in Hsome. }
  split_and!.
  - intros before after Hr. unfold run_guildRows. rewrite Hr.
    unfold guild_rows_of. rewrite !flat_map_app. simpl. by rewrite Hrows.
  - done.
  - intros rows Hrows'. rewrite (handler_found _ _ _ _ _ Hm Hu) in Hrows'.
    simpl in Hrows'. destruct Hrows' as [Hrows'|Hrows']; [discriminate Hrows'|].
    trace_cases Hrows'. injection Hrows' as ->.
    apply run_charRows_in. by exists char.
  - rewrite Hiff, Hloop. tauto.
  - intros (Hr & Hg & Hl & Hc)%Hiff.
    rewrite (handler_success _ _ _ _ _ Hm Hu Hok Hr Hg Hl Hc). simpl.
    split.
    + right. right. rewrite !in_app_iff. right. right. by left.
    + intros other Hother. right. right. rewrite in_app_iff. left.
      by apply in_map.
Qed.

Lemma failed_detail_fetch_keeps_the_character_witness :
  let w := make_world (account_of 200 [thrall; jaina])
             (fun url _ => if String.eqb url thrall_url then not_found
                           else in_guild "Alpha" "area52")
             assign_ids accept_chars [] in
  run_guildRows "us" "en_US" w ex_user = [alpha]
  /\ In (EvUpsertCharacters
           [mkCharRow "Thrall" "icecrown" "us" "u1" 60 7 2 None;
            mkCharRow "Jaina" "area52" "us" "u1" 70 8 1 None])
        (snd (handler "us" "en_US" w ex_request))
  /\ status (fst (handler "us" "en_US" w ex_request)) = 200.
Proof.
  intros w.
  destruct (failed_detail_fetch_keeps_the_character "us" "en_US" w ex_request
              ex_user thrall
              (mkFetch 404 (Unreadable "Unexpected token N in JSON at position 0")))
    as ((Hrows & _) & _ & _ & _);
    [reflexivity | reflexivity | reflexivity | by left | reflexivity | by left |].
  split_and!; [apply (Hrows [] [jaina]); reflexivity | | reflexivity].
  vm_compute. tauto.
Defined.

(** C6 as stated fails when the profile fetch fails by rejection: the
    [await] throws, the [catch] block answers with the 500 response, and the
    run stops there, before the profile of the next character is fetched
    and without a character upsert.  The same happens when the fetch is
    answered with an ok status and a body that [json()] cannot decode. *)
Lemma rejected_detail_fetch_aborts_the_run :
  let w := make_world (account_of 200 [thrall; jaina])
             (fun url _ => if String.eqb url thrall_url
                           then Rejected "connection refused"
                           else in_guild "Alpha" "area52")
             assign_ids accept_chars [] in
  let w' := make_world (account_of 200 [thrall; jaina])
              (fun url _ => if String.eqb url thrall_url
                            then Resolved (mkFetch 200
                                   (Unreadable "Unexpected end of JSON input"))
                            else in_guild "Alpha" "area52")
              assign_ids accept_chars [] in
  roster "us" "en_US" w ex_user = [thrall; jaina]
  /\ detail_res "us" "en_US" w ex_user thrall = Rejected "connection refused"
  /\ handler "us" "en_US" w ex_request
     = (sync_error,
        [EvSelectUser (FilterId "u1");
         EvFetchAccount (account_url "us" "en_US") "tok";
         EvFetchCharacter thrall_url "tok"])
  /\ handler "us" "en_US" w' ex_request
     = (sync_error,
        [EvSelectUser (FilterId "u1");
         EvFetchAccount (account_url "us" "en_US") "tok";
         EvFetchCharacter thrall_url "tok"]).
Proof. vm_compute. done. Qed.

(** ** Composite keys and natural keys *)

Lemma append_bar_inj a : forall a' x x',
  no_bar a = true -> no_bar a' = true ->
  a +:+ "|" +:+ x = a' +:+ "|" +:+ x' -> a = a' /\ x = x'.
Proof.
  induction a as [|c a IH]; intros [|c' a'] x x' Ha Ha' Heq; simpl in *.
  - by injection Heq.
  - injection Heq as <- _. by rewrite Ascii.eqb_refl in Ha'.
  - injection Heq as -> _. by rewrite Ascii.eqb_refl in Ha.
  - injection Heq as -> Heq.
    apply andb_true_iff in Ha as [_ Ha]. apply andb_true_iff in Ha' as [_ Ha'].
    destruct (IH a' x x' Ha Ha' Heq) as [-> ->]. done.
Qed.

(** Two composite keys whose names and realm slugs are free of [|] are
    equal exactly when their three components are. *)
Lemma composite_key_inj n r g n' r' g' :
  no_bar n = true -> no_bar r = true ->
  no_bar n' = true -> no_bar r' = true ->
  composite_key n r g = composite_key n' r' g' ->
  n = n' /\ r = r' /\ g = g'.
Proof.
  unfold composite_key. intros Hn Hr Hn' Hr' Heq.
  apply append_bar_inj in Heq as [-> Heq]; [|done..].
  apply append_bar_inj in Heq as [-> ->]; done.
Qed.

(** ** Cleanup *)

Lemma orphans_in REGION chars existing char :
  In char (orphans REGION chars existing) <->
  In char existing /\ stored_key char ∉ currentCharKeys REGION chars.
Proof.
  unfold orphans. rewrite filter_In, negb_true_iff, bool_decide_eq_false. done.
Qed.

Lemma sync_response_200 REGION LOCALE w userData :
  status (sync_response REGION LOCALE w userData) = 200 ->
  account_ok REGION LOCALE w userData = true
  /\ loop_throws REGION LOCALE w userData = false
  /\ guild_failed w (run_guildRows REGION LOCALE w userData) = false
  /\ link_throws REGION LOCALE w userData = false
  /\ char_failed REGION LOCALE w userData = false.
Proof.
  unfold sync_response, account_ok.
  destruct (account_fetched REGION LOCALE w userData) as [res|reason]; [|done].
  destruct (res_ok res); simpl.
  2:{ by destruct (_ =? 401). }
  destruct (loop_throws _ _ _ _); [done|].
  destruct (guild_failed _ _); [done|].
  destruct (link_throws _ _ _ _); [done|].
  by destruct (char_failed _ _ _ _).
Qed.

(** The deletes of a run that ends with the 200 response are the deletes of
    the stored rows whose key is not a roster key. *)
Lemma deletes_of_a_completed_run REGION LOCALE w req userData existing :
  missing_params req = false ->
  found_user w req = Some userData ->
  status (fst (handler REGION LOCALE w req)) = 200 ->
  data (characters_by_user w (u_id userData)) = Some existing ->
  forall uid name realm region,
    In (EvDeleteCharacter uid name realm region) (snd (handler REGION LOCALE w req))
    <-> uid = u_id userData
        /\ In (mkStoredChar name realm region) existing
        /\ composite_key name realm region
           ∉ currentCharKeys REGION (roster REGION LOCALE w userData).
Proof.
  intros Hm Hu H200 Hdata uid name realm region.
  rewrite (handler_found _ _ _ _ _ Hm Hu) in H200 |- *. simpl in H200.
  split.
  - simpl. intros [H|H]; [discriminate H|].
    trace_cases H. injection H as -> -> -> ->.
    rewrite Hdata in H0. simpl in H0. apply orphans_in in H0 as [Hin Hkey].
    by destruct x.
  - intros (-> & Hin & Hkey).
    apply sync_response_200 in H200 as (Hok & Hr & Hg & Hl & Hc).
    simpl. right. unfold sync_trace. rewrite Hok, Hr, Hg, Hl, Hc. simpl. right.
    rewrite !in_app_iff. right. right. right.
    unfold cleanup_events. right. rewrite Hdata. simpl.
    apply in_map_iff. exists (mkStoredChar name realm region).
    split; [done|]. by apply orphans_in.
Qed.

Lemma natural_key_gives_key REGION chars char :
  natural_key_in_roster REGION chars char ->
  stored_key char ∈ currentCharKeys REGION chars.
Proof.
  intros (c & Hc & [= Hn Hr Hg]). apply currentCharKeys_in. exists c.
  split; [done|]. unfold stored_key. by rewrite Hn, Hr, Hg.
Qed.

Lemma key_gives_natural_key REGION chars char :
  roster_no_bar chars ->
  no_bar (sc_name char) = true -> no_bar (sc_realm_slug char) = true ->
  stored_key char ∈ currentCharKeys REGION chars ->
  natural_key_in_roster REGION chars char.
Proof.
  intros Hroster Hn Hr (c & Hc & Hkey)%currentCharKeys_in.
  destruct (Hroster c Hc) as [Hcn Hcr].
  unfold stored_key in Hkey.
  apply composite_key_inj in Hkey as (Hn' & Hr' & Hg'); [|done..].
  exists c. split; [done|]. by rewrite Hn', Hr', Hg'.
Qed.

(** C10: every row of a guild upsert and every row of a character upsert of
    a run carries the configured region, whatever the account summary says
    about its characters; and the cleanup compares the stored rows with the
    roster keys built with that same region.  No delete of a run targets a
    row whose key string [name|realm_slug|region] is the name and the realm
    slug of a roster entry followed by the configured region, and in a run
    that reaches its end every row the store lists for the user whose key
    string is no such roster key is deleted. *)
Theorem rows_carry_the_configured_region REGION LOCALE w req :
  Forall (fun e =>
            match e with
            | EvUpsertGuilds rows => Forall (fun g => g_region g = REGION) rows
            | EvUpsertCharacters rows => Forall (fun c => c_region c = REGION) rows
            | EvDeleteCharacter _ name realm_slug region =>
                exists userData,
                  found_user w req = Some userData
                  /\ ~ exists char,
                         In char (roster REGION LOCALE w userData)
                         /\ composite_key name realm_slug region
                            = composite_key (cs_name char) (cs_realm_slug char)
                                            REGION
            | _ => True
            end)
         (snd (handler REGION LOCALE w req))
  /\ forall userData existing char,
       missing_params req = false ->
       found_user w req = Some userData ->
       status (fst (handler REGION LOCALE w req)) = 200 ->
       data (characters_by_user w (u_id userData)) = Some existing ->
       In char existing ->
       (~ exists c, In c (roster REGION LOCALE w userData)
                    /\ composite_key (sc_name char) (sc_realm_slug char)
                                     (sc_region char)
                       = composite_key (cs_name c) (cs_realm_slug c) REGION) ->
       In (EvDeleteCharacter (u_id userData) (sc_name char) (sc_realm_slug char)
                             (sc_region char))
          (snd (handler REGION LOCALE w req)).
Proof.
  split.
  - apply Forall_forall. intros e He%list_elem_of_In.
    apply handler_trace_inv in He as [Hm [-> | (userData & Hu & Hin)]]; [done|].
    trace_cases Hin; subst e; try done.
    + apply Forall_forall. intros g Hg%list_elem_of_In.
      apply (proj1 (proj2 (guildsToUpsert_spec _))) in Hg.
      by apply guild_rows_region in Hg.
    + apply Forall_forall. intros c Hc%list_elem_of_In.
      apply run_charRows_in in Hc as (char & _ & ->). done.
    + exists userData. split; [done|].
      match goal with
      | Hx : In ?x (orphans _ _ _) |- _ =>
          apply orphans_in in Hx as [_ Hkey]; intros Hex; apply Hkey;
          apply currentCharKeys_in; unfold stored_key; exact Hex
      end.
  - intros userData existing char Hm Hu H200 Hdata Hin Hkey.
    apply (deletes_of_a_completed_run _ _ _ _ _ _ Hm Hu H200 Hdata).
    split; [done|]. split; [by destruct char|].
    intros Hex%currentCharKeys_in. by apply Hkey.
Qed.

Lemma rows_carry_the_configured_region_witness :
  let w := make_world (account_of 200 [thrall])
                      (fun _ _ => in_guild "Alpha" "area52")
                      assign_ids accept_chars
                      [mkStoredChar "Thrall" "icecrown" "us"; orgrim] in
  In (EvUpsertGuilds [alpha]) (snd (handler "us" "en_US" w ex_request))
  /\ In (EvDeleteCharacter "u1" "Orgrim" "icecrown" "us")
        (snd (handler "us" "en_US" w ex_request))
  /\ ~ In (EvDeleteCharacter "u1" "Thrall" "icecrown" "us")
          (snd (handler "us" "en_US" w ex_request)).
Proof.
  intros w.
  destruct (rows_carry_the_configured_region "us" "en_US" w ex_request)
    as [Hall Hdel].
  split_and!.
  - vm_compute. tauto.
  - apply (Hdel ex_user [mkStoredChar "Thrall" "icecrown" "us"; orgrim] orgrim);
      [reflexivity | reflexivity | reflexivity | reflexivity | right; by left |].
    intros (c & [<-|[]] & Heq). discriminate Heq.
  - intros Hin%list_elem_of_In.
    apply (proj1 (Forall_forall _ _) Hall) in Hin as (userData & _ & Hno).
    apply Hno. exists thrall. split; [|reflexivity].
    vm_compute. by left.
Defined.

(** What the cleanup does: in a run that reaches its end (the 200
    response), every row the store lists as owned by the reconciling user
    whose key string [name|realm_slug|region] is not a key string of the
    roster gets a delete by owner, name, realm slug and region; when the
    names and realm slugs of the roster and of the row are free of [|],
    that is every listed row whose natural key is absent from the roster;
    and every delete of the run carries the reconciling user's id as owner
    and targets a listed row whose key string is absent from the roster, so
    no row of another owner is deleted. *)
Lemma orphans_are_deleted_by_key REGION LOCALE w req userData existing :
  missing_params req = false ->
  found_user w req = Some userData ->
  status (fst (handler REGION LOCALE w req)) = 200 ->
  data (characters_by_user w (u_id userData)) = Some existing ->
  (forall char, In char existing ->
     stored_key char ∉ currentCharKeys REGION (roster REGION LOCALE w userData) ->
     In (EvDeleteCharacter (u_id userData) (sc_name char) (sc_realm_slug char)
                           (sc_region char))
        (snd (handler REGION LOCALE w req)))
  /\ (forall char, In char existing ->
        roster_no_bar (roster REGION LOCALE w userData) ->
        no_bar (sc_name char) = true -> no_bar (sc_realm_slug char) = true ->
        ~ natural_key_in_roster REGION (roster REGION LOCALE w userData) char ->
        In (EvDeleteCharacter (u_id userData) (sc_name char) (sc_realm_slug char)
                              (sc_region char))
           (snd (handler REGION LOCALE w req)))
  /\ (forall uid name realm region,
        In (EvDeleteCharacter uid name realm region)
           (snd (handler REGION LOCALE w req)) ->
        uid = u_id userData
        /\ In (mkStoredChar name realm region) existing
        /\ composite_key name realm region
           ∉ currentCharKeys REGION (roster REGION LOCALE w userData)).
Proof.
  intros Hm Hu H200 Hdata.
  pose proof (deletes_of_a_completed_run _ _ _ _ _ _ Hm Hu H200 Hdata) as Hdel.
  assert (forall char, In char existing ->
            stored_key char ∉ currentCharKeys REGION (roster REGION LOCALE w userData) ->
            In (EvDeleteCharacter (u_id userData) (sc_name char)
                  (sc_realm_slug char) (sc_region char))
               (snd (handler REGION LOCALE w req))) as Hkey.
  { intros [n r g] Hin Habsent. apply Hdel. by split_and!. }
  split_and!.
  - exact Hkey.
  - intros char Hin Hroster Hn Hr Habsent. apply Hkey; [done|].
    intros Hk. apply Habsent. by apply key_gives_natural_key.
  - intros uid name realm region Hin. by apply Hdel.
Qed.

(** C3, at a roster whose one character is [a] of realm [b|c], with the
    store listing the user's character [a|b] of realm [c]: the natural key
    of the stored row is not in the roster, yet both render to the key
    string [a|b|c|us], the cleanup takes the stored row for a roster
    character, and the run ends with the 200 response without a delete. *)
Theorem absent_natural_key_is_not_deleted :
  let w := make_world (account_of 200 [mkCharSummary "a" "b|c" 1 1 10 None])
                      (fun _ _ => guildless) assign_ids accept_chars
                      [mkStoredChar "a|b" "c" "us"] in
  roster "us" "en_US" w ex_user = [mkCharSummary "a" "b|c" 1 1 10 None]
  /\ data (characters_by_user w "u1") = Some [mkStoredChar "a|b" "c" "us"]
  /\ ~ natural_key_in_roster "us" (roster "us" "en_US" w ex_user)
         (mkStoredChar "a|b" "c" "us")
  /\ composite_key "a|b" "c" "us" = composite_key "a" "b|c" "us"
  /\ handler "us" "en_US" w ex_request
     = (mkResponse 200 "Profile sync completed for user Thrall#1234. Characters updated: 1",
        [EvSelectUser (FilterId "u1");
         EvFetchAccount (account_url "us" "en_US") "tok";
         EvFetchCharacter (character_url "en_US" "us" "b|c" "a") "tok";
         EvUpsertCharacters [mkCharRow "a" "b|c" "us" "u1" 10 1 1 None];
         EvSelectCharacters "u1"]).
Proof.
  split_and!; [done | done | | done | by vm_compute].
  intros (c & [<-|[]] & Heq). discriminate Heq.
Qed.

(** ** Casing of names *)




(** ** The empty roster *)

(** C7, as the handler does it: in a run whose account summary is fetched
    with an ok status, can be read and lists no character, no guild upsert
    is issued; the character upsert is issued, with an empty batch;
    and when the store answers that upsert without an error the run ends
    with the 200 response reporting 0 characters, after a delete for every
    row the store lists as owned by the user. *)
Theorem empty_roster_run REGION LOCALE w req userData :
  missing_params req = false ->
  found_user w req = Some userData ->
  account_ok REGION LOCALE w userData = true ->
  roster_unreadable REGION LOCALE w userData = false ->
  roster REGION LOCALE w userData = [] ->
  Forall (fun e => match e with
                   | EvUpsertGuilds _ => False
                   | EvUpsertCharacters rows => rows = []
                   | _ => True
                   end)
         (snd (handler REGION LOCALE w req))
  /\ In (EvUpsertCharacters []) (snd (handler REGION LOCALE w req))
  /\ (error (characters_upsert w []) = None ->
      fst (handler REGION LOCALE w req)
      = mkResponse 200 ("Profile sync completed for user "
                        +:+ u_battletag userData +:+ ". Characters updated: 0")
      /\ forall existing char,
           data (characters_by_user w (u_id userData)) = Some existing ->
           In char existing ->
           In (EvDeleteCharacter (u_id userData) (sc_name char)
                                 (sc_realm_slug char) (sc_region char))
              (snd (handler REGION LOCALE w req))).
Proof.
  intros Hm Hu Hok Hread Hroster.
  assert (run_guildRows REGION LOCALE w userData = []) as Hg.
  { unfold run_guildRows. by rewrite Hroster. }
  assert (run_charRows REGION LOCALE w userData = []) as Hc.
  { unfold run_charRows. by rewrite Hroster. }
  assert (link_throws REGION LOCALE w userData = false) as Hl.
  { unfold link_throws. by rewrite Hroster. }
  assert (guild_failed w (run_guildRows REGION LOCALE w userData) = false) as Hgf.
  { by rewrite Hg. }
  assert (loop_throws REGION LOCALE w userData = false) as Hr.
  { unfold loop_throws, detail_fails. by rewrite Hread, Hroster. }
  rewrite (handler_found _ _ _ _ _ Hm Hu).
  unfold sync_response, sync_trace, success_body.
  rewrite (proj2 (loop_passes _ _ _ _ Hr)).
  unfold account_ok in Hok.
  unfold account_ok. destruct (account_fetched REGION LOCALE w userData); [|done].
  rewrite Hok, Hr, Hgf, Hl, Hg, Hroster, Hc. simpl.
  split_and!.
  - repeat (constructor; [done|]).
    destruct (char_failed REGION LOCALE w userData); [constructor|].
    unfold cleanup_events. constructor; [done|].
    apply Forall_forall. intros e He%list_elem_of_In.
    apply in_map_iff in He as (char & <- & _). done.
  - right. right. by left.
  - intros Hnoerr.
    assert (char_failed REGION LOCALE w userData = false) as Hcf.
    { unfold char_failed. rewrite Hc, Hnoerr. done. }
    rewrite Hcf. split; [done|].
    intros existing char Hdata Hin. do 3 right.
    unfold cleanup_events. rewrite Hdata, Hroster. simpl. right.
    apply in_map_iff. exists char. split; [done|].
    apply orphans_in. split; [done|]. unfold currentCharKeys. simpl.
    apply not_elem_of_empty.
Qed.

Lemma empty_roster_run_witness :
  let w := make_world (account_of 200 []) (fun _ _ => guildless)
                      assign_ids accept_chars three_stored in
  fst (handler "us" "en_US" w ex_request)
  = mkResponse 200 "Profile sync completed for user Thrall#1234. Characters updated: 0"
  /\ In (EvUpsertCharacters []) (snd (handler "us" "en_US" w ex_request))
  /\ Forall (fun char =>
               In (EvDeleteCharacter "u1" (sc_name char) (sc_realm_slug char)
                                     (sc_region char))
                  (snd (handler "us" "en_US" w ex_request)))
            three_stored.
Proof.
  intros w.
  destruct (empty_roster_run "us" "en_US" w ex_request ex_user)
    as (_ & Hbatch & Hrun); [reflexivity..|].
  destruct Hrun as [Hresp Hdel]; [reflexivity|].
  split_and!; [exact Hresp | exact Hbatch |].
  apply Forall_forall. intros char Hin%list_elem_of_In.
  by apply (Hdel three_stored).
Defined.

(** C7 as stated fails: with an empty roster the handler still sends the
    character upsert; when the store answers it with an error the run ends
    with the 500 response, and none of the three rows the user owns is
    deleted. *)
Lemma empty_roster_character_upsert_can_fail :
  let w := make_world (account_of 200 []) (fun _ _ => guildless) assign_ids
                      (fun _ => mkSb None (Some "unavailable")) three_stored in
  roster "us" "en_US" w ex_user = []
  /\ handler "us" "en_US" w ex_request
     = (sync_error,
        [EvSelectUser (FilterId "u1");
         EvFetchAccount (account_url "us" "en_US") "tok";
         EvUpsertCharacters []]).
Proof. vm_compute. done. Qed.

(** ** Two general facts about the batches *)

(** The guild batch of a run has exactly one row per key string
    [name|realm_slug|region]: no key occurs twice, every row of the batch is
    one of the rows collected from the character profiles, and every
    collected row has a row of the same key in the batch. *)
Theorem guild_batch_has_one_row_per_key REGION LOCALE w req :
  Forall (fun e =>
            match e with
            | EvUpsertGuilds rows =>
                exists userData,
                  rows = guildsToUpsert (run_guildRows REGION LOCALE w userData)
                  /\ List.NoDup (map guild_key rows)
                  /\ (forall g, In g rows ->
                        In g (run_guildRows REGION LOCALE w userData))
                  /\ (forall g, In g (run_guildRows REGION LOCALE w userData) ->
                        exists g', In g' rows /\ guild_key g' = guild_key g)
            | _ => True
            end)
         (snd (handler REGION LOCALE w req)).
Proof.
  apply Forall_forall. intros e He%list_elem_of_In.
  apply handler_trace_inv in He as [Hm [-> | (userData & Hu & Hin)]]; [done|].
  trace_cases Hin; subst e; try done.
  exists userData. split; [done|]. apply guildsToUpsert_spec.
Qed.

(** Every row of every character upsert the handler issues has a [null]
    guild: the linking loop never takes an id from the guild-id map. *)
Theorem character_upsert_never_links_a_guild REGION LOCALE w req :
  Forall (fun e =>
            match e with
            | EvUpsertCharacters rows => Forall (fun c => c_guild_id c = None) rows
            | _ => True
            end)
         (snd (handler REGION LOCALE w req)).
Proof.
  apply Forall_forall. intros e He%list_elem_of_In.
  destruct e; try done.
  apply Forall_forall. intros c Hc%list_elem_of_In.
  by eapply character_batch_has_no_guild.
Qed.

(** * Further properties of the profile handler *)

Lemma sync_trace_phases REGION LOCALE w userData :
  sync_trace REGION LOCALE w userData
  = fetch_phase REGION LOCALE w userData ++ store_phase REGION LOCALE w userData.
Proof.
  unfold sync_trace, fetch_phase, store_phase.
  destruct (account_ok REGION LOCALE w userData); simpl; [|done].
  destruct (loop_throws REGION LOCALE w userData); simpl; [|done].
  by rewrite app_nil_r.
Qed.

Lemma fetch_phase_kinds REGION LOCALE w userData :
  Forall (fun e => is_fetch e = true /\ is_write e = false)
         (fetch_phase REGION LOCALE w userData).
Proof.
  unfold fetch_phase. constructor; [done|].
  destruct (negb _); [constructor|].
  apply Forall_forall. intros e He%list_elem_of_In.
  apply in_map_iff in He as (char & <- & _). done.
Qed.

Lemma cleanup_events_kinds REGION LOCALE w userData :
  Forall (fun e => is_fetch e = false /\ is_guild_upsert e = false
                   /\ is_character_upsert e = false)
         (cleanup_events REGION LOCALE w userData).
Proof.
  unfold cleanup_events. constructor; [done|].
  apply Forall_forall. intros e He%list_elem_of_In.
  apply in_map_iff in He as (char & <- & _). done.
Qed.

Lemma store_phase_kinds REGION LOCALE w userData :
  Forall (fun e => is_fetch e = false) (store_phase REGION LOCALE w userData).
Proof.
  unfold store_phase. destruct (negb _ || _); [constructor|].
  apply Forall_app. split.
  - unfold guild_events. destruct (run_guildRows _ _ _ _); by repeat constructor.
  - destruct (_ || _); [constructor|]. constructor; [done|].
    destruct (char_failed _ _ _ _); [constructor|].
    eapply Forall_impl; [apply cleanup_events_kinds|]. by intros e [? _].
Qed.

(** The handler never answers the user lookup's failure with a sync: when
    the lookup reports an error or returns no row, the answer is the 404
    response and the lookup is the only call of the run. *)
Theorem unknown_user_is_answered_404 REGION LOCALE w req :
  missing_params req = false ->
  (is_Some (error (users_single w (user_filter req)))
   \/ data (users_single w (user_filter req)) = None) ->
  handler REGION LOCALE w req
  = (mkResponse 404 "User not found in database.",
     [EvSelectUser (user_filter req)]).
Proof.
  intros Hm Hnone. rewrite handler_closed, Hm.
  unfold found_user.
  destruct Hnone as [[msg ->] | ->]; [done|].
  by destruct (error _).
Qed.

Lemma unknown_user_is_answered_404_witness :
  handler "us" "en_US"
    {| users_single := fun _ => mkSb None (Some "no rows");
       fetch_account := fun _ _ => account_of 200 [thrall];
       fetch_character := fun _ _ => guildless;
       guilds_upsert := assign_ids;
       characters_upsert := accept_chars;
       characters_by_user := fun _ => mkSb (Some []) None |}
    ex_request
  = (mkResponse 404 "User not found in database.", [EvSelectUser (FilterId "u1")]).
Proof.
  apply unknown_user_is_answered_404; [reflexivity | left; by eexists].
Defined.

(** When the account summary is not fetched with an ok status (a non-ok
    answer or a rejected fetch), the run consists of the user lookup and
    that fetch only: no character profile is fetched and the store is not
    written.  The answer is 401 exactly when the fetch was answered with
    status 401, and 500 otherwise. *)
Theorem failed_roster_fetch_ends_the_run REGION LOCALE w req userData :
  missing_params req = false ->
  found_user w req = Some userData ->
  account_ok REGION LOCALE w userData = false ->
  snd (handler REGION LOCALE w req)
  = [EvSelectUser (user_filter req);
     EvFetchAccount (account_url REGION LOCALE) (u_access_token userData)]
  /\ (status (fst (handler REGION LOCALE w req)) = 401
      \/ status (fst (handler REGION LOCALE w req)) = 500)
  /\ (status (fst (handler REGION LOCALE w req)) = 401
      <-> exists res, account_fetched REGION LOCALE w userData = Resolved res
                      /\ res_status res = 401).
Proof.
  intros Hm Hu Hok. rewrite (handler_found _ _ _ _ _ Hm Hu).
  unfold sync_trace, sync_response. rewrite Hok. simpl.
  unfold account_ok in Hok.
  destruct (account_fetched REGION LOCALE w userData) as [res|reason]; simpl.
  - rewrite Hok. simpl.
    destruct (res_status res =? 401) eqn:E; simpl.
    + apply Z.eqb_eq in E. split_and!; [done | by left |].
      split; [intros _; by exists res | done].
    + apply Z.eqb_neq in E. split_and!; [done | by right |].
      split; [done | intros (res' & [= <-] & H); done].
  - split_and!; [done | by right |].
    split; [done | intros (res' & [=] & _)].
Qed.

Lemma failed_roster_fetch_ends_the_run_witness :
  let w := make_world (account_of 503 [thrall]) (fun _ _ => guildless)
                      assign_ids accept_chars three_stored in
  handler "us" "en_US" w ex_request
  = (mkResponse 500 "Failed to fetch account profile.",
     [EvSelectUser (FilterId "u1");
      EvFetchAccount (account_url "us" "en_US") "tok"]).
Proof.
  intros w.
  destruct (failed_roster_fetch_ends_the_run "us" "en_US" w ex_request ex_user)
    as (Htrace & _ & _); [reflexivity..|].
  apply injective_projections; [reflexivity | exact Htrace].
Defined.

(** The user is looked up by [id] whenever [user_id] is a non-empty string,
    whatever [battlenet_id] is; an absent or empty [user_id] with a
    non-empty [battlenet_id] is looked up by [battlenet_id].  The lookup is
    the first call of the run. *)
Theorem user_lookup_prefers_user_id REGION LOCALE w req :
  (forall id, user_id_param req = Some id -> id <> "" ->
     exists rest, snd (handler REGION LOCALE w req)
                  = EvSelectUser (FilterId id) :: rest)
  /\ (forall bid, truthy (user_id_param req) = false ->
        battlenet_id_param req = Some bid -> bid <> "" ->
        exists rest, snd (handler REGION LOCALE w req)
                     = EvSelectUser (FilterBattlenetId bid) :: rest).
Proof.
  split.
  - intros id Hid Hne. rewrite handler_closed.
    unfold missing_params, user_filter. rewrite Hid. simpl.
    apply String.eqb_neq in Hne. rewrite Hne. simpl.
    destruct (found_user w req); eauto.
  - intros bid Hu Hbid Hne. rewrite handler_closed.
    unfold missing_params, user_filter. rewrite Hu, Hbid. simpl.
    apply String.eqb_neq in Hne. rewrite Hne. simpl.
    destruct (found_user w req); eauto.
Qed.

(** The character upsert of a run carries one row per character of the
    account summary, in the order of the summary (the characters of every
    [wow_accounts] entry, one account after the other): name, realm slug,
    level, class and race as received, the configured region, the id of the
    user that was looked up, and a [null] guild.  A run that ends with the
    200 response reports the number of these rows. *)
Theorem character_batch_is_the_roster REGION LOCALE w req userData :
  missing_params req = false ->
  found_user w req = Some userData ->
  (forall rows,
     In (EvUpsertCharacters rows) (snd (handler REGION LOCALE w req)) ->
     rows = map (written_row REGION userData) (roster REGION LOCALE w userData))
  /\ (status (fst (handler REGION LOCALE w req)) = 200 ->
      body (fst (handler REGION LOCALE w req))
      = "Profile sync completed for user " +:+ u_battletag userData
        +:+ ". Characters updated: "
        +:+ pretty (List.length (roster REGION LOCALE w userData))).
Proof.
  intros Hm Hu.
  assert (run_charRows REGION LOCALE w userData
          = map (written_row REGION userData) (roster REGION LOCALE w userData))
    as Hrows.
  { unfold run_charRows, char_rows_of. by rewrite map_map. }
  split.
  - intros rows Hin. rewrite (handler_found _ _ _ _ _ Hm Hu) in Hin.
    simpl in Hin. destruct Hin as [Hin|Hin]; [discriminate Hin|].
    trace_cases Hin. by injection Hin as ->.
  - rewrite (handler_found _ _ _ _ _ Hm Hu). simpl. intros H200.
    destruct (sync_response_200 _ _ _ _ H200) as (Hok & Hr & Hg & Hl & Hc).
    unfold sync_response. unfold account_ok in Hok.
    destruct (account_fetched REGION LOCALE w userData) as [res|]; [|done].
    rewrite Hok, Hr, Hg, Hl, Hc. simpl. unfold success_body.
    by rewrite Hrows, length_map.
Qed.

Lemma character_batch_is_the_roster_witness :
  let w := make_world
             (Resolved (mkFetch 200 (Readable (mkAccountProfile
                (Some [mkWowAccount (Some [Readable thrall]); mkWowAccount None;
                       mkWowAccount (Some [Readable jaina])])))))
             (fun _ _ => guildless) assign_ids accept_chars [] in
  In (EvUpsertCharacters
        [mkCharRow "Thrall" "icecrown" "us" "u1" 60 7 2 None;
         mkCharRow "Jaina" "area52" "us" "u1" 70 8 1 None])
     (snd (handler "us" "en_US" w ex_request))
  /\ body (fst (handler "us" "en_US" w ex_request))
     = "Profile sync completed for user Thrall#1234. Characters updated: 2".
Proof.
  intros w.
  destruct (character_batch_is_the_roster "us" "en_US" w ex_request ex_user)
    as (_ & Hbody); [reflexivity..|].
  split; [vm_compute; tauto | apply Hbody; reflexivity].
Defined.

(** Every call to the remote service comes before every write to the
    store: the calls of a run split into a first part without a write and a
    second part without a fetch. *)
Theorem fetches_come_before_writes REGION LOCALE w req :
  exists before after,
    snd (handler REGION LOCALE w req) = before ++ after
    /\ Forall (fun e => is_write e = false) before
    /\ Forall (fun e => is_fetch e = false) after.
Proof.
  rewrite handler_closed.
  destruct (missing_params req); [by exists [], []|].
  destruct (found_user w req) as [userData|]; simpl.
  - exists (EvSelectUser (user_filter req) :: fetch_phase REGION LOCALE w userData),
           (store_phase REGION LOCALE w userData).
    split_and!.
    + by rewrite sync_trace_phases.
    + constructor; [done|].
      eapply Forall_impl; [apply fetch_phase_kinds|]. by intros e [_ ?].
    + apply store_phase_kinds.
  - exists [EvSelectUser (user_filter req)], []. by repeat constructor.
Qed.

(** A run sends at most one guild upsert and at most one character upsert,
    a guild upsert is never sent with an empty batch, and a character
    upsert is sent only after the guild upsert, if any, was answered
    without an error. *)
Theorem at_most_one_batch_per_table REGION LOCALE w req :
  (List.length (List.filter is_guild_upsert (snd (handler REGION LOCALE w req)))
   <= 1)%nat
  /\ (List.length (List.filter is_character_upsert
                               (snd (handler REGION LOCALE w req))) <= 1)%nat
  /\ Forall (fun e => e <> EvUpsertGuilds [])
            (snd (handler REGION LOCALE w req))
  /\ (forall rows batch,
        In (EvUpsertGuilds batch) (snd (handler REGION LOCALE w req)) ->
        In (EvUpsertCharacters rows) (snd (handler REGION LOCALE w req)) ->
        error (guilds_upsert w batch) = None).
Proof.
  assert (forall l, Forall (fun e => is_guild_upsert e = false
                                     /\ is_character_upsert e = false) l ->
            List.filter is_guild_upsert l = []
            /\ List.filter is_character_upsert l = []) as Hnone.
  { induction l as [|e l IH]; [done|]. intros Hl.
    apply Forall_cons in Hl as [[He1 He2] Hl]. simpl.
    rewrite He1, He2. by apply IH. }
  rewrite handler_closed.
  destruct (missing_params req); [split_and!; try done; simpl; lia|].
  destruct (found_user w req) as [userData|]; cbn [snd].
  2:{ split_and!; [simpl; lia | simpl; lia | by repeat constructor |].
      intros rows batch [H|[]]. discriminate H. }
  rewrite sync_trace_phases.
  assert (Forall (fun e => is_guild_upsert e = false
                           /\ is_character_upsert e = false)
                 (fetch_phase REGION LOCALE w userData)) as Hfetch.
  { eapply Forall_impl; [apply fetch_phase_kinds|]. intros e [He _].
    by destruct e. }
  destruct (Hnone _ Hfetch) as [Hfg Hfc].
  change (EvSelectUser (user_filter req)
          :: fetch_phase REGION LOCALE w userData
             ++ store_phase REGION LOCALE w userData)
    with ([EvSelectUser (user_filter req)]
          ++ fetch_phase REGION LOCALE w userData
          ++ store_phase REGION LOCALE w userData).
  rewrite !List.filter_app, Hfg, Hfc.
  change (List.filter is_guild_upsert [EvSelectUser (user_filter req)]) with (@nil Effect).
  change (List.filter is_character_upsert [EvSelectUser (user_filter req)])
    with (@nil Effect).
  rewrite !app_nil_l.
  assert (Forall (fun e => is_guild_upsert e = false
                           /\ is_character_upsert e = false)
                 (cleanup_events REGION LOCALE w userData)) as Hclean.
  { eapply Forall_impl; [apply cleanup_events_kinds|]. by intros e (_ & ? & ?). }
  destruct (Hnone _ Hclean) as [Hcg Hcc].
  split_and!.
  - unfold store_phase. destruct (negb _ || _); [simpl; lia|].
    rewrite List.filter_app, length_app.
    assert (List.length (List.filter is_guild_upsert
              (guild_events (run_guildRows REGION LOCALE w userData))) <= 1)%nat.
    { unfold guild_events. destruct (run_guildRows _ _ _ _); simpl; lia. }
    destruct (_ || _); [simpl; lia|].
    cbn [List.filter is_guild_upsert].
    destruct (char_failed _ _ _ _); [simpl; lia|]. rewrite Hcg. simpl. lia.
  - unfold store_phase. destruct (negb _ || _); [simpl; lia|].
    rewrite List.filter_app, length_app.
    assert (List.filter is_character_upsert
              (guild_events (run_guildRows REGION LOCALE w userData)) = []) as ->.
    { unfold guild_events. by destruct (run_guildRows _ _ _ _). }
    destruct (_ || _); [simpl; lia|].
    cbn [List.filter is_character_upsert List.length].
    destruct (char_failed _ _ _ _); [simpl; lia|]. rewrite Hcc. simpl. lia.
  - apply Forall_app. split; [by repeat constructor|].
    apply Forall_forall. intros e He%list_elem_of_In.
    rewrite <- sync_trace_phases in He.
    trace_cases He; subst e; try done.
    intros [= Hempty].
    destruct (proj2 (proj2 (guildsToUpsert_spec
                              (run_guildRows REGION LOCALE w userData))))
      with (g := hd (mkGuildRow "" "" "") (run_guildRows REGION LOCALE w userData))
      as (g' & Hg' & _).
    { destruct (run_guildRows _ _ _ _); [done | by left]. }
    rewrite Hempty in Hg'. destruct Hg'.
  - rewrite <- sync_trace_phases.
    intros rows batch [Hb|Hb] [Hr|Hr]; try discriminate.
    trace_cases Hb. injection Hb as ->.
    trace_cases Hr.
    unfold guild_failed in Hguild.
    destruct (run_guildRows REGION LOCALE w userData); [done|].
    apply bool_decide_eq_false_1 in Hguild.
    destruct (error _) as [msg|]; [|done]. destruct Hguild. by eexists.
Qed.

(** A run never deletes a character of the current roster: no delete
    targets the name and realm slug of a roster entry in the configured
    region, whatever the store lists for the user. *)
Theorem roster_characters_are_never_deleted REGION LOCALE w req userData :
  missing_params req = false ->
  found_user w req = Some userData ->
  Forall (fun char =>
            forall uid,
              ~ In (EvDeleteCharacter uid (cs_name char) (cs_realm_slug char) REGION)
                   (snd (handler REGION LOCALE w req)))
         (roster REGION LOCALE w userData).
Proof.
  intros Hm Hu. apply Forall_forall. intros char Hchar%list_elem_of_In uid Hin.
  rewrite (handler_found _ _ _ _ _ Hm Hu) in Hin. simpl in Hin.
  destruct Hin as [Hin|Hin]; [discriminate Hin|].
  trace_cases Hin. injection Hin as _ Hn Hr Hg.
  apply orphans_in in H as [_ Hkey]. apply Hkey.
  apply currentCharKeys_in. exists char. split; [done|].
  unfold stored_key. by rewrite <- Hn, <- Hr, <- Hg.
Qed.

Lemma roster_characters_are_never_deleted_witness :
  let w := make_world (account_of 200 [thrall]) (fun _ _ => guildless)
                      assign_ids accept_chars three_stored in
  Forall (fun char =>
            forall uid,
              ~ In (EvDeleteCharacter uid (cs_name char) (cs_realm_slug char) "us")
                   (snd (handler "us" "en_US" w ex_request)))
         [thrall].
Proof.
  intros w.
  apply (roster_characters_are_never_deleted "us" "en_US" w ex_request ex_user);
    reflexivity.
Defined.

(** The cleanup read is made exactly in the runs that end with the 200
    response, and a delete is issued only in such a run: a run that fails
    at any earlier step removes nothing. *)
Theorem cleanup_runs_only_on_success REGION LOCALE w req :
  (status (fst (handler REGION LOCALE w req)) = 200
   <-> exists uid, In (EvSelectCharacters uid) (snd (handler REGION LOCALE w req)))
  /\ Forall (fun e =>
               match e with
               | EvDeleteCharacter _ _ _ _ =>
                   status (fst (handler REGION LOCALE w req)) = 200
               | _ => True
               end)
            (snd (handler REGION LOCALE w req)).
Proof.
  assert (forall e, In e (snd (handler REGION LOCALE w req)) ->
            is_cleanup_read e = true \/ (exists u n r g, e = EvDeleteCharacter u n r g) ->
            status (fst (handler REGION LOCALE w req)) = 200) as Hlate.
  { intros e Hin Hkind.
    destruct (handler_trace_inv _ _ _ _ _ Hin) as [Hm [-> | (userData & Hu & Hs)]].
    { destruct Hkind as [?|(? & ? & ? & ? & ?)]; done. }
    rewrite (handler_found _ _ _ _ _ Hm Hu). simpl.
    assert (account_ok REGION LOCALE w userData = true
            /\ loop_throws REGION LOCALE w userData = false
            /\ guild_failed w (run_guildRows REGION LOCALE w userData) = false
            /\ link_throws REGION LOCALE w userData = false
            /\ char_failed REGION LOCALE w userData = false) as (Hok & Hr & Hg & Hl & Hc).
    { trace_cases Hs; subst e;
        try (destruct Hkind as [?|(? & ? & ? & ? & ?)]; done); by split_and!. }
    unfold sync_response. unfold account_ok in Hok.
    destruct (account_fetched REGION LOCALE w userData); [|done].
    by rewrite Hok, Hr, Hg, Hl, Hc. }
  split; [split|].
  - intros H200. rewrite handler_closed in H200 |- *.
    destruct (missing_params req); [done|].
    destruct (found_user w req) as [userData|]; [|done]. simpl in *.
    destruct (sync_response_200 _ _ _ _ H200) as (Hok & Hr & Hg & Hl & Hc).
    exists (u_id userData). right. unfold sync_trace.
    rewrite Hok, Hr, Hg, Hl, Hc. simpl. right. rewrite !in_app_iff.
    right. right. right. by left.
  - intros [uid Hin]. apply (Hlate _ Hin). by left.
  - apply Forall_forall. intros e He%list_elem_of_In.
    destruct e; try done. apply (Hlate _ He). right. eauto.
Qed.

(** In a run that ends with the 200 response the character profiles are
    fetched once per roster entry, in roster order, each from the URL built
    from the entry's realm slug and its lowercased name, with the stored
    access token of the user. *)
Theorem one_profile_fetch_per_character REGION LOCALE w req userData :
  missing_params req = false ->
  found_user w req = Some userData ->
  status (fst (handler REGION LOCALE w req)) = 200 ->
  List.filter is_character_fetch (snd (handler REGION LOCALE w req))
  = map (fun char =>
           EvFetchCharacter
             ("https://" +:+ REGION +:+ ".api.blizzard.com/profile/wow/character/"
              +:+ cs_realm_slug char +:+ "/" +:+ toLowerCase (cs_name char)
              +:+ "?namespace=profile-" +:+ REGION +:+ "&locale=" +:+ LOCALE)
             (u_access_token userData))
        (roster REGION LOCALE w userData).
Proof.
  intros Hm Hu H200. rewrite (handler_found _ _ _ _ _ Hm Hu) in H200 |- *.
  simpl in H200.
  destruct (sync_response_200 _ _ _ _ H200) as (Hok & Hr & Hg & Hl & Hc).
  cbn [snd]. rewrite sync_trace_phases.
  change (EvSelectUser (user_filter req)
          :: fetch_phase REGION LOCALE w userData
             ++ store_phase REGION LOCALE w userData)
    with ([EvSelectUser (user_filter req)]
          ++ fetch_phase REGION LOCALE w userData
          ++ store_phase REGION LOCALE w userData).
  rewrite !List.filter_app.
  assert (List.filter is_character_fetch (store_phase REGION LOCALE w userData) = [])
    as ->.
  { pose proof (store_phase_kinds REGION LOCALE w userData) as Hk.
    induction Hk as [|e l He Hl' IH]; [done|]. simpl.
    destruct e; try done. }
  rewrite app_nil_r. unfold fetch_phase. rewrite Hok.
  cbn [negb List.filter is_character_fetch app].
  rewrite (proj2 (loop_passes _ _ _ _ Hr)).
  induction (roster REGION LOCALE w userData) as [|char rest IH]; [done|].
  simpl. by rewrite IH.
Qed.

Lemma one_profile_fetch_per_character_witness :
  let w := make_world (account_of 200 [thrall; elan])
                      (fun _ _ => in_guild "Alpha" "area52")
                      assign_ids accept_chars [] in
  List.filter is_character_fetch (snd (handler "us" "en_US" w ex_request))
  = [EvFetchCharacter
       "https://us.api.blizzard.com/profile/wow/character/icecrown/thrall?namespace=profile-us&locale=en_US"
       "tok";
     EvFetchCharacter
       ("https://us.api.blizzard.com/profile/wow/character/hyjal/"
        +:+ String (ascii_of_nat 233) "lan"
        +:+ "?namespace=profile-us&locale=en_US")
       "tok"].
Proof.
  intros w.
  apply (one_profile_fetch_per_character "us" "en_US" w ex_request ex_user);
    reflexivity.
Defined.

(** Every request to the remote service carries the access token stored in
    the row of the user that was looked up, and no other. *)
Theorem fetches_carry_the_stored_token REGION LOCALE w req :
  Forall (fun e =>
            match e with
            | EvFetchAccount _ bearer | EvFetchCharacter _ bearer =>
                exists userData, found_user w req = Some userData
                                 /\ bearer = u_access_token userData
            | _ => True
            end)
         (snd (handler REGION LOCALE w req)).
Proof.
  apply Forall_forall. intros e He%list_elem_of_In.
  destruct (handler_trace_inv _ _ _ _ _ He) as [_ [-> | (userData & Hu & Hs)]];
    [done|].
  destruct e; try done.
  - trace_cases Hs. injection Hs as _ ->. eauto.
  - apply sync_trace_inv in Hs
      as [Hs | (_ & [Hs | (_ & [Hs | (_ & _ & [Hs | (_ & Hs)])])])];
      try discriminate Hs.
    + apply in_map_iff in Hs as (char & [= _ <-] & _). eauto.
    + by apply in_guild_events in Hs as (_ & ?).
    + apply in_cleanup_events in Hs as [Hs | (? & _ & Hs)]; discriminate Hs.
Qed.

(** When the account summary is fetched and read and no character profile
    reports a guild (every profile fetch is answered with a non-ok status
    or with an ok status and a profile without a guild), the run sends no
    guild upsert, and it ends with the 200 response as soon as the
    character upsert is answered without an error. *)
Theorem no_guild_reported_means_no_guild_upsert REGION LOCALE w req userData :
  missing_params req = false ->
  found_user w req = Some userData ->
  account_ok REGION LOCALE w userData = true ->
  roster_unreadable REGION LOCALE w userData = false ->
  Forall (fun char =>
            exists res, detail_res REGION LOCALE w userData char = Resolved res
                        /\ (res_ok res = false
                            \/ exists charProfile,
                                 res_json res = Readable charProfile
                                 /\ guild charProfile = None))
         (roster REGION LOCALE w userData) ->
  Forall (fun e => is_guild_upsert e = false) (snd (handler REGION LOCALE w req))
  /\ In (EvUpsertCharacters (run_charRows REGION LOCALE w userData))
        (snd (handler REGION LOCALE w req))
  /\ (error (characters_upsert w (run_charRows REGION LOCALE w userData)) = None ->
      status (fst (handler REGION LOCALE w req)) = 200).
Proof.
  intros Hm Hu Hok Hread Hall.
  assert (run_guildRows REGION LOCALE w userData = []
          /\ detail_fails REGION LOCALE w userData = false) as [Hrows Hrej].
  { unfold run_guildRows, guild_rows_of, detail_fails.
    induction Hall as [|char rest (res & Hres & Hnone) _ [IH1 IH2]]; [done|].
    destruct (no_guild_reported _ _ _ _ _ _ Hres Hnone) as [Hnorow Hgoes].
    simpl. rewrite Hnorow, Hgoes. split; [exact IH1|].
    assert (bool_decide (is_Some (@None string)) = false) as ->
      by (apply bool_decide_eq_false_2; by intros [? ?]).
    exact IH2. }
  assert (loop_throws REGION LOCALE w userData = false) as Hr.
  { unfold loop_throws. by rewrite Hread, Hrej. }
  assert (guild_failed w (run_guildRows REGION LOCALE w userData) = false) as Hg.
  { by rewrite Hrows. }
  assert (link_throws REGION LOCALE w userData = false) as Hl.
  { unfold link_throws. rewrite Hrows.
    induction (char_rows_of _ _ _) as [|c l IH]; [done|]. simpl. exact IH. }
  rewrite (handler_found _ _ _ _ _ Hm Hu). cbn [fst snd].
  split_and!.
  - constructor; [done|]. rewrite sync_trace_phases. apply Forall_app. split.
    + eapply Forall_impl; [apply fetch_phase_kinds|]. intros e [He _]. by destruct e.
    + unfold store_phase. rewrite Hok, Hr, Hg, Hl, Hrows. simpl.
      constructor; [done|]. destruct (char_failed _ _ _ _); [constructor|].
      eapply Forall_impl; [apply cleanup_events_kinds|]. by intros e (_ & ? & _).
  - right. rewrite sync_trace_phases. apply in_app_iff. right.
    unfold store_phase. rewrite Hok, Hr, Hg, Hl, Hrows. by left.
  - intros Hnoerr. unfold sync_response. unfold account_ok in Hok.
    destruct (account_fetched REGION LOCALE w userData); [|done].
    rewrite Hok, Hr, Hg, Hl. unfold char_failed. by rewrite Hnoerr.
Qed.

Lemma no_guild_reported_means_no_guild_upsert_witness :
  let w := make_world (account_of 200 [thrall; jaina])
             (fun url _ => if String.eqb url thrall_url then not_found else guildless)
             assign_ids accept_chars [] in
  Forall (fun e => is_guild_upsert e = false) (snd (handler "us" "en_US" w ex_request))
  /\ status (fst (handler "us" "en_US" w ex_request)) = 200.
Proof.
  intros w.
  destruct (no_guild_reported_means_no_guild_upsert "us" "en_US" w ex_request ex_user)
    as (Hnone & _ & H200);
    [reflexivity | reflexivity | reflexivity | reflexivity | |].
  - repeat constructor.
    + exists (mkFetch 404 (Unreadable "Unexpected token N in JSON at position 0")).
      split; [reflexivity | by left].
    + exists (mkFetch 200 (Readable (mkCharProfile None))).
      split; [reflexivity | right; by eexists].
  - split; [exact Hnone | apply H200; reflexivity].
Defined.

(** ** The guild batch and the guild-id map *)

Lemma obj_set_fresh {V} key (v : V) o :
  ~ In key (map fst o) -> obj_set key v o = o ++ [(key, v)].
Proof.
  induction o as [|[k x] o IH]; simpl; [done|]. intros Hnot.
  destruct (String.eqb k key) eqn:E.
  - apply String.eqb_eq in E. destruct Hnot. by left.
  - rewrite IH; [done|]. intros ?. apply Hnot. by right.
Qed.

Lemma obj_set_present {V} key (v : V) o :
  List.NoDup (map fst o) -> In key (map fst o) ->
  obj_set key v o
  = map (fun kx => if String.eqb (fst kx) key then (fst kx, v) else kx) o.
Proof.
  induction o as [|[k x] o IH]; simpl; [done|]. intros Hnd Hin.
  inversion_clear Hnd as [|? ? Hk Hnd'].
  destruct (String.eqb k key) eqn:E.
  - apply String.eqb_eq in E as ->. f_equal.
    clear IH Hin Hnd'. induction o as [|[k' x'] o IH]; simpl; [done|].
    destruct (String.eqb k' key) eqn:E'.
    + apply String.eqb_eq in E'. destruct Hk. by left.
    + rewrite <- IH; [done|]. intros ?. apply Hk. by right.
  - apply String.eqb_neq in E. destruct Hin as [?|Hin]; [done|].
    by rewrite IH.
Qed.

Lemma uniqueGuilds_inv guildRows :
  List.NoDup (map fst (uniqueGuilds guildRows))
  /\ (forall k g, In (k, g) (uniqueGuilds guildRows) -> guild_key g = k)
  /\ (forall k, In k (map fst (uniqueGuilds guildRows))
                <-> In k (map guild_key guildRows)).
Proof.
  destruct (unique_fold_inv guildRows []) as (Hn & Hv & Hk);
    [constructor | intros ? ? [] |].
  fold (uniqueGuilds guildRows) in Hn, Hv, Hk.
  split_and!; [done | intros k g H; by apply (Hv k g H) |].
  intros k. split; [|intros H; apply Hk; by right].
  intros Hin. apply in_map_iff in Hin as ([k' g] & Hfst & Hin).
  simpl in Hfst. subst k'.
  destruct (Hv _ _ Hin) as [<- [Hg|[]]]. by apply in_map.
Qed.

Lemma guildsToUpsert_fresh (guildRows : list GuildRow) (g : GuildRow) :
  ~ In (guild_key g) (map guild_key guildRows) ->
  guildsToUpsert (guildRows ++ [g]) = guildsToUpsert guildRows ++ [g].
Proof.
  intros Hfresh. destruct (uniqueGuilds_inv guildRows) as (Hn & Hv & Hk).
  unfold guildsToUpsert, uniqueGuilds. rewrite fold_left_app. simpl.
  fold (uniqueGuilds guildRows).
  rewrite obj_set_fresh; [|by rewrite Hk]. by rewrite map_app.
Qed.

(** The guild batch is built row by row: a row whose key string
    [name|realm_slug|region] is new goes to the end of the batch; a row
    whose key is already there takes the place of the row with that key and
    leaves the order of the batch as it is. *)
Theorem guild_batch_grows_by_first_sight (guildRows : list GuildRow) (g : GuildRow) :
  guildsToUpsert (guildRows ++ [g])
  = if bool_decide (guild_key g ∈ map guild_key guildRows)
    then map (fun x => if String.eqb (guild_key x) (guild_key g) then g else x)
             (guildsToUpsert guildRows)
    else guildsToUpsert guildRows ++ [g].
Proof.
  destruct (bool_decide _) eqn:B.
  - apply bool_decide_eq_true_1, list_elem_of_In in B.
    destruct (uniqueGuilds_inv guildRows) as (Hn & Hv & Hk).
    unfold guildsToUpsert, uniqueGuilds. rewrite fold_left_app. simpl.
    fold (uniqueGuilds guildRows).
    rewrite obj_set_present; [|done | by apply Hk].
    rewrite !map_map. apply map_ext_in. intros [k x] Hin. simpl.
    rewrite (Hv _ _ Hin). by destruct (String.eqb k (guild_key g)).
  - apply bool_decide_eq_false_1 in B. rewrite list_elem_of_In in B.
    by apply guildsToUpsert_fresh.
Qed.

(** Rows with pairwise different key strings pass through the
    deduplication unchanged, in their order; in particular deduplicating a
    batch again changes nothing. *)
Theorem guild_batch_keeps_distinct_rows (guildRows : list GuildRow) :
  (List.NoDup (map guild_key guildRows) -> guildsToUpsert guildRows = guildRows)
  /\ guildsToUpsert (guildsToUpsert guildRows) = guildsToUpsert guildRows.
Proof.
  assert (forall rows, List.NoDup (map guild_key rows) -> guildsToUpsert rows = rows)
    as Hdistinct.
  { induction rows as [|g rows IH] using rev_ind; [done|].
    rewrite map_app. simpl. intros Hnd%NoDup_ListNoDup.
    apply NoDup_app in Hnd as (Hnd & Hg & _).
    rewrite guildsToUpsert_fresh.
    - rewrite IH; [done | by apply NoDup_ListNoDup].
    - intros Hin%list_elem_of_In. apply (Hg _ Hin). by left. }
  split; [apply Hdistinct|].
  apply Hdistinct. apply guildsToUpsert_spec.
Qed.

Lemma guildIdMap_fold_lookup gs : forall (m : gmap string string) k,
  fold_left (fun m g => <[rec_key g := gr_id g]> m) gs m !! k
  = match List.find (fun g => String.eqb (rec_key g) k) (rev gs) with
    | Some g => Some (gr_id g)
    | None => m !! k
    end.
Proof.
  induction gs as [|g gs IH] using rev_ind; intros m k; [done|].
  rewrite fold_left_app, rev_app_distr. simpl.
  destruct (String.eqb (rec_key g) k) eqn:E.
  - apply String.eqb_eq in E as <-. by rewrite lookup_insert_eq.
  - apply String.eqb_neq in E. by rewrite lookup_insert_ne, IH.
Qed.

(** The guild-id map built from the rows a guild upsert returned: a key no
    returned row has is not in the map; of several returned rows with the
    same key the last one gives the id; and when the returned keys are
    pairwise different every returned row is found under its key with its
    own id.  Without returned rows the map is empty. *)
Theorem guildIdMap_lookup (upserted : list GuildRec) :
  (forall k, ~ In k (map rec_key upserted) ->
     build_guildIdMap (Some upserted) !! k = None)
  /\ (forall g, build_guildIdMap (Some (upserted ++ [g])) !! rec_key g
                = Some (gr_id g))
  /\ (List.NoDup (map rec_key upserted) ->
      forall g, In g upserted ->
        build_guildIdMap (Some upserted) !! rec_key g = Some (gr_id g))
  /\ build_guildIdMap None = ∅.
Proof.
  assert (forall gs k, build_guildIdMap (Some gs) !! k
          = match List.find (fun g => String.eqb (rec_key g) k) (rev gs) with
            | Some g => Some (gr_id g)
            | None => None
            end) as Hlookup.
  { intros gs k. unfold build_guildIdMap.
    change (fun (m : gmap string string) g =>
              <[composite_key (gr_name g) (gr_realm_slug g) (gr_region g) := gr_id g]> m)
      with (fun (m : gmap string string) g => <[rec_key g := gr_id g]> m).
    by rewrite guildIdMap_fold_lookup, lookup_empty. }
  split_and!; [| | |done].
  - intros k Hk. rewrite Hlookup.
    destruct (List.find _ _) as [g|] eqn:F; [|done].
    apply find_some in F as [Hin E]. apply String.eqb_eq in E.
    destruct Hk. apply in_map_iff. exists g. split; [done|]. by apply in_rev.
  - intros g. rewrite Hlookup, rev_app_distr. simpl.
    by rewrite String.eqb_refl.
  - intros Hnd g Hin. rewrite Hlookup.
    destruct (List.find _ _) as [g'|] eqn:F.
    + apply find_some in F as [Hin' E]. apply String.eqb_eq in E.
      apply in_rev in Hin'.
      assert (g' = g) as ->; [|done].
      clear Hlookup. induction upserted as [|x l IH]; [done|].
      simpl in Hnd. inversion_clear Hnd as [|? ? Hx Hl].
      destruct Hin as [->|Hin], Hin' as [->|Hin']; try done.
      * destruct Hx. rewrite <- E. by apply in_map.
      * destruct Hx. rewrite E. by apply in_map.
      * by apply IH.
    + eapply find_none in F; [|apply in_rev; by rewrite rev_involutive].
      by rewrite String.eqb_refl in F.
Qed.

(** * Properties of the OAuth flow *)

(** The flow after the state check, step by step. *)
Lemma oauth_flow_after_check req env w :
  OAuth.given (OAuth.error_param req) = false ->
  OAuth.given (OAuth.code_param req) = true ->
  passes_state_check req = true ->
  OAuth.handleOAuthFlow req env w
  = match token_fetched req env w with
    | Rejected _ =>
        (OAuth.plain 500 "Internal Server Error during OAuth process.",
         [token_call req env])
    | Resolved tokenResponse =>
        if negb (res_ok tokenResponse) then
          (OAuth.plain 500 "Failed to exchange authorization code for token.",
           [token_call req env])
        else
          match res_json tokenResponse with
          | Unreadable _ =>
              (OAuth.plain 500 "Internal Server Error during OAuth process.",
               [token_call req env])
          | Readable tokenData =>
              match OAuth.userinfo_endpoint w (bearer_of tokenData) with
              | Rejected _ =>
                  (OAuth.plain 500 "Internal Server Error during OAuth process.",
                   [token_call req env; OAuth.FetchUserInfo (bearer_of tokenData)])
              | Resolved userInfoResp =>
                  if negb (res_ok userInfoResp) then
                    (OAuth.plain 500 "Failed to retrieve user information.",
                     [token_call req env;
                      OAuth.FetchUserInfo (bearer_of tokenData)])
                  else
                    match res_json userInfoResp with
                    | Unreadable _ =>
                        (OAuth.plain 500
                           "Internal Server Error during OAuth process.",
                         [token_call req env;
                          OAuth.FetchUserInfo (bearer_of tokenData)])
                    | Readable userInfo =>
                        if negb (expiry_in_range w tokenData) then
                          (OAuth.plain 500
                             "Internal Server Error during OAuth process.",
                           [token_call req env;
                            OAuth.FetchUserInfo (bearer_of tokenData)])
                        else
                          let row := user_row w tokenData userInfo in
                          (match error (OAuth.users_upsert w row) with
                           | Some _ =>
                               OAuth.plain 500
                                 "Database error while saving user data."
                           | None =>
                               OAuth.mkResponse 200 OAuth.responseHtml
                                 [("Content-Type", "text/html")]
                           end,
                           [token_call req env;
                            OAuth.FetchUserInfo (bearer_of tokenData);
                            OAuth.UpsertUser row])
                    end
              end
          end
    end.
Proof.
  intros Herr Hcode Hcheck.
  unfold passes_state_check, stored_state in Hcheck.
  apply andb_true_iff in Hcheck as [Hcheck Heq].
  apply andb_true_iff in Hcheck as [Hstate Hstored].
  unfold OAuth.handleOAuthFlow, OAuth.flow, token_fetched, token_call.
  rewrite Herr, Hcode, Hstate, Hstored, Heq. cbn [negb orb].
  destruct (OAuth.token_endpoint w _ _) as [tokenResponse|reason]; [|done].
  unfold await at 1, and_then at 1.
  destruct (res_ok tokenResponse); cbn [negb]; [|done].
  destruct (res_json tokenResponse) as [tokenData|reason]; [|done].
  unfold decoded at 1, and_then at 1.
  fold (bearer_of tokenData).
  destruct (OAuth.userinfo_endpoint w _) as [userInfoResp|reason]; [|done].
  unfold await at 1, and_then at 1.
  destruct (res_ok userInfoResp); cbn [negb]; [|done].
  destruct (res_json userInfoResp) as [userInfo|reason]; [|done].
  unfold decoded at 1, and_then at 1.
  unfold expiry_in_range.
  destruct (Z.abs _ <=? OAuth.max_time_value); cbn [negb]; [|done].
  unfold request, and_then.
  assert ((if OAuth.given (OAuth.refresh_token tokenData)
           then OAuth.refresh_token tokenData else None)
          = match OAuth.refresh_token tokenData with
            | Some t => if String.eqb t "" then None else Some t
            | None => None
            end) as ->.
  { destruct (OAuth.refresh_token tokenData) as [t|]; [|done].
    simpl. by destruct (String.eqb t ""). }
  fold (user_row w tokenData userInfo).
  by destruct (error _).
Qed.

(** ** Strings: splitting, joining and trimming *)

Lemma split_on_nonempty sep s : split_on sep s <> [].
Proof.
  destruct s as [|c rest]; simpl; [done|].
  destruct (Ascii.eqb c sep); [done|]. by destruct (split_on sep rest).
Qed.

Lemma split_on_no_sep sep s : has_char sep s = false -> split_on sep s = [s].
Proof.
  induction s as [|c rest IH]; simpl; [done|].
  intros [Hc Hrest]%orb_false_iff. rewrite Hc. by rewrite IH.
Qed.

Lemma split_on_app sep a b :
  split_on sep (a +:+ String sep b) = split_on sep a ++ split_on sep b.
Proof.
  induction a as [|c rest IH]; simpl.
  - by rewrite Ascii.eqb_refl.
  - destruct (Ascii.eqb c sep); [by rewrite IH|].
    rewrite IH. pose proof (split_on_nonempty sep rest).
    by destruct (split_on sep rest).
Qed.

(** Joining the pieces of a split with the separator gives the string back. *)
Lemma join_split sep s :
  join_with (String sep EmptyString) (split_on sep s) = s.
Proof.
  induction s as [|c rest IH]; simpl; [done|].
  destruct (Ascii.eqb c sep) eqn:E.
  - apply Ascii.eqb_eq in E as ->.
    pose proof (split_on_nonempty sep rest).
    destruct (split_on sep rest) as [|p ps] eqn:S; [done|].
    change (join_with (String sep "") ("" :: p :: ps))
      with (String sep (join_with (String sep "") (p :: ps))).
    by rewrite IH.
  - pose proof (split_on_nonempty sep rest).
    destruct (split_on sep rest) as [|p ps]; [done|].
    destruct ps as [|q qs]; simpl in *; by rewrite <- IH.
Qed.

Lemma trim_end_keeps c s :
  is_js_space c = false -> trim_end (String c s) = String c (trim_end s).
Proof. intros Hc. simpl. rewrite Hc. by destruct (trim_end s). Qed.

Lemma alnum_not_space c : is_alnum c = true -> is_js_space c = false.
Proof.
  unfold is_alnum, is_js_space. intros H.
  destruct (nat_of_ascii c =? 32)%nat eqn:E1;
    destruct (nat_of_ascii c =? 160)%nat eqn:E2;
    repeat match goal with
           | H : (_ =? _)%nat = true |- _ => apply Nat.eqb_eq in H
           | H : (_ =? _)%nat = false |- _ => apply Nat.eqb_neq in H
           end;
    apply not_true_is_false; intros Hs;
    repeat (apply orb_true_iff in Hs as [Hs|Hs] || apply andb_true_iff in Hs as [? ?]);
    repeat (apply orb_true_iff in H as [H|H] || apply andb_true_iff in H as [? ?]);
    repeat match goal with
           | H : (_ <=? _)%nat = true |- _ => apply Nat.leb_le in H
           | H : (_ =? _)%nat = true |- _ => apply Nat.eqb_eq in H
           end; lia.
Qed.

Lemma alnum_string_is_clean s :
  all_chars is_alnum s = true -> has_char ";" s = false /\ trim_end s = s.
Proof.
  induction s as [|c rest IH]; simpl; [done|].
  intros [Hc Hrest]%andb_true_iff. destruct (IH Hrest) as [Hsemi Htrim].
  split.
  - rewrite Hsemi, orb_false_r. apply Ascii.eqb_neq. intros ->. done.
  - rewrite (alnum_not_space c Hc), Htrim. by destruct rest.
Qed.

Lemma append_empty_r (s : string) : s +:+ EmptyString = s.
Proof.
  induction s as [|c r IH]; [done|].
  change (String c (r +:+ EmptyString) = String c r). by rewrite IH.
Qed.

Lemma append_assoc3 (a b c : string) : (a +:+ b) +:+ c = a +:+ (b +:+ c).
Proof.
  induction a as [|x r IH]; [done|].
  change (String x ((r +:+ b) +:+ c) = String x (r +:+ (b +:+ c))). by rewrite IH.
Qed.

Lemma state_char_in_range n :
  (n < 62)%nat ->
  exists c, charAt OAuth.state_chars n = String c EmptyString /\ is_alnum c = true.
Proof.
  intros Hn.
  assert (forallb (fun n => match String.get n OAuth.state_chars with
                            | Some c => is_alnum c
                            | None => false
                            end) (seq 0 62) = true) as Hall by (vm_compute; done).
  rewrite forallb_forall in Hall.
  specialize (Hall n). unfold charAt.
  destruct (String.get n OAuth.state_chars) as [c|].
  - exists c. split; [done|]. apply Hall, in_seq. lia.
  - discriminate Hall. apply in_seq. lia.
Qed.

Lemma generate_from_spec w count : forall i result,
  (forall j, (i <= j < i + count)%nat -> (OAuth.random_index w j < 62)%nat) ->
  exists drawn,
    OAuth.generate_from w i count result = result +:+ drawn
    /\ String.length drawn = count
    /\ all_chars is_alnum drawn = true.
Proof.
  induction count as [|count IH]; intros i result Hdraws; simpl.
  - exists EmptyString. split_and!; [|done..]. by rewrite append_empty_r.
  - destruct (state_char_in_range (OAuth.random_index w i)) as (c & Hc & Halnum).
    { apply Hdraws. lia. }
    destruct (IH (S i) (result +:+ charAt OAuth.state_chars (OAuth.random_index w i)))
      as (drawn & Hgen & Hlen & Hall).
    { intros j Hj. apply Hdraws. lia. }
    exists (String c drawn). rewrite Hgen, Hc. split_and!.
    + by rewrite append_assoc3.
    + simpl. by rewrite Hlen.
    + simpl. by rewrite Halnum, Hall.
Qed.

(** Without a code (and without an error) the answer is the redirect to the
    authorization page: status 302, no call, and one generated state that
    is both stored in the [oauth_state] cookie and sent in the [state]
    parameter of the [Location] URL.  When every draw picks a position
    inside the 62 characters, the state is 16 letters and digits. *)
Theorem oauth_redirect_carries_one_state req env w :
  OAuth.given (OAuth.error_param req) = false ->
  OAuth.given (OAuth.code_param req) = false ->
  OAuth.handleOAuthFlow req env w
  = (OAuth.mkResponse 302 "Redirecting to Blizzard for authentication..."
       [("Set-Cookie",
         "oauth_state=" +:+ OAuth.generateState w 16
         +:+ "; HttpOnly; Path=/; Max-Age=300");
        ("Location",
         "https://oauth.battle.net/authorize?client_id="
         +:+ encodeURIComponent (OAuth.clientId env)
         +:+ "&response_type=code&redirect_uri="
         +:+ encodeURIComponent (OAuth.redirectUri env)
         +:+ "&scope=openid%20wow.profile&state=" +:+ OAuth.generateState w 16)],
     [])
  /\ ((forall i, (i < 16)%nat -> (OAuth.random_index w i < 62)%nat) ->
      String.length (OAuth.generateState w 16) = 16%nat
      /\ all_chars is_alnum (OAuth.generateState w 16) = true).
Proof.
  intros Herr Hcode. split.
  - unfold OAuth.handleOAuthFlow, OAuth.flow. by rewrite Herr, Hcode.
  - intros Hdraws.
    destruct (generate_from_spec w 16 0 EmptyString) as (drawn & Hgen & Hlen & Hall).
    { intros j Hj. apply Hdraws. lia. }
    unfold OAuth.generateState. rewrite Hgen. by split.
Qed.

Lemma oauth_redirect_carries_one_state_witness :
  OAuth.generateState ok_world 16 = "AHOVcjqx4BIPWdkr"
  /\ String.length (OAuth.generateState ok_world 16) = 16%nat
  /\ fst (OAuth.handleOAuthFlow (OAuth.mkRequest None None None None) ex_env ok_world)
     = OAuth.mkResponse 302 "Redirecting to Blizzard for authentication..."
         [("Set-Cookie", "oauth_state=AHOVcjqx4BIPWdkr; HttpOnly; Path=/; Max-Age=300");
          ("Location",
           "https://oauth.battle.net/authorize?client_id=mock-client-id&response_type=code&redirect_uri=http%3A%2F%2Flocalhost%2Foauth-flow&scope=openid%20wow.profile&state=AHOVcjqx4BIPWdkr")].
Proof.
  destruct (oauth_redirect_carries_one_state (OAuth.mkRequest None None None None)
              ex_env ok_world) as [Hresp Hstate]; [reflexivity..|].
  destruct Hstate as [Hlen _].
  { intros i Hi. unfold ok_world, oauth_world, OAuth.random_index.
    apply Nat.mod_upper_bound. done. }
  split_and!; [reflexivity | exact Hlen | by rewrite Hresp].
Defined.

Lemma oauth_state_mismatch_is_rejected_aux req env w :
  OAuth.given (OAuth.error_param req) = false ->
  OAuth.given (OAuth.code_param req) = true ->
  passes_state_check req = false ->
  OAuth.handleOAuthFlow req env w
  = (OAuth.plain 400 "Invalid state parameter. Authentication aborted.", []).
Proof.
  intros Herr Hcode Hcheck.
  unfold OAuth.handleOAuthFlow, OAuth.flow. rewrite Herr, Hcode. cbn [negb].
  fold (stored_state req). unfold passes_state_check in Hcheck.
  destruct (OAuth.given (OAuth.state_param req)); [|done].
  destruct (OAuth.given (stored_state req)); [|done].
  simpl in Hcheck. by rewrite Hcheck.
Qed.

(** A callback whose [state] parameter is missing or empty, whose
    [oauth_state] cookie is missing or empty, or whose two values differ,
    is answered with status 400, and no call is made: the code is not
    exchanged. *)
Theorem oauth_state_mismatch_is_rejected req env w :
  OAuth.given (OAuth.error_param req) = false ->
  OAuth.given (OAuth.code_param req) = true ->
  (OAuth.given (OAuth.state_param req) = false
   \/ OAuth.given (stored_state req) = false
   \/ OAuth.state_param req <> stored_state req) ->
  OAuth.handleOAuthFlow req env w
  = (OAuth.plain 400 "Invalid state parameter. Authentication aborted.", []).
Proof.
  intros Herr Hcode Hbad.
  unfold OAuth.handleOAuthFlow, OAuth.flow. rewrite Herr, Hcode. cbn [negb].
  fold (stored_state req).
  destruct Hbad as [-> | [-> | Hne]]; [done | by rewrite orb_true_r |].
  rewrite (bool_decide_eq_false_2 _ Hne). by rewrite orb_true_r.
Qed.

Lemma oauth_state_mismatch_is_rejected_witness :
  OAuth.handleOAuthFlow
    (OAuth.mkRequest (Some "mock-auth-code") (Some "wrong-state") None
                     (Some "oauth_state=correct-state"))
    ex_env ok_world
  = (OAuth.plain 400 "Invalid state parameter. Authentication aborted.", []).
Proof.
  apply oauth_state_mismatch_is_rejected; [reflexivity | reflexivity |].
  right. right. vm_compute. discriminate.
Defined.

(** No call is made without the state check: whenever the flow makes a
    call, the request has no [error], it carries a non-empty code, and its
    non-empty [state] parameter equals its [oauth_state] cookie; the first
    call is then the token exchange for that code. *)
Theorem oauth_calls_need_a_matching_state req env w call :
  In call (snd (OAuth.handleOAuthFlow req env w)) ->
  OAuth.given (OAuth.error_param req) = false
  /\ (exists code state,
        OAuth.code_param req = Some code /\ code <> ""
        /\ OAuth.state_param req = Some state /\ state <> ""
        /\ stored_state req = Some state
        /\ exists rest,
             snd (OAuth.handleOAuthFlow req env w)
             = OAuth.TokenExchange (OAuth.basic_authorization env)
                 [("grant_type", "authorization_code"); ("code", code);
                  ("redirect_uri", OAuth.redirectUri env)]
               :: rest).
Proof.
  intros Hin.
  destruct (OAuth.given (OAuth.error_param req)) eqn:Herr.
  { unfold OAuth.handleOAuthFlow, OAuth.flow in Hin. rewrite Herr in Hin.
    destruct Hin. }
  destruct (OAuth.given (OAuth.code_param req)) eqn:Hcode.
  2:{ unfold OAuth.handleOAuthFlow, OAuth.flow in Hin. rewrite Herr, Hcode in Hin.
      destruct Hin. }
  destruct (passes_state_check req) eqn:Hcheck.
  2:{ rewrite oauth_state_mismatch_is_rejected_aux in Hin; [destruct Hin|done..]. }
  split; [done|].
  pose proof Hcheck as Hc. unfold passes_state_check in Hc.
  apply andb_true_iff in Hc as [Hc Heq]. apply andb_true_iff in Hc as [Hstate _].
  apply bool_decide_eq_true_1 in Heq.
  destruct (OAuth.code_param req) as [code|] eqn:Ecode; [|done].
  destruct (OAuth.state_param req) as [state|] eqn:Estate; [|done].
  exists code, state. simpl in Hcode, Hstate.
  apply negb_true_iff, String.eqb_neq in Hcode.
  apply negb_true_iff, String.eqb_neq in Hstate.
  split_and!; try done.
  rewrite (oauth_flow_after_check req env w Herr); [|by rewrite Ecode; simpl;
    apply negb_true_iff, String.eqb_neq | done].
  unfold token_call, OAuth.token_form. rewrite Ecode. simpl.
  destruct (token_fetched _ _ _) as [res|]; [|eauto].
  destruct (negb (res_ok res)); [eauto|].
  destruct (res_json res) as [tokenData|]; [|eauto]. simpl.
  destruct (OAuth.userinfo_endpoint w _) as [res'|]; [|eauto].
  destruct (negb (res_ok res')); [eauto|].
  destruct (res_json res') as [userInfo|]; [|eauto].
  destruct (negb (expiry_in_range w _)); eauto.
Qed.

Lemma oauth_calls_need_a_matching_state_witness :
  OAuth.given (OAuth.error_param callback_request) = false
  /\ (exists code state,
        OAuth.code_param callback_request = Some code /\ code <> ""
        /\ OAuth.state_param callback_request = Some state /\ state <> ""
        /\ stored_state callback_request = Some state
        /\ exists rest,
             snd (OAuth.handleOAuthFlow callback_request ex_env ok_world)
             = OAuth.TokenExchange (OAuth.basic_authorization ex_env)
                 [("grant_type", "authorization_code"); ("code", code);
                  ("redirect_uri", OAuth.redirectUri ex_env)]
               :: rest).
Proof.
  apply (oauth_calls_need_a_matching_state callback_request ex_env ok_world
           (OAuth.FetchUserInfo "Bearer mock-access-token")).
  vm_compute. tauto.
Defined.

(** ** The state cookie *)

Lemma fromEntries_last entries k v :
  OAuth.fromEntries (entries ++ [(k, v)]) !! k = Some v.
Proof.
  unfold OAuth.fromEntries. rewrite fold_left_app. simpl.
  apply lookup_insert_eq.
Qed.

Lemma state_entry s :
  trim_end s = s ->
  OAuth.cookie_entry ("oauth_state=" +:+ s) = ("oauth_state", s)
  /\ OAuth.cookie_entry (" oauth_state=" +:+ s) = ("oauth_state", s).
Proof.
  intros Htrim.
  assert (trim ("oauth_state=" +:+ s) = "oauth_state=" +:+ s
          /\ trim (" oauth_state=" +:+ s) = "oauth_state=" +:+ s) as [H1 H2].
  { unfold trim.
    change (trim_start (" oauth_state=" +:+ s)) with ("oauth_state=" +:+ s).
    change (trim_start ("oauth_state=" +:+ s)) with ("oauth_state=" +:+ s).
    assert (trim_end ("oauth_state=" +:+ s) = "oauth_state=" +:+ s) as ->; [|done].
    change ("oauth_state=" +:+ s)
      with (String "o" (String "a" (String "u" (String "t" (String "h"
            (String "_" (String "s" (String "t" (String "a" (String "t"
            (String "e" (String "=" s)))))))))))).
    rewrite !trim_end_keeps by done. by rewrite Htrim. }
  unfold OAuth.cookie_entry. rewrite H1, H2.
  change ("oauth_state=" +:+ s) with ("oauth_state" +:+ String "=" s).
  rewrite split_on_app.
  change (split_on "=" "oauth_state") with ["oauth_state"]. simpl.
  by rewrite join_split.
Qed.

Lemma state_cookie_alone (s : string) :
  has_char ";" s = false ->
  trim_end s = s ->
  OAuth.parse_cookies (Some ("oauth_state=" +:+ s)) !! "oauth_state" = Some s.
Proof.
  intros Hsemi Htrim. destruct (state_entry s Htrim) as [E1 _].
  unfold OAuth.parse_cookies. rewrite split_on_no_sep by done.
  simpl. rewrite E1. apply (fromEntries_last []).
Qed.

(** The state cookie comes back unchanged: for a value without [;] that
    does not end in white space, the [Cookie] header [oauth_state=value],
    alone or after any other cookies, is read as that value, [=] signs
    inside it included. *)
Theorem state_cookie_round_trip (s : string) :
  has_char ";" s = false ->
  trim_end s = s ->
  OAuth.parse_cookies (Some ("oauth_state=" +:+ s)) !! "oauth_state" = Some s
  /\ forall before,
       OAuth.parse_cookies (Some (before +:+ "; oauth_state=" +:+ s)) !! "oauth_state"
       = Some s.
Proof.
  intros Hsemi Htrim. destruct (state_entry s Htrim) as [E1 E2].
  split; [by apply state_cookie_alone|].
  intros before. unfold OAuth.parse_cookies.
  change (before +:+ "; oauth_state=" +:+ s)
    with (before +:+ String ";" (" oauth_state=" +:+ s)).
  rewrite split_on_app, map_app.
  rewrite (split_on_no_sep ";" (" oauth_state=" +:+ s)) by done.
  simpl. rewrite E2. apply fromEntries_last.
Qed.

Lemma state_cookie_round_trip_witness :
  OAuth.parse_cookies (Some "session=abc; oauth_state=a=b c") !! "oauth_state"
  = Some "a=b c".
Proof.
  destruct (state_cookie_round_trip "a=b c") as [_ H]; [reflexivity..|].
  apply (H "session=abc").
Defined.

(** The two steps of the flow fit together: the state generated for the
    redirect, sent back as the [state] parameter and as the [oauth_state]
    cookie with a non-empty code, passes the state check, so the handler
    goes on to exchange the code. *)
Theorem generated_state_passes_the_check env w w' code :
  (forall i, (i < 16)%nat -> (OAuth.random_index w i < 62)%nat) ->
  code <> "" ->
  exists rest,
    snd (OAuth.handleOAuthFlow
           (OAuth.mkRequest (Some code) (Some (OAuth.generateState w 16)) None
              (Some ("oauth_state=" +:+ OAuth.generateState w 16)))
           env w')
    = OAuth.TokenExchange (OAuth.basic_authorization env)
        [("grant_type", "authorization_code"); ("code", code);
         ("redirect_uri", OAuth.redirectUri env)]
      :: rest.
Proof.
  intros Hdraws Hcode.
  destruct (generate_from_spec w 16 0 EmptyString) as (drawn & Hgen & Hlen & Hall).
  { intros j Hj. apply Hdraws. lia. }
  unfold OAuth.generateState. rewrite Hgen.
  change (EmptyString +:+ drawn) with drawn.
  destruct (alnum_string_is_clean drawn Hall) as [Hsemi Htrim].
  pose proof (state_cookie_alone drawn Hsemi Htrim) as Hcookie.
  set (req := OAuth.mkRequest (Some code) (Some drawn) None
                              (Some ("oauth_state=" +:+ drawn))).
  assert (drawn <> "") as Hne by (intros ->; done).
  assert (passes_state_check req = true) as Hcheck.
  { unfold passes_state_check, stored_state. simpl. rewrite Hcookie. simpl.
    apply String.eqb_neq in Hne. rewrite Hne. simpl.
    by apply bool_decide_eq_true_2. }
  rewrite (oauth_flow_after_check req env w'); [|done | | done].
  2:{ simpl. by apply negb_true_iff, String.eqb_neq. }
  unfold token_call, OAuth.token_form. simpl.
  destruct (token_fetched _ _ _) as [res|]; [|eauto].
  destruct (negb (res_ok res)); [eauto|].
  destruct (res_json res) as [tokenData|]; [|eauto]. simpl.
  destruct (OAuth.userinfo_endpoint w' _) as [res'|]; [|eauto].
  destruct (negb (res_ok res')); [eauto|].
  destruct (res_json res') as [userInfo|]; [|eauto].
  destruct (negb (expiry_in_range w' _)); eauto.
Qed.

Lemma generated_state_passes_the_check_witness :
  exists rest,
    snd (OAuth.handleOAuthFlow
           (OAuth.mkRequest (Some "mock-auth-code") (Some "AHOVcjqx4BIPWdkr") None
              (Some "oauth_state=AHOVcjqx4BIPWdkr"))
           ex_env ok_world)
    = OAuth.TokenExchange "Basic bW9jay1jbGllbnQtaWQ6bW9jay1jbGllbnQtc2VjcmV0"
        [("grant_type", "authorization_code"); ("code", "mock-auth-code");
         ("redirect_uri", "http://localhost/oauth-flow")]
      :: rest.
Proof.
  apply (generated_state_passes_the_check ex_env ok_world ok_world "mock-auth-code").
  - intros i Hi. unfold ok_world, oauth_world, OAuth.random_index.
    apply Nat.mod_upper_bound. done.
  - discriminate.
Defined.

(** ** After the state check *)

(** A user row is written only after both fetches were answered with an ok
    status and a body that can be read, and it holds what they returned:
    the id and the battletag of the user-info response, which was requested
    with the access token just obtained; that access token; the refresh
    token, or [null] when it is missing or empty; and as expiry the current
    time plus [expires_in] seconds, in milliseconds. *)
Theorem stored_user_row_comes_from_the_fetches req env w row :
  In (OAuth.UpsertUser row) (snd (OAuth.handleOAuthFlow req env w)) ->
  exists tokenResponse tokenData userInfoResp userInfo,
    token_fetched req env w = Resolved tokenResponse
    /\ res_ok tokenResponse = true
    /\ res_json tokenResponse = Readable tokenData
    /\ OAuth.userinfo_endpoint w ("Bearer " +:+ OAuth.access_token tokenData)
       = Resolved userInfoResp
    /\ res_ok userInfoResp = true
    /\ res_json userInfoResp = Readable userInfo
    /\ OAuth.row_battlenet_id row = OAuth.id userInfo
    /\ OAuth.row_battletag row = OAuth.battletag userInfo
    /\ OAuth.row_access_token row = OAuth.access_token tokenData
    /\ OAuth.row_refresh_token row
       = match OAuth.refresh_token tokenData with
         | Some t => if String.eqb t "" then None else Some t
         | None => None
         end
    /\ OAuth.row_token_expires_at row
       = OAuth.now w + OAuth.expires_in tokenData * 1000.
Proof.
  intros Hin.
  destruct (OAuth.given (OAuth.error_param req)) eqn:Herr.
  { unfold OAuth.handleOAuthFlow, OAuth.flow in Hin. rewrite Herr in Hin.
    destruct Hin. }
  destruct (OAuth.given (OAuth.code_param req)) eqn:Hcode.
  2:{ unfold OAuth.handleOAuthFlow, OAuth.flow in Hin. rewrite Herr, Hcode in Hin.
      destruct Hin. }
  destruct (passes_state_check req) eqn:Hcheck.
  2:{ rewrite oauth_state_mismatch_is_rejected_aux in Hin; [destruct Hin|done..]. }
  rewrite (oauth_flow_after_check req env w Herr Hcode Hcheck) in Hin.
  destruct (token_fetched req env w) as [tokenResponse|] eqn:Etoken.
  2:{ destruct Hin as [Hin|[]]. discriminate Hin. }
  destruct (res_ok tokenResponse) eqn:Hok1; cbn [negb] in Hin.
  2:{ destruct Hin as [Hin|[]]. discriminate Hin. }
  destruct (res_json tokenResponse) as [tokenData|] eqn:Ebody1.
  2:{ destruct Hin as [Hin|[]]. discriminate Hin. }
  unfold bearer_of in Hin.
  destruct (OAuth.userinfo_endpoint w _) as [userInfoResp|] eqn:Einfo.
  2:{ destruct Hin as [Hin|[Hin|[]]]; discriminate Hin. }
  destruct (res_ok userInfoResp) eqn:Hok2; cbn [negb] in Hin.
  2:{ destruct Hin as [Hin|[Hin|[]]]; discriminate Hin. }
  destruct (res_json userInfoResp) as [userInfo|] eqn:Ebody2.
  2:{ destruct Hin as [Hin|[Hin|[]]]; discriminate Hin. }
  destruct (negb (expiry_in_range w tokenData)).
  { destruct Hin as [Hin|[Hin|[]]]; discriminate Hin. }
  destruct Hin as [Hin|[Hin|[Hin|[]]]]; try discriminate Hin.
  injection Hin as <-.
  exists tokenResponse, tokenData, userInfoResp, userInfo. by split_and!.
Qed.

Lemma stored_user_row_comes_from_the_fetches_witness :
  exists tokenResponse tokenData userInfoResp userInfo,
    token_fetched callback_request ex_env ok_world = Resolved tokenResponse
    /\ res_ok tokenResponse = true
    /\ res_json tokenResponse = Readable tokenData
    /\ OAuth.userinfo_endpoint ok_world
         ("Bearer " +:+ OAuth.access_token tokenData)
       = Resolved userInfoResp
    /\ res_ok userInfoResp = true
    /\ res_json userInfoResp = Readable userInfo
    /\ 12345 = OAuth.id userInfo
    /\ "TestUser#1234" = OAuth.battletag userInfo
    /\ "mock-access-token" = OAuth.access_token tokenData
    /\ Some "mock-refresh-token"
       = match OAuth.refresh_token tokenData with
         | Some t => if String.eqb t "" then None else Some t
         | None => None
         end
    /\ 1745863600000 = OAuth.now ok_world + OAuth.expires_in tokenData * 1000.
Proof.
  apply (stored_user_row_comes_from_the_fetches callback_request ex_env ok_world
           (OAuth.mkUserRow 12345 "TestUser#1234" "mock-access-token"
                            (Some "mock-refresh-token") 1745863600000)).
  vm_compute. tauto.
Defined.

(** A callback that passes the state check and whose two fetches are
    answered with an ok status and a body that can be read, with an expiry
    inside the range of dates, makes exactly three calls, in this order:
    the token exchange, the user-info request and the upsert of the user
    row.  The answer is the page with status 200 and content type
    [text/html] when the store reports no error, and status 500 otherwise.
    When the body of one of the two ok answers cannot be read, the answer
    is the 500 response of the [catch] block, that fetch is the last call
    and nothing is stored. *)
Theorem oauth_login_stores_the_user req env w tokenResponse :
  OAuth.given (OAuth.error_param req) = false ->
  OAuth.given (OAuth.code_param req) = true ->
  passes_state_check req = true ->
  token_fetched req env w = Resolved tokenResponse ->
  res_ok tokenResponse = true ->
  (forall reason,
     res_json tokenResponse = Unreadable reason ->
     OAuth.handleOAuthFlow req env w
     = (OAuth.plain 500 "Internal Server Error during OAuth process.",
        [token_call req env]))
  /\ (forall tokenData userInfoResp,
        res_json tokenResponse = Readable tokenData ->
        OAuth.userinfo_endpoint w (bearer_of tokenData) = Resolved userInfoResp ->
        res_ok userInfoResp = true ->
        (forall reason,
           res_json userInfoResp = Unreadable reason ->
           OAuth.handleOAuthFlow req env w
           = (OAuth.plain 500 "Internal Server Error during OAuth process.",
              [token_call req env; OAuth.FetchUserInfo (bearer_of tokenData)]))
        /\ (forall userInfo,
              res_json userInfoResp = Readable userInfo ->
              expiry_in_range w tokenData = true ->
              let row := user_row w tokenData userInfo in
              snd (OAuth.handleOAuthFlow req env w)
              = [token_call req env; OAuth.FetchUserInfo (bearer_of tokenData);
                 OAuth.UpsertUser row]
              /\ (error (OAuth.users_upsert w row) = None ->
                  fst (OAuth.handleOAuthFlow req env w)
                  = OAuth.mkResponse 200 OAuth.responseHtml
                      [("Content-Type", "text/html")])
              /\ (is_Some (error (OAuth.users_upsert w row)) ->
                  fst (OAuth.handleOAuthFlow req env w)
                  = OAuth.plain 500 "Database error while saving user data."))).
Proof.
  intros Herr Hcode Hcheck Htoken Hok1.
  rewrite (oauth_flow_after_check req env w Herr Hcode Hcheck).
  rewrite Htoken, Hok1. cbn [negb]. split.
  - by intros reason ->.
  - intros tokenData userInfoResp -> Hinfo Hok2. rewrite Hinfo, Hok2. cbn [negb].
    split; [by intros reason ->|].
    intros userInfo -> Hexp. rewrite Hexp. cbn [negb fst snd].
    split_and!; [done | by intros -> | by intros [msg ->]].
Qed.

Lemma oauth_login_stores_the_user_witness :
  OAuth.handleOAuthFlow callback_request ex_env ok_world
  = (OAuth.mkResponse 200 OAuth.responseHtml [("Content-Type", "text/html")],
     [OAuth.TokenExchange "Basic bW9jay1jbGllbnQtaWQ6bW9jay1jbGllbnQtc2VjcmV0"
        [("grant_type", "authorization_code"); ("code", "mock-auth-code");
         ("redirect_uri", "http://localhost/oauth-flow")];
      OAuth.FetchUserInfo "Bearer mock-access-token";
      OAuth.UpsertUser
        (OAuth.mkUserRow 12345 "TestUser#1234" "mock-access-token"
                         (Some "mock-refresh-token") 1745863600000)])
  /\ OAuth.handleOAuthFlow callback_request ex_env not_json_world
     = (OAuth.plain 500 "Internal Server Error during OAuth process.",
        [OAuth.TokenExchange "Basic bW9jay1jbGllbnQtaWQ6bW9jay1jbGllbnQtc2VjcmV0"
           [("grant_type", "authorization_code"); ("code", "mock-auth-code");
            ("redirect_uri", "http://localhost/oauth-flow")];
         OAuth.FetchUserInfo "Bearer mock-access-token"]).
Proof.
  split.
  - destruct (oauth_login_stores_the_user callback_request ex_env ok_world
                (mkFetch 200 (Readable ex_token))
                eq_refl eq_refl eq_refl eq_refl eq_refl) as [_ Hread].
    destruct (Hread ex_token (mkFetch 200 (Readable ex_userinfo))
                eq_refl eq_refl eq_refl) as [_ Hgood].
    destruct (Hgood ex_userinfo eq_refl eq_refl) as (Htrace & Hok & _).
    apply injective_projections; [apply Hok; reflexivity | exact Htrace].
  - destruct (oauth_login_stores_the_user callback_request ex_env not_json_world
                (mkFetch 200 (Readable ex_token))
                eq_refl eq_refl eq_refl eq_refl eq_refl) as [_ Hread].
    destruct (Hread ex_token
                (mkFetch 200 (Unreadable "Unexpected token < in JSON at position 0"))
                eq_refl eq_refl eq_refl) as [Hbad _].
    by apply (Hbad "Unexpected token < in JSON at position 0").
Defined.

(** A fetch that fails ends the flow with status 500 before anything is
    stored.  A token exchange answered with a non-ok status, or rejected,
    is the only call of the flow; after a token exchange that went well, a
    user-info request answered with a non-ok status, or rejected, is the
    last call. *)
Theorem oauth_failed_fetch_stores_nothing req env w :
  OAuth.given (OAuth.error_param req) = false ->
  OAuth.given (OAuth.code_param req) = true ->
  passes_state_check req = true ->
  (forall res, token_fetched req env w = Resolved res -> res_ok res = false ->
     OAuth.handleOAuthFlow req env w
     = (OAuth.plain 500 "Failed to exchange authorization code for token.",
        [token_call req env]))
  /\ (forall reason, token_fetched req env w = Rejected reason ->
        OAuth.handleOAuthFlow req env w
        = (OAuth.plain 500 "Internal Server Error during OAuth process.",
           [token_call req env]))
  /\ (forall res tokenData,
        token_fetched req env w = Resolved res -> res_ok res = true ->
        res_json res = Readable tokenData ->
        (forall res', OAuth.userinfo_endpoint w (bearer_of tokenData)
                      = Resolved res' -> res_ok res' = false ->
           OAuth.handleOAuthFlow req env w
           = (OAuth.plain 500 "Failed to retrieve user information.",
              [token_call req env; OAuth.FetchUserInfo (bearer_of tokenData)]))
        /\ (forall reason, OAuth.userinfo_endpoint w (bearer_of tokenData)
                           = Rejected reason ->
              OAuth.handleOAuthFlow req env w
              = (OAuth.plain 500 "Internal Server Error during OAuth process.",
                 [token_call req env;
                  OAuth.FetchUserInfo (bearer_of tokenData)]))).
Proof.
  intros Herr Hcode Hcheck.
  rewrite (oauth_flow_after_check req env w Herr Hcode Hcheck).
  split_and!.
  - intros res -> Hok. by rewrite Hok.
  - by intros reason ->.
  - intros res tokenData -> Hok ->. rewrite Hok. cbn [negb]. split.
    + intros res' -> Hok'. by rewrite Hok'.
    + by intros reason ->.
Qed.

Lemma oauth_failed_fetch_stores_nothing_witness :
  OAuth.handleOAuthFlow callback_request ex_env
    (oauth_world (Resolved (mkFetch 400 (Readable ex_token)))
                 (Resolved (mkFetch 200 (Readable ex_userinfo))) (mkSb None None))
  = (OAuth.plain 500 "Failed to exchange authorization code for token.",
     [OAuth.TokenExchange "Basic bW9jay1jbGllbnQtaWQ6bW9jay1jbGllbnQtc2VjcmV0"
        [("grant_type", "authorization_code"); ("code", "mock-auth-code");
         ("redirect_uri", "http://localhost/oauth-flow")]]).
Proof.
  destruct (oauth_failed_fetch_stores_nothing callback_request ex_env
              (oauth_world (Resolved (mkFetch 400 (Readable ex_token)))
                           (Resolved (mkFetch 200 (Readable ex_userinfo)))
                           (mkSb None None)))
    as (Hbad & _); [reflexivity..|].
  apply (Hbad (mkFetch 400 (Readable ex_token))); reflexivity.
Defined.

(** ** The authorization URL *)

Lemma hex_digit_unreserved n : uri_unreserved (hex_digit n) = true.
Proof.
  do 16 (destruct n as [|n]; [done|]). done.
Qed.

Lemma percent_byte_safe n :
  all_chars (fun c => uri_unreserved c || Ascii.eqb c "%") (percent_byte n) = true.
Proof.
  unfold percent_byte. simpl. by rewrite !hex_digit_unreserved.
Qed.

Lemma all_chars_append p a b :
  all_chars p (a +:+ b) = all_chars p a && all_chars p b.
Proof.
  induction a as [|c rest IH]; [done|].
  change (p c && all_chars p (rest +:+ b) = p c && all_chars p rest && all_chars p b).
  by rewrite IH, andb_assoc.
Qed.

(** What [encodeURIComponent] returns consists of unreserved characters
    and [%] only, so the client id and the redirect URI cannot add a [&],
    [=], [#], [?] or a space to the authorization URL; a string of
    unreserved characters is returned as it is. *)
Theorem encoded_component_is_query_safe (s : string) :
  all_chars (fun c => uri_unreserved c || Ascii.eqb c "%") (encodeURIComponent s)
  = true
  /\ Forall (fun c => has_char c (encodeURIComponent s) = false)
            ["&"; "="; "#"; "?"; " "; "/"; ":"; ";"; "+"]%char
  /\ (all_chars uri_unreserved s = true -> encodeURIComponent s = s).
Proof.
  assert (forall (p : ascii -> bool) t c,
            all_chars p t = true -> p c = false -> has_char c t = false) as Hhas.
  { intros p t c. induction t as [|x r IH]; simpl; [done|].
    intros [Hx Hr]%andb_true_iff Hc. rewrite (IH Hr Hc), orb_false_r.
    apply Ascii.eqb_neq. intros ->. congruence. }
  assert (all_chars (fun c => uri_unreserved c || Ascii.eqb c "%")
                    (encodeURIComponent s) = true) as Hsafe.
  { induction s as [|c rest IH]; [done|].
    change (encodeURIComponent (String c rest))
      with (encode_unit c +:+ encodeURIComponent rest).
    rewrite all_chars_append, IH, andb_true_r. unfold encode_unit.
    destruct (uri_unreserved c) eqn:U; [simpl; by rewrite U|].
    destruct (_ <? 128)%nat; [apply percent_byte_safe|].
    by rewrite all_chars_append, !percent_byte_safe. }
  split_and!; [done | |].
  - repeat constructor; by apply (Hhas _ _ _ Hsafe).
  - clear Hsafe. induction s as [|c rest IH]; [done|]. simpl.
    intros [Hc Hrest]%andb_true_iff.
    change (encodeURIComponent (String c rest))
      with (encode_unit c +:+ encodeURIComponent rest).
    unfold encode_unit. rewrite Hc, (IH Hrest). done.
Qed.

(** * Properties of the static-data sync *)

Section FlowFacts.

Context {E R : Type}.

Lemma and_then_inv {A B} (m : Flow E R A) (k : A -> Flow E R B) b t :
  and_then m k = (Went b, t) ->
  exists a t1 t2, m = (Went a, t1) /\ k a = (Went b, t2) /\ t = t1 ++ t2.
Proof.
  destruct m as [[a|r|msg] t1]; simpl; try done.
  destruct (k a) as [s t2] eqn:Hk. intros [= -> <-]. by exists a, t1, t2.
Qed.

Lemma and_then_went {A B} (m : Flow E R A) (k : A -> Flow E R B) a t :
  m = (Went a, t) -> and_then m k = (fst (k a), t ++ snd (k a)).
Proof. intros ->. simpl. by destruct (k a). Qed.

Lemma try_catch_pair (m : Flow E R Empty_set) (onError : string -> R) :
  try_catch m onError
  = (match fst m with
     | Went v => match v with end
     | Answered r => r
     | Threw msg => onError msg
     end, snd m).
Proof. by destruct m as [[v|r|msg] t]; [destruct v|..]. Qed.

Lemma pure_computes {A} (a : A) : computes (pure (E:=E) (R:=R) a).
Proof. by split. Qed.

Lemma raise_computes {A} msg : computes (raise (E:=E) (R:=R) (A:=A) msg).
Proof. by split. Qed.

Lemma and_then_computes {A B} (m : Flow E R A) (k : A -> Flow E R B) :
  computes m -> (forall a, computes (k a)) -> computes (and_then m k).
Proof.
  destruct m as [[a|r|msg] t]; intros [Ht Hr] Hk; simpl in *; subst t.
  - destruct (Hk a) as [Hka Hkr]. by destruct (k a) as [s t'].
  - by destruct (Hr r).
  - by split.
Qed.

Lemma computes_inv {A} (m : Flow E R A) :
  computes m -> (exists a, m = (Went a, [])) \/ (exists msg, m = (Threw msg, [])).
Proof.
  destruct m as [[a|r|msg] t]; intros [Ht Hr]; simpl in *; subst t; eauto.
  by destruct (Hr r).
Qed.

Context {Value : Type} `{JsValues Value}.

Lemma read_computes (v : Value) p : computes (read (E:=E) (R:=R) v p).
Proof. unfold read. by destruct (js_nullish v). Qed.

Lemma map_in_order_computes {A B} (f : A -> Flow E R B) l :
  (forall a, computes (f a)) -> computes (map_in_order f l).
Proof.
  intros Hf. induction l as [|a rest IH]; [done|]. simpl.
  apply and_then_computes; [done|]. intros b.
  apply and_then_computes; [done|]. intros bs. apply pure_computes.
Qed.

Lemma map_in_order_inv {A B} (f : A -> Flow E R B) l bs t :
  map_in_order f l = (Went bs, t) ->
  Forall2 (fun a b => exists t', f a = (Went b, t')) l bs.
Proof.
  revert bs t. induction l as [|a rest IH]; simpl; intros bs t.
  - intros [= <- <-]. constructor.
  - intros (b & t1 & t2 & Hb & Hrest & _)%and_then_inv.
    apply and_then_inv in Hrest as (bs' & t3 & t4 & Hbs & Hpure & _).
    injection Hpure as <- <-. constructor; eauto.
Qed.

Lemma map_entries_computes {B} name (data : Value) prop (f : Value -> Flow E R B) :
  (forall a, computes (f a)) -> computes (map_entries name data prop f).
Proof.
  intros Hf. unfold map_entries. apply and_then_computes; [apply read_computes|].
  intros array. destruct (js_truthy array); [|apply pure_computes].
  destruct (js_items array); [|apply raise_computes]. by apply map_in_order_computes.
Qed.

(** The rows of [(data[prop] || []).map(f)]: one per entry, each made by
    [f] from its entry. *)
Lemma map_entries_inv {B} name (data : Value) prop (f : Value -> Flow E R B) bs t :
  map_entries name data prop f = (Went bs, t) ->
  exists entries,
    Forall2 (fun a b => exists t', f a = (Went b, t')) entries bs.
Proof.
  unfold map_entries. intros (array & t1 & t2 & _ & Hmap & _)%and_then_inv.
  destruct (js_truthy array).
  - destruct (js_items array) as [entries|]; [|done].
    exists entries. by eapply map_in_order_inv.
  - injection Hmap as <- <-. exists []. constructor.
Qed.

End FlowFacts.

Ltac stage_done := eexists; split; [reflexivity|]; simpl; auto.

Section StaticFacts.

Context {Value : Type} `{JsValues Value}.

Variable env : StaticData.SyncEnv.
Variable w : StaticData.World Value.

Lemma localized_name_inv x n t :
  StaticData.localized_name env x = (Went n, t) -> name_or_null n.
Proof.
  unfold StaticData.localized_name.
  intros (name & t1 & t2 & _ & Hpure & _)%and_then_inv.
  injection Hpure as <- <-.
  set (first := or_else _ name). unfold or_else, name_or_null.
  destruct (js_truthy first) eqn:Ht; auto.
Qed.

Lemma localized_name_computes x : computes (StaticData.localized_name env x).
Proof.
  unfold StaticData.localized_name.
  apply and_then_computes; [apply read_computes|]. intros. apply pure_computes.
Qed.

Lemma class_row_computes cls : computes (StaticData.class_row env cls).
Proof.
  unfold StaticData.class_row.
  apply and_then_computes; [apply read_computes|]. intros id.
  apply and_then_computes; [apply localized_name_computes|].
  intros. apply pure_computes.
Qed.

Lemma race_row_computes race : computes (StaticData.race_row env race).
Proof.
  unfold StaticData.race_row.
  apply and_then_computes; [apply read_computes|]. intros id.
  apply and_then_computes; [apply localized_name_computes|]. intros name.
  apply and_then_computes; [apply read_computes|]. intros faction.
  destruct (js_truthy faction); [|apply pure_computes].
  apply and_then_computes; [apply read_computes|]. intros. apply pure_computes.
Qed.

Lemma realm_row_computes realm : computes (StaticData.realm_row env realm).
Proof.
  unfold StaticData.realm_row.
  apply and_then_computes; [apply read_computes|]. intros id.
  apply and_then_computes; [apply localized_name_computes|]. intros name.
  apply and_then_computes; [apply read_computes|]. intros. apply pure_computes.
Qed.

Lemma class_row_inv cls row t :
  StaticData.class_row env cls = (Went row, t) ->
  name_or_null (StaticData.crow_name row).
Proof.
  unfold StaticData.class_row.
  intros (id & t1 & t2 & _ & Hrest & _)%and_then_inv.
  apply and_then_inv in Hrest as (name & t3 & t4 & Hname & Hpure & _).
  injection Hpure as <- <-. simpl. by apply localized_name_inv in Hname.
Qed.

Lemma race_row_inv race row t :
  StaticData.race_row env race = (Went row, t) ->
  name_or_null (StaticData.rrow_name row).
Proof.
  unfold StaticData.race_row.
  intros (id & t1 & t2 & _ & Hrest & _)%and_then_inv.
  apply and_then_inv in Hrest as (name & t3 & t4 & Hname & Hrest & _).
  apply localized_name_inv in Hname.
  apply and_then_inv in Hrest as (faction & t5 & t6 & _ & Hrest & _).
  destruct (js_truthy faction).
  - apply and_then_inv in Hrest as (fname & t7 & t8 & _ & Hpure & _).
    by injection Hpure as <- <-.
  - by injection Hrest as <- <-.
Qed.

Lemma realm_row_inv realm row t :
  StaticData.realm_row env realm = (Went row, t) ->
  name_or_null (StaticData.lrow_name row)
  /\ StaticData.lrow_region row = StaticData.apiRegion env.
Proof.
  unfold StaticData.realm_row.
  intros (id & t1 & t2 & _ & Hrest & _)%and_then_inv.
  apply and_then_inv in Hrest as (name & t3 & t4 & Hname & Hrest & _).
  apply localized_name_inv in Hname.
  apply and_then_inv in Hrest as (slug & t5 & t6 & _ & Hpure & _).
  by injection Hpure as <- <-.
Qed.

Lemma rows_Forall {Row} (row : Value -> StaticData.Sync Value Row) (P : Row -> Prop)
    (entries : list Value) rows :
  (forall a b t, row a = (Went b, t) -> P b) ->
  Forall2 (fun a b => exists t', row a = (Went b, t')) entries rows ->
  Forall P rows.
Proof.
  intros HP Hrows. induction Hrows as [|a b ? ? [t' Hb] _ IH]; constructor; eauto.
Qed.

(** Step 1 makes the token request and nothing else. *)
Lemma fetch_token_cases :
  exists s,
    StaticData.fetch_token env w = (s, [static_token_call env])
    /\ match s with
       | Went token => app_token env w = Some token
       | Answered r => app_token env w = None /\ StaticData.status r = 500
       | Threw _ => app_token env w = None
       end.
Proof.
  unfold StaticData.fetch_token, app_token, static_token_call.
  destruct (StaticData.token_endpoint w _ _) as [res|reason]; simpl;
    [|stage_done].
  destruct (res_ok res); simpl; [|stage_done].
  unfold json_of. destruct (res_json res) as [tokenData|message]; simpl;
    [|stage_done].
  unfold read. destruct (js_nullish tokenData); simpl; stage_done.
Qed.

(** Each of the steps 2 to 4 makes its index request and nothing else. *)
Lemma fetch_rows_cases {Row} what url (row : Value -> StaticData.Sync Value Row) :
  (forall v, computes (row v)) ->
  exists s,
    StaticData.fetch_rows w what url row = (s, [StaticData.FetchIndex url])
    /\ match s with
       | Went rows =>
           fetched_ok (StaticData.index_endpoint w url) = true
           /\ exists entries,
                Forall2 (fun a b => exists t', row a = (Went b, t')) entries rows
       | Answered r =>
           fetched_ok (StaticData.index_endpoint w url) = false
           /\ StaticData.status r = 502
       | Threw _ => True
       end.
Proof.
  intros Hrow. unfold StaticData.fetch_rows, fetched_ok.
  destruct (StaticData.index_endpoint w url) as [res|reason]; simpl;
    [|stage_done].
  destruct (res_ok res); simpl; [|stage_done].
  unfold json_of. destruct (res_json res) as [data|message]; simpl;
    [|stage_done].
  destruct (computes_inv _ (map_entries_computes (E:=StaticData.Call Value)
                              (R:=StaticData.Response)
                              (what +:+ "Array") data what row Hrow))
    as [[rows Hmap]|[msg Hmap]]; rewrite Hmap; simpl; [|stage_done].
  eexists; split; [reflexivity|]. simpl. split; [done|].
  by eapply map_entries_inv.
Qed.

Lemma upsert_all_cases classRows raceRows realmRows :
  StaticData.upsert_all w classRows raceRows realmRows
  = match error (StaticData.classes_upsert w classRows) with
    | Some message =>
        (Threw ("DB upsert error (classes): " +:+ message),
         [StaticData.UpsertClasses classRows])
    | None =>
        match error (StaticData.races_upsert w raceRows) with
        | Some message =>
            (Threw ("DB upsert error (races): " +:+ message),
             [StaticData.UpsertClasses classRows; StaticData.UpsertRaces raceRows])
        | None =>
            match error (StaticData.realms_upsert w realmRows) with
            | Some message =>
                (Threw ("DB upsert error (realms): " +:+ message),
                 [StaticData.UpsertClasses classRows;
                  StaticData.UpsertRaces raceRows;
                  StaticData.UpsertRealms realmRows])
            | None =>
                (Went tt,
                 [StaticData.UpsertClasses classRows;
                  StaticData.UpsertRaces raceRows;
                  StaticData.UpsertRealms realmRows])
            end
        end
    end.
Proof.
  unfold StaticData.upsert_all. simpl.
  destruct (error (StaticData.classes_upsert w classRows)); [done|].
  destruct (error (StaticData.races_upsert w raceRows)); [done|].
  by destruct (error (StaticData.realms_upsert w realmRows)).
Qed.

Lemma upsert_all_error classRows raceRows realmRows call message :
  In call (snd (StaticData.upsert_all w classRows raceRows realmRows)) ->
  upsert_error w call = Some message ->
  (exists before,
     snd (StaticData.upsert_all w classRows raceRows realmRows) = before ++ [call])
  /\ fst (StaticData.upsert_all w classRows raceRows realmRows)
     = Threw ("DB upsert error (" +:+ table_of call +:+ "): " +:+ message).
Proof.
  rewrite upsert_all_cases.
  destruct (error (StaticData.classes_upsert w classRows)) as [m1|] eqn:E1.
  { intros [<-|[]]. simpl. rewrite E1. intros [= <-]. split; [by exists []|done]. }
  destruct (error (StaticData.races_upsert w raceRows)) as [m2|] eqn:E2.
  { intros [<-|[<-|[]]]; simpl; [by rewrite E1|]. rewrite E2. intros [= <-].
    split; [by exists [StaticData.UpsertClasses classRows]|done]. }
  destruct (error (StaticData.realms_upsert w realmRows)) as [m3|] eqn:E3.
  { intros [<-|[<-|[<-|[]]]]; simpl; [by rewrite E1|by rewrite E2|].
    rewrite E3. intros [= <-].
    split; [|done].
    by exists [StaticData.UpsertClasses classRows; StaticData.UpsertRaces raceRows]. }
  intros [<-|[<-|[<-|[]]]]; simpl; congruence.
Qed.

(** The runs of the handler: it stops at the token request, at one of the
    three index requests, or goes on to the upserts. *)
Lemma static_run :
  let run := StaticData.handleSyncStaticData env w in
  (app_token env w = None
   /\ snd run = [static_token_call env]
   /\ StaticData.status (fst run) = 500)
  \/ exists token,
       app_token env w = Some token
       /\ ((exists n,
              (1 <= n <= 3)%nat
              /\ snd run = static_token_call env :: firstn n (index_calls env token)
              /\ (StaticData.status (fst run) = 500
                  \/ StaticData.status (fst run) = 502))
           \/ exists classRows raceRows realmRows,
                Forall (fun row => name_or_null (StaticData.crow_name row)) classRows
                /\ Forall (fun row => name_or_null (StaticData.rrow_name row)) raceRows
                /\ Forall (fun row => name_or_null (StaticData.lrow_name row)
                                      /\ StaticData.lrow_region row
                                         = StaticData.apiRegion env) realmRows
                /\ fetched_ok (StaticData.index_endpoint w (StaticData.classesUrl env token)) = true
                /\ fetched_ok (StaticData.index_endpoint w (StaticData.racesUrl env token)) = true
                /\ fetched_ok (StaticData.index_endpoint w (StaticData.realmsUrl env token)) = true
                /\ snd run
                   = static_token_call env :: index_calls env token
                     ++ snd (StaticData.upsert_all w classRows raceRows realmRows)
                /\ fst run
                   = match fst (StaticData.upsert_all w classRows raceRows realmRows) with
                     | Went _ =>
                         StaticData.json_response 200
                           (StaticData.success_body (List.length classRows)
                              (List.length raceRows) (List.length realmRows))
                     | Answered r => r
                     | Threw message =>
                         StaticData.json_response 500 (StaticData.error_body message)
                     end).
Proof.
  intros run. subst run. unfold StaticData.handleSyncStaticData.
  rewrite try_catch_pair. unfold StaticData.sync.
  destruct fetch_token_cases as (s & Htoken & Hs). destruct s as [token|r|msg].
  2,3: left; rewrite Htoken; simpl; intuition.
  right. exists token. split; [done|].
  rewrite (and_then_went _ _ _ _ Htoken). cbn [fst snd].
  destruct (fetch_rows_cases "classes" (StaticData.classesUrl env token)
              (StaticData.class_row env) class_row_computes) as (s1 & H1 & Hs1).
  destruct s1 as [classRows|r|msg].
  2,3: left; exists 1%nat; rewrite H1; simpl; intuition.
  rewrite (and_then_went _ _ _ _ H1). cbn [fst snd].
  destruct Hs1 as [Hok1 [entries1 Hrows1]].
  destruct (fetch_rows_cases "races" (StaticData.racesUrl env token)
              (StaticData.race_row env) race_row_computes) as (s2 & H2 & Hs2).
  destruct s2 as [raceRows|r|msg].
  2,3: left; exists 2%nat; rewrite H2; simpl; intuition.
  rewrite (and_then_went _ _ _ _ H2). cbn [fst snd].
  destruct Hs2 as [Hok2 [entries2 Hrows2]].
  destruct (fetch_rows_cases "realms" (StaticData.realmsUrl env token)
              (StaticData.realm_row env) realm_row_computes) as (s3 & H3 & Hs3).
  destruct s3 as [realmRows|r|msg].
  2,3: left; exists 3%nat; rewrite H3; simpl; intuition.
  rewrite (and_then_went _ _ _ _ H3). cbn [fst snd].
  destruct Hs3 as [Hok3 [entries3 Hrows3]].
  right. exists classRows, raceRows, realmRows.
  split; [eapply rows_Forall; [|exact Hrows1]; apply class_row_inv|].
  split; [eapply rows_Forall; [|exact Hrows2]; apply race_row_inv|].
  split; [eapply rows_Forall; [|exact Hrows3]; apply realm_row_inv|].
  do 3 (split; [done|]).
  rewrite upsert_all_cases.
  destruct (error (StaticData.classes_upsert w classRows)); [done|].
  destruct (error (StaticData.races_upsert w raceRows)); [done|].
  by destruct (error (StaticData.realms_upsert w realmRows)).
Qed.

End StaticFacts.

(** A run of the static-data sync makes at most seven calls, always in the
    same order: the token request, the index requests for classes, races
    and realms with the token of the first answer, then one upsert per
    table, classes before races before realms.  No fetch follows a write,
    and no table is written twice. *)
Theorem static_sync_calls_in_fixed_order {Value : Type} `{!JsValues Value}
    (env : StaticData.SyncEnv) (w : StaticData.World Value) :
  exists token classRows raceRows realmRows rest,
    static_token_call env :: index_calls env token
      ++ [StaticData.UpsertClasses classRows; StaticData.UpsertRaces raceRows;
          StaticData.UpsertRealms realmRows]
    = snd (StaticData.handleSyncStaticData env w) ++ rest
    /\ (app_token env w = Some token
        \/ snd (StaticData.handleSyncStaticData env w) = [static_token_call env]).
Proof.
  destruct (static_run env w)
    as [(Hnone & -> & _)|(token & Htoken & [(n & Hn & -> & _)|Hrun])].
  - exists "", [], [], []. eexists. split; [reflexivity|]. by right.
  - exists token, [], [], []. 
    assert (n = 1 \/ n = 2 \/ n = 3)%nat as [->|[->| ->]] by lia;
      (eexists; split; [reflexivity|by left]).
  - destruct Hrun as (c & r & l & _ & _ & _ & _ & _ & _ & -> & _).
    exists token, c, r, l. rewrite upsert_all_cases.
    destruct (error (StaticData.classes_upsert w c));
      [eexists; split; [reflexivity|by left]|].
    destruct (error (StaticData.races_upsert w r));
      [eexists; split; [reflexivity|by left]|].
    destruct (error (StaticData.realms_upsert w l));
      (exists []; split; [reflexivity|by left]).
Qed.

(** The store is written only after the token request and all three index
    requests were answered with an ok status: a run in which one of the
    four fetches fails leaves the three tables as they were. *)
Theorem static_sync_stores_only_after_four_good_fetches {Value : Type} `{!JsValues Value}
    (env : StaticData.SyncEnv) (w : StaticData.World Value) call :
  In call (snd (StaticData.handleSyncStaticData env w)) ->
  is_store call = true ->
  exists token,
    app_token env w = Some token
    /\ fetched_ok (StaticData.token_endpoint w (StaticData.authorization env)
                     StaticData.token_form) = true
    /\ fetched_ok (StaticData.index_endpoint w (StaticData.classesUrl env token)) = true
    /\ fetched_ok (StaticData.index_endpoint w (StaticData.racesUrl env token)) = true
    /\ fetched_ok (StaticData.index_endpoint w (StaticData.realmsUrl env token)) = true.
Proof.
  intros Hin Hstore.
  destruct (static_run env w)
    as [(_ & Htrace & _)|(token & Htoken & [(n & Hn & Htrace & _)|Hrun])].
  - rewrite Htrace in Hin. destruct Hin as [<-|[]]. done.
  - rewrite Htrace in Hin. exfalso.
    assert (n = 1 \/ n = 2 \/ n = 3)%nat as [->|[->| ->]] by lia;
      simpl in Hin; intuition (subst; discriminate).
  - destruct Hrun as (c & r & l & _ & _ & _ & H1 & H2 & H3 & _).
    exists token. repeat split; try done.
    revert Htoken. unfold app_token, fetched_ok.
    destruct (StaticData.token_endpoint w _ _) as [res|]; [|done].
    by destruct (res_ok res).
Qed.

Lemma static_sync_stores_only_after_four_good_fetches_witness :
  exists token,
    app_token static_env static_world = Some token
    /\ fetched_ok (StaticData.token_endpoint static_world
                     (StaticData.authorization static_env)
                     StaticData.token_form) = true
    /\ fetched_ok (StaticData.index_endpoint static_world
                     (StaticData.classesUrl static_env token)) = true
    /\ fetched_ok (StaticData.index_endpoint static_world
                     (StaticData.racesUrl static_env token)) = true
    /\ fetched_ok (StaticData.index_endpoint static_world
                     (StaticData.realmsUrl static_env token)) = true.
Proof.
  eapply (static_sync_stores_only_after_four_good_fetches static_env static_world).
  - vm_compute. do 4 right. left. reflexivity.
  - reflexivity.
Defined.

(** The three upserts are not one transaction.  An upsert that the store
    answers with an error is the last call of the run, so the tables after
    it are not written while the upserts before it stay; the answer is the
    JSON error object with status 500, whose [details] name the table and
    carry the message of the store. *)
Theorem static_sync_stops_at_the_first_failed_upsert {Value : Type} `{!JsValues Value}
    (env : StaticData.SyncEnv) (w : StaticData.World Value) call message :
  In call (snd (StaticData.handleSyncStaticData env w)) ->
  upsert_error w call = Some message ->
  (exists before, snd (StaticData.handleSyncStaticData env w) = before ++ [call])
  /\ fst (StaticData.handleSyncStaticData env w)
     = StaticData.mkResponse 500
         (StaticData.error_body
            ("DB upsert error (" +:+ table_of call +:+ "): " +:+ message))
         [("Content-Type", "application/json")].
Proof.
  intros Hin Herror.
  destruct (static_run env w)
    as [(_ & Htrace & _)|(token & Htoken & [(n & Hn & Htrace & _)|Hrun])].
  - rewrite Htrace in Hin. by destruct Hin as [<-|[]].
  - rewrite Htrace in Hin. exfalso.
    assert (n = 1 \/ n = 2 \/ n = 3)%nat as [->|[->| ->]] by lia;
      simpl in Hin; intuition (subst; discriminate).
  - destruct Hrun as (c & r & l & _ & _ & _ & _ & _ & _ & Htrace & Hfst).
    rewrite Htrace in Hin |- *. rewrite Hfst. clear Htrace Hfst.
    change (static_token_call env :: index_calls env token ++ ?t)
      with ((static_token_call env :: index_calls env token) ++ t) in Hin |- *.
    apply in_app_or in Hin as [Hin|Hin].
    { exfalso. simpl in Hin. intuition (subst; discriminate). }
    destruct (upsert_all_error w c r l call message Hin Herror)
      as [[before ->] ->].
    split; [|done]. eexists. by rewrite app_assoc.
Qed.

Lemma static_sync_stops_at_the_first_failed_upsert_witness :
  let run := StaticData.handleSyncStaticData static_env refusing_races in
  (exists before,
     snd run
     = before
       ++ [StaticData.UpsertRaces
             [StaticData.mkRaceRow (JNumber 2) (JString "Orc") (JString "Horde")]])
  /\ fst run
     = StaticData.mkResponse 500
         (StaticData.error_body "DB upsert error (races): permission denied")
         [("Content-Type", "application/json")].
Proof.
  apply (static_sync_stops_at_the_first_failed_upsert static_env refusing_races
           (StaticData.UpsertRaces
              [StaticData.mkRaceRow (JNumber 2) (JString "Orc") (JString "Horde")])
           "permission denied").
  - vm_compute. do 5 right. left. reflexivity.
  - reflexivity.
Defined.

(** The answer has status 200 only after a complete run: the seven calls
    were made, every fetch was answered with an ok status and no upsert
    with an error.  Its body is the JSON object with the message and the
    three counts, which are the numbers of rows sent to the three tables. *)
Theorem static_sync_success_reports_the_counts {Value : Type} `{!JsValues Value}
    (env : StaticData.SyncEnv) (w : StaticData.World Value) :
  StaticData.status (fst (StaticData.handleSyncStaticData env w)) = 200 ->
  exists token classRows raceRows realmRows,
    app_token env w = Some token
    /\ snd (StaticData.handleSyncStaticData env w)
       = static_token_call env :: index_calls env token
         ++ [StaticData.UpsertClasses classRows; StaticData.UpsertRaces raceRows;
             StaticData.UpsertRealms realmRows]
    /\ Forall (fun call => upsert_error w call = None)
              (snd (StaticData.handleSyncStaticData env w))
    /\ fst (StaticData.handleSyncStaticData env w)
       = StaticData.mkResponse 200
           (json_object
              [("message",
                json_string ("Static data sync complete. Classes: "
                             +:+ pretty (List.length classRows)
                             +:+ ", Races: " +:+ pretty (List.length raceRows)
                             +:+ ", Realms: " +:+ pretty (List.length realmRows)
                             +:+ " updated."));
               ("classes", pretty (List.length classRows));
               ("races", pretty (List.length raceRows));
               ("realms", pretty (List.length realmRows))])
           [("Content-Type", "application/json")].
Proof.
  intros Hstatus.
  destruct (static_run env w)
    as [(_ & _ & H500)|(token & Htoken & [(n & _ & _ & [H500|H502])|Hrun])];
    try (rewrite Hstatus in *; discriminate).
  destruct Hrun as (c & r & l & _ & _ & _ & _ & _ & _ & Htrace & Hfst).
  rewrite Hfst in Hstatus. rewrite Htrace, Hfst. clear Htrace Hfst.
  rewrite upsert_all_cases in *.
  destruct (error (StaticData.classes_upsert w c)) eqn:E1; [done|].
  destruct (error (StaticData.races_upsert w r)) eqn:E2; [done|].
  destruct (error (StaticData.realms_upsert w l)) eqn:E3; [done|].
  exists token, c, r, l. split; [done|]. split; [done|]. split; [|done].
  simpl. repeat constructor; done.
Qed.

Lemma static_sync_success_reports_the_counts_witness :
  exists token classRows raceRows realmRows,
    app_token static_env static_world = Some token
    /\ snd (StaticData.handleSyncStaticData static_env static_world)
       = static_token_call static_env :: index_calls static_env token
         ++ [StaticData.UpsertClasses classRows; StaticData.UpsertRaces raceRows;
             StaticData.UpsertRealms realmRows]
    /\ Forall (fun call => upsert_error static_world call = None)
              (snd (StaticData.handleSyncStaticData static_env static_world))
    /\ fst (StaticData.handleSyncStaticData static_env static_world)
       = StaticData.mkResponse 200
           (json_object
              [("message",
                json_string ("Static data sync complete. Classes: "
                             +:+ pretty (List.length classRows)
                             +:+ ", Races: " +:+ pretty (List.length raceRows)
                             +:+ ", Realms: " +:+ pretty (List.length realmRows)
                             +:+ " updated."));
               ("classes", pretty (List.length classRows));
               ("races", pretty (List.length raceRows));
               ("realms", pretty (List.length realmRows))])
           [("Content-Type", "application/json")].
Proof.
  apply (static_sync_success_reports_the_counts static_env static_world).
  reflexivity.
Defined.

(** What the store receives: in every upsert of every run each [name] is a
    truthy value or [null], so no empty name is stored; and every realm row
    carries the configured region. *)
Theorem static_rows_have_a_name_or_null {Value : Type} `{!JsValues Value}
    (env : StaticData.SyncEnv) (w : StaticData.World Value) :
  Forall (fun call =>
            Forall name_or_null (stored_names call)
            /\ match call with
               | StaticData.UpsertRealms rows =>
                   Forall (fun row => StaticData.lrow_region row
                                      = StaticData.apiRegion env) rows
               | _ => True
               end)
         (snd (StaticData.handleSyncStaticData env w)).
Proof.
  destruct (static_run env w)
    as [(_ & -> & _)|(token & Htoken & [(n & Hn & -> & _)|Hrun])].
  - by repeat constructor.
  - assert (n = 1 \/ n = 2 \/ n = 3)%nat as [->|[->| ->]] by lia;
      by repeat constructor.
  - destruct Hrun as (c & r & l & Hc & Hr & Hl & _ & _ & _ & -> & _).
    assert (Forall name_or_null (map StaticData.crow_name c)) as Hc'
      by (by apply Forall_map).
    assert (Forall name_or_null (map StaticData.rrow_name r)) as Hr'
      by (by apply Forall_map).
    assert (Forall name_or_null (map StaticData.lrow_name l)) as Hl'.
    { apply Forall_map. eapply Forall_impl; [exact Hl|]. by intros ? [? _]. }
    assert (Forall (fun row => StaticData.lrow_region row
                               = StaticData.apiRegion env) l) as Hregion.
    { eapply Forall_impl; [exact Hl|]. by intros ? [_ ?]. }
    rewrite upsert_all_cases.
    destruct (error (StaticData.classes_upsert w c));
      [by repeat constructor|].
    destruct (error (StaticData.races_upsert w r));
      [by repeat constructor|].
    destruct (error (StaticData.realms_upsert w l)); by repeat constructor.
Qed.
